(** * nnet: the remote-node connection engine (package [node])

    A shallow embedding of [node/remotenode.go] and [node/middleware.go].
    The Go methods mutate the receiver [*RemoteNode]; here every method is a
    function from the node's state to its new state (and a result).  Effects
    on the outside world (log lines, calls on the [net.Conn], goroutines
    started, arguments handed to [handleMsgBuf], middleware invoked) are
    appended to an event trace carried by the state. *)

From Stdlib Require Import ZArith List Lia Bool String.
From stdpp Require Import base option list gmap strings pretty.

Import ListNotations.
Local Open Scope string_scope.
Local Open Scope list_scope.
Local Open Scope Z_scope.

(** ** Bytes and machine integers *)

Abbreviation byte := Byte.byte.

Definition byte_val (b : byte) : Z := Z.of_N (Byte.to_N b).

Definition byte_of_Z (z : Z) : byte :=
  match Byte.of_N (Z.to_N (z mod 256)) with
  | Some b => b
  | None => Byte.x00
  end.

(** Go's [int] is 32 or 64 bits wide, depending on the platform the
    package is compiled for. *)
Inductive Arch := Arch32 | Arch64.

Definition intSize (a : Arch) : Z :=
  match a with Arch32 => 32 | Arch64 => 64 end.

(** The conversion [int(x)] of a [uint32]: the low [intSize] bits of [x]
    read in two's complement. *)
Definition int_of_uint32 (a : Arch) (x : Z) : Z :=
  let m := x mod 2 ^ intSize a in
  if m <? 2 ^ (intSize a - 1) then m else m - 2 ^ intSize a.

(** The conversion [uint32(n)] of an [int]. *)
Definition uint32_of_int (n : Z) : Z := n mod 2 ^ 32.

(** [binary.BigEndian.Uint32]: reads the first four bytes of the slice and
    panics ([None]) on a shorter one. *)
Definition BigEndian_Uint32 (b : list byte) : option Z :=
  match b with
  | b0 :: b1 :: b2 :: b3 :: _ =>
      Some (Z.lor (Z.lor (Z.lor (Z.shiftl (byte_val b0) 24)
                                (Z.shiftl (byte_val b1) 16))
                         (Z.shiftl (byte_val b2) 8))
                  (byte_val b3))
  | _ => None
  end.

(** [binary.BigEndian.PutUint32] into a four-byte buffer. *)
Definition BigEndian_PutUint32 (v : Z) : list byte :=
  [ byte_of_Z (Z.shiftr v 24); byte_of_Z (Z.shiftr v 16);
    byte_of_Z (Z.shiftr v 8); byte_of_Z v ].

(** ** Constants of [remotenode.go] *)

Definition remoteRxMsgChanLen : Z := 23333.
Definition remoteTxMsgChanLen : Z := 23333.
Definition rxBufLen : Z := 1024 * 16.

(** Durations are [time.Duration] values: nanoseconds. *)
Definition time_Second : Z := 1000000000.
Definition replyTimeout : Z := 5 * time_Second.
Definition keepAliveInterval : Z := 3 * time_Second.
Definition keepAliveTimeout : Z := 10 * time_Second.

(** Modelled from the spec: the constant [msgLenBytes] is declared in a file
    of the package that is not part of the sources at hand; the wire format
    has a "4-byte big-endian unsigned length", which is also the only width
    [binary.BigEndian.Uint32] reads. *)
Definition msgLenBytes : Z := 4.

(** ** Buffered channels

    A channel made by [make(chan T, n)]: its capacity and the queued values,
    oldest first. *)
Record Chan (A : Type) := mkChan { chan_cap : Z; chan_buf : list A }.
Arguments mkChan {A} _ _.
Arguments chan_cap {A} _.
Arguments chan_buf {A} _.

Definition make_chan {A : Type} (n : Z) : Chan A := mkChan n [].

(** [select { case c <- x: ... default: ... }]: the send goes through when
    the buffer has room, otherwise the default branch is taken. *)
Definition chan_try_send {A : Type} (c : Chan A) (x : A) : option (Chan A) :=
  if Z.of_nat (length (chan_buf c)) <? chan_cap c
  then Some (mkChan (chan_cap c) (chan_buf c ++ [x]))
  else None.

(** [x := <-c] on a channel that holds a value. *)
Definition chan_recv {A : Type} (c : Chan A) : option (A * Chan A) :=
  match chan_buf c with
  | [] => None
  | x :: q => Some (x, mkChan (chan_cap c) q)
  end.

Definition chan_full {A : Type} (c : Chan A) : Prop :=
  chan_cap c <= Z.of_nat (length (chan_buf c)).

(** ** Messages *)

(** [protobuf.Message], the envelope: the fields the package reads. *)
Record protobuf_Message := mkMessage {
  RoutingType : Z;
  MessageId : string;
  Message : list byte
}.

(** [protobuf.Node], the peer's self-description. *)
Record protobuf_Node := mkProtoNode {
  Id : list byte;
  Addr : string
}.

(** [RemoteMessage]: a message together with the connection it came from
    (here always the connection at hand). *)
Record RemoteMessage := mkRemoteMessage { Msg : protobuf_Message }.

(** What a middleware can see of the remote node it is called with. *)
Record RemoteNodeInfo := mkInfo {
  info_Node : option protobuf_Node;
  info_IsOutbound : bool;
  info_IsStopped : bool
}.

(** Results of Go functions that return [(value, error)]. *)
Inductive result (A : Type) :=
| Ok (a : A)
| Err (e : string).
Arguments Ok {A} _.
Arguments Err {A} _.

(** ** The middleware store ([middleware.go])

    A middleware is a Go closure returning [bool]; it may read and change
    the state of the subsystem that registered it.  That state is the type
    [W]; a middleware for subject type [S] is a function
    [S -> W -> bool * W].  (A middleware that calls back into the node it
    is given is outside this model.) *)
Section Middleware.

Context {W : Type}.

Definition Callback (S : Type) : Type := S -> W -> bool * W.

(** The subject of a local-node middleware, [*LocalNode], is opaque here. *)
Definition LocalNodeInfo : Type := unit.

Definition LocalNodeWillStart := Callback LocalNodeInfo.
Definition LocalNodeStarted := Callback LocalNodeInfo.
Definition RemoteNodeConnected := Callback RemoteNodeInfo.
Definition RemoteNodeReady := Callback RemoteNodeInfo.
Definition RemoteNodeDisconnected := Callback RemoteNodeInfo.

Record middlewareStore := mkStore {
  localNodeWillStart : list LocalNodeWillStart;
  localNodeStarted : list LocalNodeStarted;
  remoteNodeConnected : list RemoteNodeConnected;
  remoteNodeReady : list RemoteNodeReady;
  remoteNodeDisconnected : list RemoteNodeDisconnected
}.

Definition newMiddlewareStore : middlewareStore := mkStore [] [] [] [] [].

(** The dynamic value of the [interface{}] argument of [ApplyMiddleware]:
    the nil interface, a value of one of the five named function types
    ([None] is the nil function of that type), or a value of any other
    dynamic type (a plain function literal that was not converted to one
    of the named types is one of these). *)
Inductive iface :=
| INil
| ILocalNodeWillStart (f : option LocalNodeWillStart)
| ILocalNodeStarted (f : option LocalNodeStarted)
| IRemoteNodeConnected (f : option RemoteNodeConnected)
| IRemoteNodeReady (f : option RemoteNodeReady)
| IRemoteNodeDisconnected (f : option RemoteNodeDisconnected)
| IOther (typeName : string).

(** [ApplyMiddleware]: a type switch on the dynamic type, then the nil
    test and the append.  (The store's lock is held around the body; a call
    is one step here.) *)
Definition ApplyMiddleware (f : iface) (store : middlewareStore)
  : middlewareStore * option string :=
  match f with
  | ILocalNodeWillStart f =>
      match f with
      | None => (store, Some "middleware is nil")
      | Some f =>
          (mkStore (localNodeWillStart store ++ [f]) (localNodeStarted store)
                   (remoteNodeConnected store) (remoteNodeReady store)
                   (remoteNodeDisconnected store), None)
      end
  | ILocalNodeStarted f =>
      match f with
      | None => (store, Some "middleware is nil")
      | Some f =>
          (mkStore (localNodeWillStart store) (localNodeStarted store ++ [f])
                   (remoteNodeConnected store) (remoteNodeReady store)
                   (remoteNodeDisconnected store), None)
      end
  | IRemoteNodeConnected f =>
      match f with
      | None => (store, Some "middleware is nil")
      | Some f =>
          (mkStore (localNodeWillStart store) (localNodeStarted store)
                   (remoteNodeConnected store ++ [f]) (remoteNodeReady store)
                   (remoteNodeDisconnected store), None)
      end
  | IRemoteNodeReady f =>
      match f with
      | None => (store, Some "middleware is nil")
      | Some f =>
          (mkStore (localNodeWillStart store) (localNodeStarted store)
                   (remoteNodeConnected store) (remoteNodeReady store ++ [f])
                   (remoteNodeDisconnected store), None)
      end
  | IRemoteNodeDisconnected f =>
      match f with
      | None => (store, Some "middleware is nil")
      | Some f =>
          (mkStore (localNodeWillStart store) (localNodeStarted store)
                   (remoteNodeConnected store) (remoteNodeReady store)
                   (remoteNodeDisconnected store ++ [f]), None)
      end
  | INil | IOther _ => (store, Some "unknown middleware type")
  end.

(** The five recognised shapes, the shape of a dynamic value, and whether
    the value is a nil function of one of them. *)
Inductive Shape :=
| SLocalNodeWillStart
| SLocalNodeStarted
| SRemoteNodeConnected
| SRemoteNodeReady
| SRemoteNodeDisconnected.

Definition shape_of (f : iface) : option Shape :=
  match f with
  | ILocalNodeWillStart _ => Some SLocalNodeWillStart
  | ILocalNodeStarted _ => Some SLocalNodeStarted
  | IRemoteNodeConnected _ => Some SRemoteNodeConnected
  | IRemoteNodeReady _ => Some SRemoteNodeReady
  | IRemoteNodeDisconnected _ => Some SRemoteNodeDisconnected
  | INil | IOther _ => None
  end.

Definition is_nil_callback (f : iface) : bool :=
  match f with
  | ILocalNodeWillStart None | ILocalNodeStarted None
  | IRemoteNodeConnected None | IRemoteNodeReady None
  | IRemoteNodeDisconnected None => true
  | _ => false
  end.

(** The ordered list of a shape, each element as the dynamic value it was
    registered as. *)
Definition registered (k : Shape) (store : middlewareStore) : list iface :=
  match k with
  | SLocalNodeWillStart =>
      (fun f => ILocalNodeWillStart (Some f)) <$> localNodeWillStart store
  | SLocalNodeStarted =>
      (fun f => ILocalNodeStarted (Some f)) <$> localNodeStarted store
  | SRemoteNodeConnected =>
      (fun f => IRemoteNodeConnected (Some f)) <$> remoteNodeConnected store
  | SRemoteNodeReady =>
      (fun f => IRemoteNodeReady (Some f)) <$> remoteNodeReady store
  | SRemoteNodeDisconnected =>
      (fun f => IRemoteNodeDisconnected (Some f))
        <$> remoteNodeDisconnected store
  end.

(** Whether [ApplyMiddleware] takes the value into the list of shape [k]:
    it is a function of that shape, and not nil. *)
Definition accepts (k : Shape) (f : iface) : bool :=
  match k, f with
  | SLocalNodeWillStart, ILocalNodeWillStart (Some _)
  | SLocalNodeStarted, ILocalNodeStarted (Some _)
  | SRemoteNodeConnected, IRemoteNodeConnected (Some _)
  | SRemoteNodeReady, IRemoteNodeReady (Some _)
  | SRemoteNodeDisconnected, IRemoteNodeDisconnected (Some _) => true
  | _, _ => false
  end.

(** [ApplyMiddleware] called with each of the values in turn, whatever the
    calls return. *)
Definition ApplyAll (fs : list iface) (store : middlewareStore)
  : middlewareStore :=
  fold_left (fun store f => fst (ApplyMiddleware f store)) fs store.

End Middleware.

Arguments middlewareStore : clear implicits.
Arguments iface : clear implicits.

(** ** The state of a remote node *)

(** Modelled from the spec: [sync.Once]-like guards [StartOnce] and
    [StopOnce] of the embedded [Node]'s life cycle, declared outside the
    sources at hand: "synchronization primitives that guarantee the
    shutdown/startup body executes exactly once".  The guard is its [done]
    flag. *)
Definition Once : Type := bool.

(** The [net.Conn] handed to [NewRemoteNode]. *)
Record Conn := mkConn { conn_RemoteAddr : string }.

(** The goroutines [Start] launches. *)
Inductive Task := TaskRx | TaskTx | TaskHandleMsg | TaskReady.

Inductive LogLevel := LInfo | LWarn | LError.

(** The two middleware categories dispatched by a remote node. *)
Inductive Category := CatReady | CatDisconnected.

(** What a remote node does to the world around it. *)
Inductive Event :=
| EvLog (l : LogLevel) (msg : string)
| EvLifeCycleStop
| EvConnClose
| EvConnWrite (bs : list byte)
| EvGo (t : Task)
| EvHandleMsgBuf (buf : list byte)
| EvMiddleware (c : Category) (i : nat) (verdict : bool).

(** How a Go call ends: it returns, it panics, or (for the model of a
    recursive function) the recursion budget of the model ran out. *)
Inductive outcome (A : Type) :=
| Returns (a : A)
| Panics (why : string)
| OutOfFuel.
Arguments Returns {A} _.
Arguments Panics {A} _.
Arguments OutOfFuel {A}.

(** Go's slice expression [s[lo:hi]]: it panics ([None]) unless
    [0 <= lo <= hi <= cap(s)].  The capacity is taken to be the length: in
    [readBuf] an upper bound that is not negative is at most [len(s)]. *)
Definition slice {A : Type} (s : list A) (lo hi : Z) : option (list A) :=
  if (0 <=? lo) && (lo <=? hi) && (hi <=? Z.of_nat (length s))
  then Some (take (Z.to_nat (hi - lo)) (drop (Z.to_nat lo) s))
  else None.

Abbreviation len s := (Z.of_nat (length s)).

Section RemoteNode.

(** The state of the subsystems the registered middleware belongs to. *)
Context {W : Type}.

(** The platform's [int]. *)
Variable arch : Arch.

(** [proto.Marshal] and [proto.Unmarshal] of the protobuf library, on
    envelopes and on the body of a [GetNodeReply] (whose [Node] field may be
    absent). *)
Variable proto_Marshal : protobuf_Message -> result (list byte).
Variable proto_Unmarshal : list byte -> result protobuf_Message.
Variable proto_Unmarshal_GetNodeReply :
  list byte -> result (option protobuf_Node).

(** [net.SplitHostPort] and [net.JoinHostPort] of Go's library. *)
Variable net_SplitHostPort : string -> result (string * string).
Variable net_JoinHostPort : string -> string -> string.

(** Modelled from the spec: the owning [LocalNode] is declared outside the
    sources at hand.  Of it the remote node uses the middleware store and
    the reply registry: "maps a message identifier to a one-shot delivery
    channel", each entry "destroyed on fulfillment or on timeout (whichever
    first)".  An entry is kept with the time at which it times out. *)
Record LocalNode_t := mkLocalNode {
  middleware : middlewareStore W;
  replyChan : gmap string Z
}.

(** A reply channel is named by the message identifier it was allocated
    for. *)
Definition ReplyChan : Type := string.

Record RemoteNode := mkRemoteNode {
  (* the embedded *Node: the peer's record and the life cycle *)
  Node_Node : option protobuf_Node;
  StartOnce : Once;
  StopOnce : Once;
  isStopped : bool;
  (* the fields of RemoteNode *)
  LocalNode : LocalNode_t;
  IsOutbound : bool;
  conn : option Conn;
  rxBuf_buf : list byte;
  rxBuf_len : Z;
  rxMsgChan : Chan protobuf_Message;
  txMsgChan : Chan protobuf_Message;
  (* the surroundings: the clock (nanoseconds), the state the middleware
     acts on, and the effects so far, oldest first *)
  now : Z;
  world : W;
  trace : list Event
}.

Definition set_Node_Node (v : option protobuf_Node) (rn : RemoteNode)
  : RemoteNode :=
  mkRemoteNode v (StartOnce rn) (StopOnce rn) (isStopped rn) (LocalNode rn)
    (IsOutbound rn) (conn rn) (rxBuf_buf rn) (rxBuf_len rn) (rxMsgChan rn)
    (txMsgChan rn) (now rn) (world rn) (trace rn).

Definition set_StartOnce (v : Once) (rn : RemoteNode) : RemoteNode :=
  mkRemoteNode (Node_Node rn) v (StopOnce rn) (isStopped rn) (LocalNode rn)
    (IsOutbound rn) (conn rn) (rxBuf_buf rn) (rxBuf_len rn) (rxMsgChan rn)
    (txMsgChan rn) (now rn) (world rn) (trace rn).

Definition set_StopOnce (v : Once) (rn : RemoteNode) : RemoteNode :=
  mkRemoteNode (Node_Node rn) (StartOnce rn) v (isStopped rn) (LocalNode rn)
    (IsOutbound rn) (conn rn) (rxBuf_buf rn) (rxBuf_len rn) (rxMsgChan rn)
    (txMsgChan rn) (now rn) (world rn) (trace rn).

Definition set_isStopped (v : bool) (rn : RemoteNode) : RemoteNode :=
  mkRemoteNode (Node_Node rn) (StartOnce rn) (StopOnce rn) v (LocalNode rn)
    (IsOutbound rn) (conn rn) (rxBuf_buf rn) (rxBuf_len rn) (rxMsgChan rn)
    (txMsgChan rn) (now rn) (world rn) (trace rn).

Definition set_LocalNode (v : LocalNode_t) (rn : RemoteNode) : RemoteNode :=
  mkRemoteNode (Node_Node rn) (StartOnce rn) (StopOnce rn) (isStopped rn) v
    (IsOutbound rn) (conn rn) (rxBuf_buf rn) (rxBuf_len rn) (rxMsgChan rn)
    (txMsgChan rn) (now rn) (world rn) (trace rn).

Definition set_rxBuf_buf (v : list byte) (rn : RemoteNode) : RemoteNode :=
  mkRemoteNode (Node_Node rn) (StartOnce rn) (StopOnce rn) (isStopped rn)
    (LocalNode rn) (IsOutbound rn) (conn rn) v (rxBuf_len rn) (rxMsgChan rn)
    (txMsgChan rn) (now rn) (world rn) (trace rn).

Definition set_rxBuf_len (v : Z) (rn : RemoteNode) : RemoteNode :=
  mkRemoteNode (Node_Node rn) (StartOnce rn) (StopOnce rn) (isStopped rn)
    (LocalNode rn) (IsOutbound rn) (conn rn) (rxBuf_buf rn) v (rxMsgChan rn)
    (txMsgChan rn) (now rn) (world rn) (trace rn).

Definition set_rxMsgChan (v : Chan protobuf_Message) (rn : RemoteNode)
  : RemoteNode :=
  mkRemoteNode (Node_Node rn) (StartOnce rn) (StopOnce rn) (isStopped rn)
    (LocalNode rn) (IsOutbound rn) (conn rn) (rxBuf_buf rn) (rxBuf_len rn) v
    (txMsgChan rn) (now rn) (world rn) (trace rn).

Definition set_txMsgChan (v : Chan protobuf_Message) (rn : RemoteNode)
  : RemoteNode :=
  mkRemoteNode (Node_Node rn) (StartOnce rn) (StopOnce rn) (isStopped rn)
    (LocalNode rn) (IsOutbound rn) (conn rn) (rxBuf_buf rn) (rxBuf_len rn)
    (rxMsgChan rn) v (now rn) (world rn) (trace rn).

Definition set_now (v : Z) (rn : RemoteNode) : RemoteNode :=
  mkRemoteNode (Node_Node rn) (StartOnce rn) (StopOnce rn) (isStopped rn)
    (LocalNode rn) (IsOutbound rn) (conn rn) (rxBuf_buf rn) (rxBuf_len rn)
    (rxMsgChan rn) (txMsgChan rn) v (world rn) (trace rn).

Definition set_world (v : W) (rn : RemoteNode) : RemoteNode :=
  mkRemoteNode (Node_Node rn) (StartOnce rn) (StopOnce rn) (isStopped rn)
    (LocalNode rn) (IsOutbound rn) (conn rn) (rxBuf_buf rn) (rxBuf_len rn)
    (rxMsgChan rn) (txMsgChan rn) (now rn) v (trace rn).

Definition set_trace (v : list Event) (rn : RemoteNode) : RemoteNode :=
  mkRemoteNode (Node_Node rn) (StartOnce rn) (StopOnce rn) (isStopped rn)
    (LocalNode rn) (IsOutbound rn) (conn rn) (rxBuf_buf rn) (rxBuf_len rn)
    (rxMsgChan rn) (txMsgChan rn) (now rn) (world rn) v.

Definition emit (e : Event) (rn : RemoteNode) : RemoteNode :=
  set_trace (trace rn ++ [e]) rn.

Definition log (l : LogLevel) (msg : string) (rn : RemoteNode) : RemoteNode :=
  emit (EvLog l msg) rn.

Definition info (rn : RemoteNode) : RemoteNodeInfo :=
  mkInfo (Node_Node rn) (IsOutbound rn) (isStopped rn).

(** The node [NewRemoteNode] builds for a local node and a connection, in
    the surroundings given (the time, the middleware's world). *)
Definition fresh (ln : LocalNode_t) (c : Conn) (isOutbound : bool) (t : Z)
    (w : W) : RemoteNode :=
  mkRemoteNode None false false false ln isOutbound (Some c) [] 0
    (make_chan remoteRxMsgChanLen) (make_chan remoteTxMsgChanLen) t w [].

(** [NewRemoteNode]: the local node and the connection must not be nil,
    and [NewNode] (declared outside the sources at hand; [newNode] is the
    error it returns, if any) must succeed. *)
Definition NewRemoteNode (localNode : option LocalNode_t) (c : option Conn)
    (isOutbound : bool) (newNode : option string) (t : Z) (w : W)
  : result RemoteNode :=
  match localNode with
  | None => Err "Local node is nil"
  | Some ln =>
      match c with
      | None => Err "conn is nil"
      | Some c =>
          match newNode with
          | Some err => Err err
          | None => Ok (fresh ln c isOutbound t w)
          end
      end
  end.

(** Modelled from the spec: the life cycle of the embedded [Node] is
    declared outside the sources at hand; [Stop] "transitions lifecycle
    state" and the loops "check the stopped state each iteration". *)
Definition LifeCycle_Stop (rn : RemoteNode) : RemoteNode :=
  emit EvLifeCycleStop (set_isStopped true rn).

Definition IsStopped (rn : RemoteNode) : bool := isStopped rn.

(** Modelled from the spec: [rn.StartOnce.Do(f)] and [rn.StopOnce.Do(f)]
    of the guards described above; a call runs [f] when the guard is not
    done and leaves it done. *)
Definition StartOnce_Do (f : RemoteNode -> RemoteNode) (rn : RemoteNode)
  : RemoteNode :=
  if StartOnce rn then rn else set_StartOnce true (f rn).

Definition StopOnce_Do (f : RemoteNode -> RemoteNode) (rn : RemoteNode)
  : RemoteNode :=
  if StopOnce rn then rn else set_StopOnce true (f rn).

(** The loop shared by [Start] and [Stop]:
    [for _, f := range list { if !f(rn) { break } }]; [i] is the index of
    the head of [fs] in the registered list. *)
Fixpoint rangeMiddleware (c : Category) (i : nat)
    (fs : list (Callback (W:=W) RemoteNodeInfo)) (rn : RemoteNode)
  : RemoteNode :=
  match fs with
  | [] => rn
  | f :: fs' =>
      let '(ok, w) := f (info rn) (world rn) in
      let rn := emit (EvMiddleware c i ok) (set_world w rn) in
      if ok then rangeMiddleware c (S i) fs' rn else rn
  end.

(** [Stop]: the body runs under [StopOnce]. *)
Definition Stop_body (err : option string) (rn : RemoteNode) : RemoteNode :=
  let rn :=
    match err with
    | Some e => log LWarn ("Remote node stops because of error: " +:+ e) rn
    | None => log LInfo "Remote node stops" rn
    end in
  let rn := LifeCycle_Stop rn in
  let rn := match conn rn with
            | Some _ => emit EvConnClose rn
            | None => rn
            end in
  rangeMiddleware CatDisconnected 0
    (remoteNodeDisconnected (middleware (LocalNode rn))) rn.

Definition Stop (err : option string) (rn : RemoteNode) : RemoteNode :=
  StopOnce_Do (Stop_body err) rn.

(** ** The frame codec *)

(** [handleMsgBuf]: unmarshal the buffer and queue the message. *)
Definition handleMsgBuf (buf : list byte) (rn : RemoteNode) : RemoteNode :=
  let rn := emit (EvHandleMsgBuf buf) rn in
  match proto_Unmarshal buf with
  | Err e => log LError ("unmarshal msg error: " +:+ e) rn
  | Ok msg =>
      match chan_try_send (rxMsgChan rn) msg with
      | Some q => set_rxMsgChan q rn
      | None => log LWarn "Rx msg chan full, discarding msg" rn
      end
  end.

(** [readBuf].  The subtractions cannot overflow an [int]: their operands
    are slice lengths and, where it is subtracted from, a larger length. *)
Fixpoint readBuf_rec (fuel : nat) (buf : list byte) (rn : RemoteNode)
  : outcome (RemoteNode * option string) :=
  match fuel with
  | O => OutOfFuel
  | S fuel =>
      let body (buf : list byte) (rn : RemoteNode) :=
        let msgLen := rxBuf_len rn in
        if len buf =? msgLen then
          let rn := handleMsgBuf buf rn in
          Returns (set_rxBuf_len 0 (set_rxBuf_buf [] rn), None)
        else if len buf <? msgLen then
          let rn := set_rxBuf_buf (rxBuf_buf rn ++ buf) rn in
          Returns (set_rxBuf_len (msgLen - len buf) rn, None)
        else
          match slice buf 0 msgLen, slice buf msgLen (len buf) with
          | Some front, Some rest =>
              let rn := handleMsgBuf front rn in
              let rn := set_rxBuf_len 0 (set_rxBuf_buf [] rn) in
              readBuf_rec fuel rest rn
          | _, _ => Panics "slice bounds out of range"
          end in
      if len buf =? 0 then Returns (rn, None)
      else if rxBuf_len rn =? 0 then
        let length := msgLenBytes - len (rxBuf_buf rn) in
        if length >? len buf then
          Returns (set_rxBuf_buf (rxBuf_buf rn ++ buf) rn, None)
        else
          match slice buf 0 length, slice buf length (len buf) with
          | Some head, Some rest =>
              let rn := set_rxBuf_buf (rxBuf_buf rn ++ head) rn in
              match BigEndian_Uint32 (rxBuf_buf rn) with
              | None => Panics "index out of range"
              | Some u =>
                  let rn := set_rxBuf_len (int_of_uint32 arch u) rn in
                  if rxBuf_len rn <? 0 then
                    Returns (rn, Some ("Message length "
                                       +:+ pretty (rxBuf_len rn)
                                       +:+ " overflow"))
                  else body rest rn
              end
          | _, _ => Panics "slice bounds out of range"
          end
      else body buf rn
  end.

(** Every recursive call but possibly the first consumes at least one
    byte, so this budget is never used up ([readBuf_returns_or_panics]
    below). *)
Definition readBuf (buf : list byte) (rn : RemoteNode)
  : outcome (RemoteNode * option string) :=
  readBuf_rec (S (S (length buf))) buf rn.

(** ** The receive loop *)

(** What one [rn.conn.Read] gives: bytes, end of stream, or an error.
    (A read fills at most [rxBufLen - 1] bytes; the model takes reads of
    any length.) *)
Inductive ReadResult :=
| ReadBytes (bs : list byte)
| ReadEOF
| ReadError (e : string).

(** One iteration of the loop of [rx], past the [IsStopped] test, for the
    given result of [Read]. *)
Definition rx_iter (r : ReadResult) (rn : RemoteNode) : outcome RemoteNode :=
  match conn rn with
  | None => Panics "nil pointer dereference"
  | Some _ =>
      match r with
      | ReadBytes bs =>
          match readBuf bs rn with
          | Returns (rn, Some e) =>
              Returns (log LWarn ("Read buffer error: " +:+ e) rn)
          | Returns (rn, None) => Returns rn
          | Panics why => Panics why
          | OutOfFuel => OutOfFuel
          end
      | ReadEOF => Returns (Stop (Some "Rx get io.EOF") rn)
      | ReadError e =>
          Returns (Stop (Some ("Read connection error: " +:+ e)) rn)
      end
  end.

(** [rx] over the results of the successive reads: the loop ends when the
    node is stopped; when the reads given are used up the loop is left
    waiting in [Read]. *)
Fixpoint rx (reads : list ReadResult) (rn : RemoteNode) : outcome RemoteNode :=
  if IsStopped rn then Returns rn
  else
    match reads with
    | [] => Returns rn
    | r :: reads' =>
        match rx_iter r rn with
        | Returns rn => rx reads' rn
        | Panics why => Panics why
        | OutOfFuel => OutOfFuel
        end
    end.

(** The buffers handed to [handleMsgBuf] so far, oldest first. *)
Definition handled (rn : RemoteNode) : list (list byte) :=
  omap (fun e => match e with EvHandleMsgBuf b => Some b | _ => None end)
       (trace rn).

(** ** Sending *)

(** Modelled from the spec: [LocalNode.AllocReplyChan] is declared outside
    the sources at hand.  It is to "allocate a one-shot reply-delivery slot
    given a message identifier; fails if one is already outstanding for that
    identifier"; an entry is "destroyed on fulfillment or on timeout
    (whichever first)", so an entry whose time has passed is not
    outstanding.  [t] is the time of the call. *)
Definition AllocReplyChan (msgID : string) (t : Z) (ln : LocalNode_t)
  : LocalNode_t * result ReplyChan :=
  let fresh :=
    (mkLocalNode (middleware ln) (<[msgID := t + replyTimeout]> (replyChan ln)),
     Ok msgID) in
  match replyChan ln !! msgID with
  | Some expiry =>
      if t <? expiry then (ln, Err "Reply chan already exists") else fresh
  | None => fresh
  end.

(** Modelled from the spec: the local node's side of a fulfilled reply, by
    which the entry is "destroyed on fulfillment". *)
Definition fulfilReplyChan (msgID : string) (ln : LocalNode_t) : LocalNode_t :=
  mkLocalNode (middleware ln) (delete msgID (replyChan ln)).

(** [SendMessage]. *)
Definition SendMessage (msg : protobuf_Message) (hasReply : bool)
    (rn : RemoteNode) : RemoteNode * result (option ReplyChan) :=
  match chan_try_send (txMsgChan rn) msg with
  | None => (rn, Err "Tx msg chan full, discarding msg")
  | Some q =>
      let rn := set_txMsgChan q rn in
      if hasReply then
        match AllocReplyChan (MessageId msg) (now rn) (LocalNode rn) with
        | (ln, Err e) => (set_LocalNode ln rn, Err e)
        | (ln, Ok replyChan) => (set_LocalNode ln rn, Ok (Some replyChan))
        end
      else (rn, Ok None)
  end.

(** [SendMessageAsync]. *)
Definition SendMessageAsync (msg : protobuf_Message) (rn : RemoteNode)
  : RemoteNode * option string :=
  match SendMessage msg false rn with
  | (rn, Err e) => (rn, Some e)
  | (rn, Ok _) => (rn, None)
  end.

(** [SendMessageSync].  [arrival] says what the reply channel will deliver
    and how long after the send, if it ever delivers; the [select] takes the
    reply when it comes before [replyTimeout] has elapsed and the timer
    otherwise (a nil channel never delivers).  The clock advances by the
    time spent waiting. *)
Definition SendMessageSync (msg : protobuf_Message)
    (arrival : option (Z * RemoteMessage)) (rn : RemoteNode)
  : RemoteNode * result RemoteMessage :=
  match SendMessage msg true rn with
  | (rn, Err e) => (rn, Err e)
  | (rn, Ok replyChan) =>
      let timeout :=
        (set_now (now rn + replyTimeout) rn, Err "Wait for reply timeout") in
      match replyChan, arrival with
      | Some replyChan, Some (d, replyMsg) =>
          if d <? replyTimeout then
            (set_now (now rn + Z.max 0 d)
               (set_LocalNode (fulfilReplyChan replyChan (LocalNode rn)) rn),
             Ok replyMsg)
          else timeout
      | _, _ => timeout
      end
  end.

(** [keepAlive], [Ping] and [GetNode]; the message built by
    [NewPingMessage] or [NewGetNodeMessage] (declared outside the sources at
    hand) is an argument. *)
Definition keepAlive (newMsg : result protobuf_Message) (rn : RemoteNode)
  : RemoteNode * option string :=
  match newMsg with
  | Err e => (rn, Some e)
  | Ok msg => SendMessageAsync msg rn
  end.


Definition GetNode (newMsg : result protobuf_Message)
    (arrival : option (Z * RemoteMessage)) (rn : RemoteNode)
  : RemoteNode * result (option protobuf_Node) :=
  match newMsg with
  | Err e => (rn, Err e)
  | Ok msg =>
      match SendMessageSync msg arrival rn with
      | (rn, Err e) => (rn, Err e)
      | (rn, Ok reply) =>
          match proto_Unmarshal_GetNodeReply (Message (Msg reply)) with
          | Err e => (rn, Err e)
          | Ok node => (rn, Ok node)
          end
      end
  end.

(** ** The transmit loop *)

(** Which branch the [select] of [tx] takes: a message is received from
    [txMsgChan] (with the errors, if any, of the two writes that follow), or
    the keep-alive timer fires (with the ping message built). *)
Inductive TxSelect :=
| TxMsg (werr1 werr2 : option string)
| TxKeepAlive (ping : result protobuf_Message).

(** [rn.conn.Write(bs)] followed by the test of its error. *)
Definition conn_Write (bs : list byte) (werr : option string)
    (rn : RemoteNode) : RemoteNode :=
  match werr with
  | None => emit (EvConnWrite bs) rn
  | Some e => Stop (Some ("Write to conn error: " +:+ e)) rn
  end.

(** One iteration of the loop of [tx], past the [IsStopped] test. *)
Definition tx_iter (s : TxSelect) (rn : RemoteNode) : outcome RemoteNode :=
  match s with
  | TxMsg werr1 werr2 =>
      match chan_recv (txMsgChan rn) with
      | None => Returns rn
      | Some (msg, q) =>
          let rn := set_txMsgChan q rn in
          match proto_Marshal msg with
          | Err e => Returns (log LError e rn)
          | Ok buf =>
              match conn rn with
              | None => Panics "nil pointer dereference"
              | Some _ =>
                  let msgLenBuf :=
                    BigEndian_PutUint32 (uint32_of_int (len buf)) in
                  let rn := conn_Write msgLenBuf werr1 rn in
                  let rn := conn_Write buf werr2 rn in
                  Returns rn
              end
          end
      end
  | TxKeepAlive ping => Returns (fst (keepAlive ping rn))
  end.

Fixpoint tx (sels : list TxSelect) (rn : RemoteNode) : outcome RemoteNode :=
  if IsStopped rn then Returns rn
  else
    match sels with
    | [] => Returns rn
    | s :: sels' =>
        match tx_iter s rn with
        | Returns rn => tx sels' rn
        | Panics why => Panics why
        | OutOfFuel => OutOfFuel
        end
    end.

(** The byte slices written to the connection so far, oldest first. *)
Definition written (rn : RemoteNode) : list (list byte) :=
  omap (fun e => match e with EvConnWrite b => Some b | _ => None end)
       (trace rn).

(** ** Starting *)

(** The goroutine [Start] launches last: it asks the peer for its node
    record, completes the address and runs the ready middleware. *)
Definition Start_ready (newMsg : result protobuf_Message)
    (arrival : option (Z * RemoteMessage)) (rn : RemoteNode)
  : outcome RemoteNode :=
  match GetNode newMsg arrival rn with
  | (rn, Err e) => Returns (Stop (Some ("Get node error: " +:+ e)) rn)
  | (rn, Ok None) => Panics "nil pointer dereference"
  | (rn, Ok (Some n)) =>
      let ready (n : protobuf_Node) :=
        let rn := set_Node_Node (Some n) rn in
        Returns (rangeMiddleware CatReady 0
                   (remoteNodeReady (middleware (LocalNode rn))) rn) in
      match net_SplitHostPort (Addr n) with
      | Err e =>
          Returns (Stop (Some ("Parse node addr " +:+ Addr n
                               +:+ " error: " +:+ e)) rn)
      | Ok (host, port) =>
          if String.eqb port "" then
            Returns (Stop (Some "Node addr port is empty") rn)
          else if String.eqb host "" then
            match conn rn with
            | None => Panics "nil pointer dereference"
            | Some c =>
                let connAddr := conn_RemoteAddr c in
                match net_SplitHostPort connAddr with
                | Err e =>
                    Returns (Stop (Some ("Parse conn remote addr " +:+ connAddr
                                         +:+ " error: " +:+ e)) rn)
                | Ok (host, _) =>
                    ready (mkProtoNode (Id n) (net_JoinHostPort host port))
                end
            end
          else ready n
      end
  end.

(** [Start]: the body runs under [StartOnce]; the goroutines are recorded
    as launched and run as [rx], [tx] and [Start_ready] above. *)
Definition Start_body (rn : RemoteNode) : RemoteNode :=
  if IsStopped rn then rn
  else
    let rn := emit (EvGo TaskRx) rn in
    let rn := emit (EvGo TaskTx) rn in
    let rn := emit (EvGo TaskHandleMsg) rn in
    emit (EvGo TaskReady) rn.

Definition Start (rn : RemoteNode) : RemoteNode * option string :=
  (StartOnce_Do Start_body rn, None).

(** The goroutines launched so far, oldest first. *)
Definition spawned (rn : RemoteNode) : list Task :=
  omap (fun e => match e with EvGo t => Some t | _ => None end) (trace rn).

(** ** Sequences of life-cycle calls *)

Inductive Op :=
| OpStart
| OpStop (err : option string).

Definition apply_op (rn : RemoteNode) (o : Op) : RemoteNode :=
  match o with
  | OpStart => fst (Start rn)
  | OpStop err => Stop err rn
  end.

Definition run_ops (ops : list Op) (rn : RemoteNode) : RemoteNode :=
  foldl apply_op rn ops.

(** ** Concurrent callers of [Stop] *)

(** The four statements of the body of [Stop], in order. *)
Definition Stop_phases (err : option string)
  : list (RemoteNode -> RemoteNode) :=
  [ fun rn =>
      match err with
      | Some e => log LWarn ("Remote node stops because of error: " +:+ e) rn
      | None => log LInfo "Remote node stops" rn
      end;
    LifeCycle_Stop;
    fun rn => match conn rn with
              | Some _ => emit EvConnClose rn
              | None => rn
              end;
    fun rn => rangeMiddleware CatDisconnected 0
                (remoteNodeDisconnected (middleware (LocalNode rn))) rn ].

Definition run_phases (fs : list (RemoteNode -> RemoteNode))
    (rn : RemoteNode) : RemoteNode :=
  foldl (fun rn f => f rn) rn fs.

(** Where a caller of [Stop] is: about to test the flag, waiting for the
    lock, inside the body with [k] statements done, or returned. *)
Inductive StopPc :=
| PcCall
| PcWait
| PcBody (k : nat)
| PcDone.

Record Concurrent := mkConcurrent {
  c_node : RemoteNode;
  c_locked : bool;
  c_callers : list (option string * StopPc)
}.

(** Modelled from the spec: the guard [StopOnce] is to make "repeated or
    concurrent calls execute the shutdown body exactly once".  As with Go's
    [sync.Once], a caller returns at once when the guard is done; otherwise
    it waits for the guard's lock, tests the flag again, runs the body
    (one statement per step), sets the flag and gives the lock back.
    [caller_step i] is one step of caller [i]; a caller that cannot move
    (it waits for the lock, or has returned) leaves the state as it is. *)
Definition caller_step (i : nat) (s : Concurrent) : Concurrent :=
  match c_callers s !! i with
  | None => s
  | Some (err, pc) =>
      let move pc' := <[i := (err, pc')]> (c_callers s) in
      match pc with
      | PcCall =>
          if StopOnce (c_node s)
          then mkConcurrent (c_node s) (c_locked s) (move PcDone)
          else mkConcurrent (c_node s) (c_locked s) (move PcWait)
      | PcWait =>
          if c_locked s then s
          else if StopOnce (c_node s)
          then mkConcurrent (c_node s) false (move PcDone)
          else mkConcurrent (c_node s) true (move (PcBody 0))
      | PcBody k =>
          match Stop_phases err !! k with
          | Some f => mkConcurrent (f (c_node s)) true (move (PcBody (S k)))
          | None =>
              mkConcurrent (set_StopOnce true (c_node s)) false (move PcDone)
          end
      | PcDone => s
      end
  end.

(** Callers with the causes [errs], moved by a scheduler in the order
    [schedule]. *)
Definition concurrent_Stop (errs : list (option string))
    (schedule : list nat) (rn : RemoteNode) : Concurrent :=
  foldl (fun s i => caller_step i s)
        (mkConcurrent rn false ((fun e => (e, PcCall)) <$> errs)) schedule.

Definition all_returned (s : Concurrent) : Prop :=
  Forall (fun c => snd c = PcDone) (c_callers s).

(** ** Views used in the statements *)

(** The events of a trace that are middleware calls of category [c]: index
    and verdict. *)
Definition calls (c : Category) (tr : list Event) : list (nat * bool) :=
  omap (fun e => match e with
                 | EvMiddleware c' i v =>
                     match c, c' with
                     | CatReady, CatReady
                     | CatDisconnected, CatDisconnected => Some (i, v)
                     | _, _ => None
                     end
                 | _ => None
                 end) tr.

Definition closes (tr : list Event) : nat :=
  length (omap (fun e => match e with
                         | EvConnClose => Some tt
                         | _ => None
                         end) tr).

Definition lifeCycleStops (tr : list Event) : nat :=
  length (omap (fun e => match e with
                         | EvLifeCycleStop => Some tt
                         | _ => None
                         end) tr).

(** A frame on the wire, as [tx] writes it: the length of the body in four
    big-endian bytes, then the body. *)
Definition frame (body : list byte) : list byte :=
  BigEndian_PutUint32 (uint32_of_int (len body)) ++ body.

(** What holds of concurrent callers of [Stop] on [rn] at every moment:
    nobody has entered the body yet; or exactly one caller is inside it,
    with [k] statements done; or the body has been run once, by a caller
    with cause [e], and the guard is done. *)
Definition idle (c : option string * StopPc) : Prop :=
  snd c = PcCall \/ snd c = PcWait.

Inductive conc_inv (rn : RemoteNode) (s : Concurrent) : Prop :=
| inv_fresh :
    c_node s = rn -> c_locked s = false -> Forall idle (c_callers s) ->
    conc_inv rn s
| inv_running (i : nat) (e : option string) (k : nat) :
    c_locked s = true ->
    c_callers s !! i = Some (e, PcBody k) ->
    (forall j c, j <> i -> c_callers s !! j = Some c -> idle c) ->
    c_node s = run_phases (take k (Stop_phases e)) rn ->
    conc_inv rn s
| inv_done (e : option string) :
    e ∈ fst <$> c_callers s ->
    c_node s = Stop e rn ->
    c_locked s = false ->
    Forall (fun c => idle c \/ snd c = PcDone) (c_callers s) ->
    conc_inv rn s.

(** The writes [tx] makes for a queued message: the length prefix and the
    body, or none when the message does not marshal. *)
Definition wire (msg : protobuf_Message) : list (list byte) :=
  match proto_Marshal msg with
  | Ok buf => [BigEndian_PutUint32 (uint32_of_int (len buf)); buf]
  | Err _ => []
  end.

(** The reply to a synchronous send does not come in time. *)
Definition never_in_time (arrival : option (Z * RemoteMessage)) : Prop :=
  match arrival with
  | None => True
  | Some (d, _) => replyTimeout <= d
  end.

(** No reply slot is outstanding for [msgID] at time [t]. *)
Definition slot_free (msgID : string) (t : Z) (ln : LocalNode_t) : Prop :=
  match replyChan ln !! msgID with
  | None => True
  | Some expiry => expiry <= t
  end.

(** [r] differs from [rn] at most in what the frame codec owns (the
    reassembly buffer, the inbound queue) and in trace entries that are
    neither a close of the connection nor a life-cycle stop. *)
Definition untouched_by_codec (rn r : RemoteNode) : Prop :=
  isStopped r = isStopped rn
  /\ StopOnce r = StopOnce rn
  /\ StartOnce r = StartOnce rn
  /\ conn r = conn rn
  /\ txMsgChan r = txMsgChan rn
  /\ LocalNode r = LocalNode rn
  /\ closes (trace r) = closes (trace rn)
  /\ lifeCycleStops (trace r) = lifeCycleStops (trace rn).

(** The node after [handleMsgBuf] was given a whole buffer and the
    reassembly state was reset (the end of a frame in [readBuf]). *)
Definition delivered (buf : list byte) (rn : RemoteNode) : RemoteNode :=
  set_rxBuf_len 0 (set_rxBuf_buf [] (handleMsgBuf buf rn)).

(** ** The dispatch loop *)

(** Modelled from the spec: [LocalNode.GetRxMsgChan] is declared outside
    the sources at hand.  It is to "resolve an inbound delivery queue given
    a routing-type discriminator; fails if the routing type is
    unrecognized".  [chans] are the local node's delivery queues, by routing
    type. *)
Definition GetRxMsgChan (routingType : Z)
    (chans : gmap Z (Chan RemoteMessage)) : result (Chan RemoteMessage) :=
  match chans !! routingType with
  | Some c => Ok c
  | None => Err "Unknown routing type"
  end.

(** What the loop of [handleMsg] works on: the node, the local node's
    delivery queues, and the time at which [keepAliveTimeoutTimer] fires. *)
Record Dispatch := mkDispatch {
  d_node : RemoteNode;
  d_chans : gmap Z (Chan RemoteMessage);
  d_timer : Z
}.

(** Which branch the [select] of [handleMsg] takes: a message is received
    from [rxMsgChan] after a wait of [wait] nanoseconds ([remoteMsgErr] is
    the error of [NewRemoteMessage], declared outside the sources at hand,
    if it fails), or the timer fires. *)
Inductive HmSelect :=
| HmMsg (wait : Z) (remoteMsgErr : option string)
| HmTimer.

(** One iteration of the loop of [handleMsg], past the [IsStopped] test.
    The two [continue] statements skip the reset of the timer at the end of
    the loop body. *)
Definition handleMsg_iter (s : HmSelect) (st : Dispatch) : Dispatch :=
  let rn := d_node st in
  match s with
  | HmMsg wait remoteMsgErr =>
      match chan_recv (rxMsgChan rn) with
      | None => st
      | Some (msg, q) =>
          let rn := set_now (now rn + Z.max 0 wait) (set_rxMsgChan q rn) in
          match remoteMsgErr with
          | Some e => mkDispatch (log LError e rn) (d_chans st) (d_timer st)
          | None =>
              let remoteMsg := mkRemoteMessage msg in
              match GetRxMsgChan (RoutingType msg) (d_chans st) with
              | Err e =>
                  mkDispatch (log LError e rn) (d_chans st) (d_timer st)
              | Ok msgChan =>
                  match chan_try_send msgChan remoteMsg with
                  | Some c =>
                      mkDispatch rn (<[RoutingType msg := c]> (d_chans st))
                        (now rn + keepAliveTimeout)
                  | None =>
                      mkDispatch
                        (log LWarn ("Msg chan full for routing type "
                                    +:+ pretty (RoutingType msg)
                                    +:+ ", discarding msg") rn)
                        (d_chans st) (now rn + keepAliveTimeout)
                  end
              end
          end
      end
  | HmTimer =>
      let rn := set_now (Z.max (now rn) (d_timer st)) rn in
      let rn := Stop (Some "keepalive timeout") rn in
      mkDispatch rn (d_chans st) (now rn + keepAliveTimeout)
  end.

(** [handleMsg]: the timer is created when the goroutine starts; the loop
    ends when the node is stopped. *)
Fixpoint handleMsg_loop (sels : list HmSelect) (st : Dispatch) : Dispatch :=
  if IsStopped (d_node st) then st
  else
    match sels with
    | [] => st
    | s :: sels' => handleMsg_loop sels' (handleMsg_iter s st)
    end.

Definition handleMsg (sels : list HmSelect) (rn : RemoteNode)
    (chans : gmap Z (Chan RemoteMessage)) : Dispatch :=
  handleMsg_loop sels (mkDispatch rn chans (now rn + keepAliveTimeout)).

(** ** Views used in the further statements *)

(** Where the frame codec is between two reads: it has gathered the bytes
    [h] of a length prefix (fewer than four), or it has a whole prefix and
    waits for a body of [L] bytes, none of which has come. *)
Inductive CodecState :=
| InHeader (h : list byte)
| InBody (L : Z).

Definition codec_at (s : CodecState) (rn : RemoteNode) : Prop :=
  match s with
  | InHeader h =>
      rxBuf_len rn = 0 /\ rxBuf_buf rn = h /\ (length h < 4)%nat
  | InBody L => rxBuf_len rn = L /\ 0 < L
  end.

(** [read_whole s bs ds s']: from [s], the read [bs] cuts no body in two.
    It may hold part of a length prefix, the end of a prefix, and bodies
    each whole; [ds] are the bodies in [bs], and [s'] is where the codec
    should be after it. *)
Inductive read_whole
  : CodecState -> list byte -> list (list byte) -> CodecState -> Prop :=
| rw_nothing (s : CodecState) : read_whole s [] [] s
| rw_header_part (h bs : list byte) :
    (length (h ++ bs) < 4)%nat ->
    read_whole (InHeader h) bs [] (InHeader (h ++ bs))
| rw_header_end (h bs : list byte) (L : Z) :
    h ++ bs = BigEndian_PutUint32 L -> 0 < L < 2 ^ 31 ->
    read_whole (InHeader h) bs [] (InBody L)
| rw_header_body (h h2 b rest : list byte) (ds : list (list byte))
    (s' : CodecState) :
    h ++ h2 = BigEndian_PutUint32 (len b) -> len b < 2 ^ 31 ->
    read_whole (InHeader []) rest ds s' ->
    read_whole (InHeader h) (h2 ++ b ++ rest) (b :: ds) s'
| rw_body (b rest : list byte) (ds : list (list byte)) (s' : CodecState) :
    b <> [] -> len b < 2 ^ 31 ->
    read_whole (InHeader []) rest ds s' ->
    read_whole (InBody (len b)) (b ++ rest) (b :: ds) s'.

(** A sequence of such reads. *)
Inductive reads_whole
  : CodecState -> list (list byte) -> list (list byte) -> CodecState -> Prop :=
| rws_nil (s : CodecState) : reads_whole s [] [] s
| rws_cons (s s1 s' : CodecState) (bs : list byte) (reads : list (list byte))
    (ds ds' : list (list byte)) :
    read_whole s bs ds s1 -> reads_whole s1 reads ds' s' ->
    reads_whole s (bs :: reads) (ds ++ ds') s'.

(** The bytes of the frame in progress that the codec has taken in. *)
Definition pending (s : CodecState) : list byte :=
  match s with
  | InHeader h => h
  | InBody L => BigEndian_PutUint32 L
  end.

(** The reassembly state of a node between two reads, when no length has
    overflowed: a prefix in progress or a positive count of body bytes to
    come. *)
Definition codec_inv (rn : RemoteNode) : Prop :=
  (rxBuf_len rn = 0 /\ (length (rxBuf_buf rn) < 4)%nat) \/ 0 < rxBuf_len rn.

(** A queue holds no more than its capacity. *)
Definition chan_within {A : Type} (c : Chan A) : Prop :=
  len (chan_buf c) <= chan_cap c.

(** A call of [readBuf] went well: it returned no error and left the
    reassembly state in order; it did not panic. *)
Definition went_well (o : outcome (RemoteNode * option string)) : Prop :=
  match o with
  | Returns (r, e) => e = None /\ codec_inv r
  | Panics _ => False
  | OutOfFuel => True
  end.


(** Values offered to a queue one after another by non-blocking sends,
    each dropped when the queue is full. *)
Definition chan_offer {A : Type} (c : Chan A) (xs : list A) : Chan A :=
  fold_left (fun c x => default c (chan_try_send c x)) xs c.

(** The values among results that are no errors. *)
Definition oks {A : Type} (rs : list (result A)) : list A :=
  omap (fun r => match r with Ok a => Some a | Err _ => None end) rs.

(** [r] differs from [rn] at most in the outbound queue, the reply
    registry and the clock: what a send and the wait for its reply may
    change. *)
Definition sent_only (rn r : RemoteNode) : Prop :=
  Node_Node r = Node_Node rn
  /\ StartOnce r = StartOnce rn
  /\ StopOnce r = StopOnce rn
  /\ isStopped r = isStopped rn
  /\ middleware (LocalNode r) = middleware (LocalNode rn)
  /\ IsOutbound r = IsOutbound rn
  /\ conn r = conn rn
  /\ rxBuf_buf r = rxBuf_buf rn
  /\ rxBuf_len r = rxBuf_len rn
  /\ rxMsgChan r = rxMsgChan rn
  /\ world r = world rn
  /\ trace r = trace rn.

(** Between [rn] and [r], [handleMsgBuf] was given the buffers [ds], and
    the inbound queue was offered the messages of those that unmarshal,
    in that order. *)
Definition queued_as_handled (rn r : RemoteNode) : Prop :=
  exists ds,
    handled r = handled rn ++ ds
    /\ rxMsgChan r
       = chan_offer (rxMsgChan rn) (oks (proto_Unmarshal <$> ds)).
(** * Properties *)

(** ** What the middleware loop touches *)

Lemma rangeMiddleware_shape (c : Category)
    (fs : list (Callback RemoteNodeInfo)) :
  forall (i : nat) (rn : RemoteNode),
  exists (w : W) (vs : list bool),
    rangeMiddleware c i fs rn
    = set_trace (trace rn ++ imap (fun j v => EvMiddleware c (i + j) v) vs)
        (set_world w rn)
    /\ (length vs <= length fs)%nat
    /\ (forall j, vs !! j = Some false -> S j = length vs)
    /\ ((length vs < length fs)%nat -> last vs = Some false).
Proof.
  induction fs as [|f fs IH]; intros i rn.
  - exists (world rn), []. simpl. rewrite app_nil_r.
    split; [by destruct rn|]. split; [lia|]. split; [done|].
    simpl; lia.
  - simpl. destruct (f (info rn) (world rn)) as [ok w] eqn:Hf.
    destruct ok.
    + destruct (IH (S i) (emit (EvMiddleware c i true) (set_world w rn)))
        as (w' & vs & Heq & Hlen & Hveto & Hshort).
      exists w', (true :: vs). rewrite Heq. simpl.
      split.
      { unfold set_trace, set_world, emit; simpl. f_equal.
        rewrite <- app_assoc. simpl. f_equal. f_equal.
        - f_equal. lia.
        - apply imap_ext. intros j v _. simpl. f_equal. lia. }
      split; [lia|]. split.
      { intros [|j] Hj; simpl in Hj; [discriminate|].
        f_equal. by apply Hveto. }
      intros Hlt. rewrite last_cons.
      rewrite Hshort by lia. done.
    + exists w, [false]. simpl. split.
      { unfold set_trace, set_world, emit; simpl. rewrite Nat.add_0_r. done. }
      split; [lia|]. split.
      { intros [|[|j]] Hj; simpl in Hj; try discriminate; done. }
      done.
Qed.

(** The loop changes the middleware's world and the trace, nothing else. *)
Lemma rangeMiddleware_frame (c : Category) (fs : list (Callback RemoteNodeInfo))
    (i : nat) (rn : RemoteNode) :
  rangeMiddleware c i fs rn
  = set_trace (trace (rangeMiddleware c i fs rn))
      (set_world (world (rangeMiddleware c i fs rn)) rn).
Proof.
  destruct (rangeMiddleware_shape c fs i rn) as (w & vs & -> & _).
  by destruct rn.
Qed.

(** The loop neither reads nor writes the local node (where the lists of
    the other categories live). *)
Lemma rangeMiddleware_LocalNode (c : Category)
    (fs : list (Callback RemoteNodeInfo)) :
  forall (i : nat) (rn : RemoteNode) (ln : LocalNode_t),
    rangeMiddleware c i fs (set_LocalNode ln rn)
    = set_LocalNode ln (rangeMiddleware c i fs rn).
Proof.
  induction fs as [|f fs IH]; intros i rn ln; simpl; [done|].
  change (info (set_LocalNode ln rn)) with (info rn).
  destruct (f (info rn) (world rn)) as [[] w]; [|done].
  apply (IH (S i) (emit (EvMiddleware c i true) (set_world w rn)) ln).
Qed.

(** When every middleware of [pre] lets the dispatch proceed and the next
    one vetoes, the dispatch ends there, whatever is registered behind. *)
Lemma rangeMiddleware_veto_cut (c : Category)
    (pre : list (Callback RemoteNodeInfo)) :
  forall (i : nat) (rn : RemoteNode) (f : Callback RemoteNodeInfo)
         (post : list (Callback RemoteNodeInfo)),
    trace (rangeMiddleware c i pre rn)
    = trace rn ++ imap (fun j _ => EvMiddleware c (i + j) true) pre ->
    fst (f (info rn) (world (rangeMiddleware c i pre rn))) = false ->
    rangeMiddleware c i (pre ++ f :: post) rn
    = rangeMiddleware c i (pre ++ [f]) rn
    /\ trace (rangeMiddleware c i (pre ++ f :: post) rn)
       = trace rn ++ imap (fun j _ => EvMiddleware c (i + j) true) pre
                  ++ [EvMiddleware c (i + length pre) false].
Proof.
  induction pre as [|g pre IH]; intros i rn f post Htr Hf; simpl in *.
  - destruct (f (info rn) (world rn)) as [ok w]; simpl in Hf; subst ok.
    split; [done|]. simpl. by rewrite Nat.add_0_r.
  - destruct (g (info rn) (world rn)) as [[] w].
    + set (rn1 := emit (EvMiddleware c i true) (set_world w rn)) in *.
      destruct (IH (S i) rn1 f post) as [Heq Htr'].
      * rewrite Htr. unfold rn1; simpl. rewrite <- app_assoc. simpl.
        rewrite Nat.add_0_r. do 2 f_equal.
        apply imap_ext. intros j v _. simpl. f_equal. lia.
      * exact Hf.
      * split; [exact Heq|]. rewrite Htr'. unfold rn1; simpl.
        rewrite <- app_assoc. simpl. rewrite Nat.add_0_r. do 2 f_equal.
        f_equal; [|do 2 f_equal; lia].
        apply imap_ext. intros j v _. simpl. f_equal. lia.
    + simpl in Htr. apply app_inv_head in Htr.
      rewrite Nat.add_0_r in Htr. discriminate.
Qed.

(** ** [Stop] *)

Lemma Stop_done (err : option string) (rn : RemoteNode) :
  StopOnce rn = true -> Stop err rn = rn.
Proof. intros H. unfold Stop, StopOnce_Do. by rewrite H. Qed.

Lemma Stop_first (err : option string) (rn : RemoteNode) :
  StopOnce rn = false -> Stop err rn = set_StopOnce true (Stop_body err rn).
Proof. intros H. unfold Stop, StopOnce_Do. by rewrite H. Qed.

Lemma StopOnce_Stop (err : option string) (rn : RemoteNode) :
  StopOnce (Stop err rn) = true.
Proof.
  unfold Stop, StopOnce_Do. destruct (StopOnce rn) eqn:H; [exact H|done].
Qed.

Lemma Stop_Stop (e1 e2 : option string) (rn : RemoteNode) :
  Stop e2 (Stop e1 rn) = Stop e1 rn.
Proof. apply Stop_done, StopOnce_Stop. Qed.

Lemma Stop_many (err : option string) (errs : list (option string))
    (rn : RemoteNode) :
  foldl (fun rn e => Stop e rn) (Stop err rn) errs = Stop err rn.
Proof.
  induction errs as [|e errs IH]; simpl; [done|]. by rewrite Stop_Stop.
Qed.

Lemma Stop_body_phases (err : option string) (rn : RemoteNode) :
  Stop_body err rn = run_phases (Stop_phases err) rn.
Proof. reflexivity. Qed.

Lemma omap_none {A B : Type} (f : A -> option B) (l : list A) :
  (forall x, x ∈ l -> f x = None) -> omap f l = [].
Proof.
  induction l as [|a l IH]; intros H; simpl; [done|].
  rewrite (H a) by apply list_elem_of_here.
  apply IH. intros x Hx. apply H. by apply list_elem_of_further.
Qed.

Lemma calls_imap (c : Category) (i : nat) (vs : list bool) :
  calls c (imap (fun j v => EvMiddleware c (i + j) v) vs)
  = imap (fun j v => ((i + j)%nat, v)) vs.
Proof.
  revert i. induction vs as [|v vs IH]; intros i; simpl; [done|].
  unfold calls in *. simpl.
  replace (imap ((fun j v0 => EvMiddleware c (i + j) v0) ∘ S) vs)
    with (imap (fun j v0 => EvMiddleware c (S i + j) v0) vs)
    by (apply imap_ext; intros j x _; simpl; f_equal; lia).
  replace (imap ((fun j v0 => ((i + j)%nat, v0)) ∘ S) vs)
    with (imap (fun j v0 => ((S i + j)%nat, v0)) vs)
    by (apply imap_ext; intros j x _; simpl; f_equal; lia).
  rewrite <- IH. by destruct c.
Qed.

Lemma calls_other (c c' : Category) (i : nat) (vs : list bool) :
  c <> c' -> calls c' (imap (fun j v => EvMiddleware c (i + j) v) vs) = [].
Proof.
  intros Hc. apply omap_none. intros x Hx.
  apply elem_of_lookup_imap in Hx as (j & v & -> & _).
  by destruct c, c'.
Qed.

(** What the first [Stop] does, event by event. *)
Lemma Stop_first_trace (err : option string) (rn : RemoteNode) :
  StopOnce rn = false ->
  exists (w : W) (vs : list bool),
    Stop err rn
    = set_StopOnce true
        (set_trace
           (trace rn
            ++ [EvLog (if err is Some _ then LWarn else LInfo)
                  (match err with
                   | Some e => "Remote node stops because of error: " +:+ e
                   | None => "Remote node stops"
                   end);
                EvLifeCycleStop]
            ++ (if conn rn is Some _ then [EvConnClose] else [])
            ++ imap (fun j v => EvMiddleware CatDisconnected j v) vs)
           (set_world w (set_isStopped true rn)))
    /\ (length vs
        <= length (remoteNodeDisconnected (middleware (LocalNode rn))))%nat
    /\ (forall j, vs !! j = Some false -> S j = length vs)
    /\ ((length vs
         < length (remoteNodeDisconnected (middleware (LocalNode rn))))%nat
        -> last vs = Some false).
Proof.
  intros H. rewrite Stop_first by done. unfold Stop_body.
  destruct rn as [? ? ? ? ln ? cn ? ? ? ? ? ? tr]; simpl in *.
  match goal with
  | |- context [rangeMiddleware ?c ?i ?fs ?r] =>
      destruct (rangeMiddleware_shape c fs i r) as (w & vs & -> & Hvs)
  end.
  exists w, vs. split; [|destruct err, cn; exact Hvs].
  destruct cn, err; simpl;
    unfold set_StopOnce, set_trace, set_world, set_isStopped; simpl;
    rewrite <- ?app_assoc; reflexivity.
Qed.

(** ** Concurrent callers of [Stop] *)

Lemma rangeMiddleware_StopOnce (c : Category)
    (fs : list (Callback RemoteNodeInfo)) (i : nat) (rn : RemoteNode) :
  StopOnce (rangeMiddleware c i fs rn) = StopOnce rn.
Proof. by rewrite rangeMiddleware_frame. Qed.

Lemma phases_StopOnce (e : option string) (k : nat) (rn : RemoteNode) :
  StopOnce (run_phases (take k (Stop_phases e)) rn) = StopOnce rn.
Proof.
  do 4 (destruct k as [|k];
        [unfold run_phases; destruct e, rn as [? ? ? ? ? ? [] ? ? ? ? ? ? ?];
         reflexivity |]).
  rewrite take_ge by (simpl; lia).
  unfold run_phases; simpl. rewrite rangeMiddleware_StopOnce.
  destruct e, rn as [? ? ? ? ? ? [] ? ? ? ? ? ? ?]; reflexivity.
Qed.

Lemma run_phases_snoc (fs : list (RemoteNode -> RemoteNode)) (k : nat)
    (f : RemoteNode -> RemoteNode) (rn : RemoteNode) :
  fs !! k = Some f ->
  run_phases (take (S k) fs) rn = f (run_phases (take k fs) rn).
Proof.
  intros H. rewrite (take_S_r _ _ _ H). unfold run_phases.
  by rewrite foldl_app.
Qed.

Lemma caller_step_causes (i : nat) (s : Concurrent) :
  fst <$> c_callers (caller_step i s) = fst <$> c_callers s.
Proof.
  unfold caller_step.
  destruct (c_callers s !! i) as [[e pc]|] eqn:Hi; [|done].
  assert (Hid : forall pc', fst <$> <[i:=(e, pc')]> (c_callers s)
                            = fst <$> c_callers s).
  { intros pc'. rewrite list_fmap_insert. simpl.
    apply list_insert_id. by rewrite list_lookup_fmap, Hi. }
  destruct pc; simpl;
    repeat match goal with
           | |- context [if ?b then _ else _] => destruct b
           | |- context [match ?o with Some _ => _ | None => _ end] =>
               destruct o
           end; simpl; auto.
Qed.

Lemma caller_step_inv (rn : RemoteNode) (i : nat) (s : Concurrent) :
  StopOnce rn = false -> conc_inv rn s -> conc_inv rn (caller_step i s).
Proof.
  intros Hrn Hinv. unfold caller_step.
  destruct (c_callers s !! i) as [[e pc]|] eqn:Hi; [|exact Hinv].
  destruct Hinv as [Hnode Hlock Hidle | i0 e0 k Hlock Hi0 Hidle Hnode
                   | e0 He0 Hnode Hlock Hall].
  - (* nobody in the body yet *)
    rewrite Hnode, Hlock, Hrn.
    pose proof (Forall_lookup_1 _ _ _ _ Hidle Hi) as Hpc.
    destruct Hpc as [Hpc | Hpc]; simpl in Hpc; subst pc.
    + apply inv_fresh; cbn [c_node c_locked c_callers]; [done | done |].
      apply Forall_insert; [exact Hidle | by right].
    + apply (inv_running _ _ i e 0%nat); cbn [c_node c_locked c_callers];
        [done | | | done].
      * apply list_lookup_insert_eq. by eapply lookup_lt_Some.
      * intros j c Hj Hc. rewrite list_lookup_insert_ne in Hc by done.
        eapply Forall_lookup_1; [exact Hidle | exact Hc].
  - (* one caller is in the body *)
    assert (Hdone : StopOnce (c_node s) = false)
      by (rewrite Hnode, phases_StopOnce; exact Hrn).
    destruct (decide (i = i0)) as [-> | Hne].
    + rewrite Hi0 in Hi. injection Hi as <- <-.
      destruct (Stop_phases e0 !! k) as [f|] eqn:Hk.
      * apply (inv_running _ _ i0 e0 (S k));
          cbn [c_node c_locked c_callers]; [done | | | ].
        -- apply list_lookup_insert_eq. by eapply lookup_lt_Some.
        -- intros j c Hj Hc. rewrite list_lookup_insert_ne in Hc by done.
           by eapply Hidle.
        -- rewrite (run_phases_snoc _ _ _ _ Hk). by rewrite Hnode.
      * apply (inv_done _ _ e0); cbn [c_node c_locked c_callers].
        -- rewrite list_fmap_insert; simpl.
           rewrite list_insert_id by (by rewrite list_lookup_fmap, Hi0).
           apply list_elem_of_lookup. exists i0.
           by rewrite list_lookup_fmap, Hi0.
        -- rewrite Hnode, take_ge by (by apply lookup_ge_None).
           by rewrite Stop_first, Stop_body_phases.
        -- done.
        -- apply Forall_lookup_2. intros j c Hc.
           destruct (decide (j = i0)) as [-> | Hj].
           ++ rewrite list_lookup_insert_eq in Hc
                by (by eapply lookup_lt_Some).
              injection Hc as <-. by right.
           ++ rewrite list_lookup_insert_ne in Hc by done.
              left. by eapply Hidle.
    + assert (Hpc : idle (e, pc)) by (by eapply Hidle).
      rewrite Hlock, Hdone.
      destruct Hpc as [Hpc | Hpc]; simpl in Hpc; subst pc.
      * apply (inv_running _ _ i0 e0 k); cbn [c_node c_locked c_callers];
          [done | | | done].
        -- by rewrite list_lookup_insert_ne.
        -- intros j c Hj Hc.
           destruct (decide (j = i)) as [-> | Hji].
           ++ rewrite list_lookup_insert_eq in Hc
                by (by eapply lookup_lt_Some).
              injection Hc as <-. by right.
           ++ rewrite list_lookup_insert_ne in Hc by done.
              by eapply Hidle.
      * by apply (inv_running _ _ i0 e0 k).
  - (* the body has been run *)
    assert (Hdone : StopOnce (c_node s) = true)
      by (rewrite Hnode; apply StopOnce_Stop).
    pose proof (Forall_lookup_1 _ _ _ _ Hall Hi) as Hpc.
    assert (Hkeep : forall l,
               l = c_callers s \/ l = <[i:=(e, PcDone)]> (c_callers s) ->
               e0 ∈ fst <$> l
               /\ Forall (fun c => idle c \/ snd c = PcDone) l).
    { intros l [-> | ->]; [done|]. split.
      - rewrite list_fmap_insert; simpl.
        by rewrite list_insert_id by (by rewrite list_lookup_fmap, Hi).
      - apply Forall_insert; [exact Hall | by right]. }
    rewrite Hlock, Hdone.
    destruct Hpc as [[Hpc | Hpc] | Hpc]; simpl in Hpc; subst pc.
    + destruct (Hkeep _ (or_intror eq_refl)). by apply (inv_done _ _ e0).
    + destruct (Hkeep _ (or_intror eq_refl)). by apply (inv_done _ _ e0).
    + by apply (inv_done _ _ e0).
Qed.

Lemma concurrent_Stop_inv (rn : RemoteNode) (errs : list (option string))
    (schedule : list nat) :
  StopOnce rn = false ->
  conc_inv rn (concurrent_Stop errs schedule rn)
  /\ fst <$> c_callers (concurrent_Stop errs schedule rn) = errs.
Proof.
  intros Hrn. unfold concurrent_Stop.
  induction schedule as [|i schedule IH] using rev_ind.
  - simpl. split.
    + apply inv_fresh; simpl; [done | done |].
      apply Forall_fmap, Forall_true. intros e. by left.
    + rewrite <- list_fmap_compose. apply list_fmap_id.
  - rewrite foldl_app. simpl. destruct IH as [IH1 IH2]. split.
    + by apply caller_step_inv.
    + by rewrite caller_step_causes.
Qed.

(** ** Counting the effects of [Stop] *)

Lemma closes_app (a b : list Event) :
  closes (a ++ b) = (closes a + closes b)%nat.
Proof. unfold closes. by rewrite omap_app, length_app. Qed.

Lemma lifeCycleStops_app (a b : list Event) :
  lifeCycleStops (a ++ b) = (lifeCycleStops a + lifeCycleStops b)%nat.
Proof. unfold lifeCycleStops. by rewrite omap_app, length_app. Qed.

Lemma calls_app (c : Category) (a b : list Event) :
  calls c (a ++ b) = calls c a ++ calls c b.
Proof. unfold calls. by rewrite omap_app. Qed.

Lemma closes_middleware (c : Category) (i : nat) (vs : list bool) :
  closes (imap (fun j v => EvMiddleware c (i + j) v) vs) = 0%nat.
Proof.
  unfold closes. rewrite omap_none; [done|].
  intros x Hx. by apply elem_of_lookup_imap in Hx as (j & v & -> & _).
Qed.

Lemma lifeCycleStops_middleware (c : Category) (i : nat) (vs : list bool) :
  lifeCycleStops (imap (fun j v => EvMiddleware c (i + j) v) vs) = 0%nat.
Proof.
  unfold lifeCycleStops. rewrite omap_none; [done|].
  intros x Hx. by apply elem_of_lookup_imap in Hx as (j & v & -> & _).
Qed.

(** C3. [Stop] is idempotent.  After a first call, any further calls,
    with any causes, leave the node as it is.  The first call on a node
    whose guard is not done marks the life cycle stopped once, closes the
    connection once and dispatches the disconnected middleware once (each
    registered one at most once, in order).  For concurrent callers under
    any schedule, the node is at every moment inside at most one run of the
    body, and once all callers have returned it is the node a single call
    of [Stop], with the cause of one of them, produces. *)
Theorem Stop_runs_shutdown_body_once (rn : RemoteNode) (err : option string) :
  (forall errs : list (option string),
      foldl (fun rn e => Stop e rn) (Stop err rn) errs = Stop err rn)
  /\ (StopOnce rn = false ->
      isStopped (Stop err rn) = true
      /\ lifeCycleStops (trace (Stop err rn)) = S (lifeCycleStops (trace rn))
      /\ closes (trace (Stop err rn))
         = (closes (trace rn) + (if conn rn is Some _ then 1 else 0))%nat
      /\ exists vs : list bool,
          calls CatDisconnected (trace (Stop err rn))
          = calls CatDisconnected (trace rn) ++ imap (fun j v => (j, v)) vs
          /\ (length vs
              <= length (remoteNodeDisconnected
                           (middleware (LocalNode rn))))%nat)
  /\ (StopOnce rn = false ->
      forall (errs : list (option string)) (schedule : list nat),
        let s := concurrent_Stop (err :: errs) schedule rn in
        (exists e k,
            e ∈ err :: errs
            /\ (c_node s = run_phases (take k (Stop_phases e)) rn
                \/ c_node s = Stop e rn))
        /\ (all_returned s ->
            exists e, e ∈ err :: errs /\ c_node s = Stop e rn)).
Proof.
  split; [intros errs; apply Stop_many|]. split.
  - intros Hrn.
    destruct (Stop_first_trace err rn Hrn) as (w & vs & -> & Hlen & _).
    cbn [isStopped trace set_StopOnce set_trace set_world set_isStopped].
    split; [done|].
    rewrite !lifeCycleStops_app, !closes_app, !calls_app.
    rewrite (lifeCycleStops_middleware CatDisconnected 0).
    rewrite (closes_middleware CatDisconnected 0).
    rewrite (calls_imap CatDisconnected 0).
    split; [|split].
    + destruct (conn rn); unfold lifeCycleStops; simpl; lia.
    + destruct (conn rn); unfold closes; simpl; lia.
    + exists vs. split; [|exact Hlen].
      destruct (conn rn); unfold calls; simpl; by rewrite ?app_nil_r.
  - intros Hrn errs schedule s.
    destruct (concurrent_Stop_inv rn (err :: errs) schedule Hrn)
      as [Hinv Hcauses].
    fold s in Hinv, Hcauses.
    assert (Hin : forall i e pc,
               c_callers s !! i = Some (e, pc) -> e ∈ err :: errs).
    { intros i e pc Hi. rewrite <- Hcauses.
      apply list_elem_of_lookup. exists i.
      by rewrite list_lookup_fmap, Hi. }
    destruct Hinv as [Hnode Hlock Hidle | i e k Hlock Hi Hidle Hnode
                     | e He Hnode Hlock Hall].
    + split.
      * exists err, 0%nat. split; [apply list_elem_of_here|]. by left.
      * intros Hret. exfalso. unfold all_returned in Hret.
        assert (Hlen : length (c_callers s) = S (length errs))
          by (rewrite <- (length_fmap fst), Hcauses; done).
        destruct (c_callers s) as [|c cs]; [discriminate|].
        apply Forall_cons in Hret as [Hc _].
        apply Forall_cons in Hidle as [[Hc' | Hc'] _]; congruence.
    + split.
      * exists e, k. split; [by eapply Hin|]. by left.
      * intros Hret. exfalso. unfold all_returned in Hret.
        pose proof (Forall_lookup_1 _ _ _ _ Hret Hi) as Hc.
        discriminate.
    + rewrite Hcauses in He. split.
      * exists e, 0%nat. split; [exact He|]. by right.
      * intros _. by exists e.
Qed.

(** ** The dispatch of middleware *)

(** How the goroutine launched by [Start] can end when it returns: the
    node was stopped with a cause, or a node record was set and the ready
    middleware dispatched. *)
Lemma Start_ready_cases (newMsg : result protobuf_Message)
    (arrival : option (Z * RemoteMessage)) (rn r : RemoteNode) :
  Start_ready newMsg arrival rn = Returns r ->
  let rn1 := fst (GetNode newMsg arrival rn) in
  (exists cause, r = Stop (Some cause) rn1)
  \/ (exists n,
        r = rangeMiddleware CatReady 0
              (remoteNodeReady (middleware (LocalNode rn1)))
              (set_Node_Node (Some n) rn1)).
Proof.
  unfold Start_ready.
  destruct (GetNode newMsg arrival rn) as [rn1 [[n|]|e]]; simpl;
    [| discriminate | intros [= <-]; left; eauto].
  destruct (net_SplitHostPort (Addr n)) as [[host port]|e];
    [| intros [= <-]; left; eauto].
  destruct (String.eqb port ""); [intros [= <-]; left; eauto|].
  destruct (String.eqb host ""); [| intros [= <-]; right; eauto].
  destruct (conn rn1) as [cn|]; [|discriminate].
  destruct (net_SplitHostPort (conn_RemoteAddr cn)) as [[host' port']|e];
    intros [= <-]; [right | left]; eauto.
Qed.

(** C6. A dispatch calls the registered middleware in registration order
    (indices [0], [1], ... in the trace, each at most once); a verdict
    [false] is always the last call of the dispatch, and the dispatch stops
    before the end of the list only on such a veto.  When the middleware
    before [f] all let the dispatch proceed and [f] vetoes, nothing
    registered behind [f] runs: the outcome is that of the list cut after
    [f].  A dispatch of one category calls no middleware of the other,
    and neither reads nor changes the local node's store.  [Stop]
    dispatches the disconnected list this way, and the goroutine of
    [Start] the ready list. *)
Theorem dispatch_in_order_until_first_veto (c : Category)
    (fs : list (Callback RemoteNodeInfo)) (rn : RemoteNode) :
  (exists vs : list bool,
      trace (rangeMiddleware c 0 fs rn)
      = trace rn ++ imap (fun j v => EvMiddleware c j v) vs
      /\ (length vs <= length fs)%nat
      /\ (forall j, vs !! j = Some false -> S j = length vs)
      /\ ((length vs < length fs)%nat -> last vs = Some false))
  /\ (forall pre f post,
        fs = pre ++ f :: post ->
        trace (rangeMiddleware c 0 pre rn)
        = trace rn ++ imap (fun j _ => EvMiddleware c j true) pre ->
        fst (f (info rn) (world (rangeMiddleware c 0 pre rn))) = false ->
        rangeMiddleware c 0 fs rn = rangeMiddleware c 0 (pre ++ [f]) rn
        /\ trace (rangeMiddleware c 0 fs rn)
           = trace rn ++ imap (fun j _ => EvMiddleware c j true) pre
                      ++ [EvMiddleware c (length pre) false])
  /\ (forall c', c' <> c ->
        calls c' (trace (rangeMiddleware c 0 fs rn)) = calls c' (trace rn))
  /\ LocalNode (rangeMiddleware c 0 fs rn) = LocalNode rn
  /\ (forall ln,
        rangeMiddleware c 0 fs (set_LocalNode ln rn)
        = set_LocalNode ln (rangeMiddleware c 0 fs rn))
  /\ (forall err,
        Stop_body err rn
        = rangeMiddleware CatDisconnected 0
            (remoteNodeDisconnected (middleware (LocalNode rn)))
            (run_phases (take 3 (Stop_phases err)) rn))
  /\ (forall newMsg arrival r,
        Start_ready newMsg arrival rn = Returns r ->
        let rn1 := fst (GetNode newMsg arrival rn) in
        (exists cause, r = Stop (Some cause) rn1)
        \/ (exists n,
              r = rangeMiddleware CatReady 0
                    (remoteNodeReady (middleware (LocalNode rn1)))
                    (set_Node_Node (Some n) rn1))).
Proof.
  split.
  { destruct (rangeMiddleware_shape c fs 0 rn) as (w & vs & -> & Hvs).
    exists vs. split; [reflexivity | exact Hvs]. }
  split.
  { intros pre f post -> Htr Hf.
    exact (rangeMiddleware_veto_cut c pre 0 rn f post Htr Hf). }
  split.
  { intros c' Hc.
    destruct (rangeMiddleware_shape c fs 0 rn) as (w & vs & -> & _).
    cbn [trace set_trace]. rewrite calls_app.
    rewrite (calls_other c c' 0) by done. by rewrite app_nil_r. }
  split; [by rewrite rangeMiddleware_frame|].
  split; [intros ln; apply rangeMiddleware_LocalNode|].
  split.
  { intros err. unfold Stop_body, run_phases.
    destruct err, rn as [? ? ? ? ? ? [] ? ? ? ? ? ? ?]; reflexivity. }
  intros newMsg arrival r. apply Start_ready_cases.
Qed.

(** ** [Start] *)

Lemma Start_again (rn : RemoteNode) :
  StartOnce rn = true -> fst (Start rn) = rn.
Proof. intros H. unfold Start, StartOnce_Do; simpl. by rewrite H. Qed.

Lemma StartOnce_Start (rn : RemoteNode) : StartOnce (fst (Start rn)) = true.
Proof.
  unfold Start, StartOnce_Do; simpl.
  destruct (StartOnce rn) eqn:H; [exact H|done].
Qed.

Lemma Start_Start (rn : RemoteNode) :
  fst (Start (fst (Start rn))) = fst (Start rn).
Proof. apply Start_again, StartOnce_Start. Qed.

Lemma Start_first (rn : RemoteNode) :
  StartOnce rn = false -> isStopped rn = false ->
  fst (Start rn)
  = set_StartOnce true
      (set_trace (trace rn ++ [EvGo TaskRx; EvGo TaskTx; EvGo TaskHandleMsg;
                               EvGo TaskReady]) rn).
Proof.
  intros H1 H2. unfold Start, StartOnce_Do, Start_body, IsStopped; simpl.
  rewrite H1, H2. unfold emit, set_StartOnce, set_trace; simpl.
  by rewrite <- !app_assoc.
Qed.

Lemma Start_stopped (rn : RemoteNode) :
  isStopped rn = true -> trace (fst (Start rn)) = trace rn.
Proof.
  intros H. unfold Start, StartOnce_Do, Start_body, IsStopped; simpl.
  rewrite H. by destruct (StartOnce rn).
Qed.

Lemma Start_keeps (rn : RemoteNode) :
  isStopped (fst (Start rn)) = isStopped rn
  /\ StopOnce (fst (Start rn)) = StopOnce rn.
Proof.
  unfold Start, StartOnce_Do, Start_body, IsStopped; simpl.
  by destruct rn as [? [] ? [] ? ? ? ? ? ? ? ? ? ?].
Qed.

Lemma Stop_keeps (err : option string) (rn : RemoteNode) :
  spawned (Stop err rn) = spawned rn
  /\ StartOnce (Stop err rn) = StartOnce rn
  /\ (isStopped rn = true -> isStopped (Stop err rn) = true)
  /\ (StopOnce rn = false -> isStopped (Stop err rn) = true).
Proof.
  destruct (StopOnce rn) eqn:Hrn.
  - rewrite Stop_done by done. by repeat split.
  - destruct (Stop_first_trace err rn Hrn) as (w & vs & -> & _).
    unfold spawned.
    cbn [isStopped StartOnce trace
         set_StopOnce set_trace set_world set_isStopped].
    split; [|done]. rewrite !omap_app.
    rewrite (omap_none _ (imap _ vs)).
    + destruct (conn rn); simpl; by rewrite !app_nil_r.
    + intros x Hx.
      by apply elem_of_lookup_imap in Hx as (j & v & -> & _).
Qed.

Lemma run_ops_started (ops : list Op) :
  forall rn, StartOnce rn = true -> spawned (run_ops ops rn) = spawned rn.
Proof.
  unfold run_ops.
  induction ops as [|o ops IH]; intros rn H; [done|].
  change (foldl apply_op rn (o :: ops))
    with (foldl apply_op (apply_op rn o) ops).
  destruct o as [|err]; cbn [apply_op].
  - rewrite Start_again by done. by apply IH.
  - destruct (Stop_keeps err rn) as (Hs & Hst & _).
    rewrite IH by (by rewrite Hst). exact Hs.
Qed.

Lemma run_ops_stopped (ops : list Op) :
  forall rn, isStopped rn = true -> spawned (run_ops ops rn) = spawned rn.
Proof.
  unfold run_ops.
  induction ops as [|o ops IH]; intros rn H; [done|].
  change (foldl apply_op rn (o :: ops))
    with (foldl apply_op (apply_op rn o) ops).
  destruct o as [|err]; cbn [apply_op].
  - rewrite IH by (by rewrite (proj1 (Start_keeps rn))).
    unfold spawned. by rewrite Start_stopped.
  - destruct (Stop_keeps err rn) as (Hs & _ & Hst & _).
    rewrite IH by (by apply Hst). exact Hs.
Qed.

(** C7. The first [Start] on a node that is not stopped launches the
    receive, transmit and dispatch loops and the address-resolution task;
    a [Start] after a [Start] changes nothing at all; a [Start] after a
    [Stop] launches nothing.  Over any sequence of [Start] and [Stop] calls
    on a new node, the four goroutines are launched exactly when the first
    call is a [Start], and never again. *)
Theorem Start_launches_once_and_not_after_Stop (rn : RemoteNode) :
  (StartOnce rn = false -> isStopped rn = false ->
   spawned (fst (Start rn))
   = spawned rn ++ [TaskRx; TaskTx; TaskHandleMsg; TaskReady])
  /\ fst (Start (fst (Start rn))) = fst (Start rn)
  /\ (forall err,
        (StopOnce rn = true -> isStopped rn = true) ->
        spawned (fst (Start (Stop err rn))) = spawned rn)
  /\ (forall ops ln c isOutbound t w,
        spawned (run_ops ops (fresh ln c isOutbound t w))
        = match ops with
          | OpStart :: _ => [TaskRx; TaskTx; TaskHandleMsg; TaskReady]
          | _ => []
          end).
Proof.
  split.
  { intros H1 H2. rewrite Start_first by done.
    unfold spawned; cbn [trace set_StartOnce set_trace].
    by rewrite omap_app. }
  split; [apply Start_Start|]. split.
  { intros err Hwf. destruct (Stop_keeps err rn) as (Hs & _ & Hst1 & Hst2).
    unfold spawned in *. rewrite Start_stopped; [exact Hs|].
    destruct (StopOnce rn); [apply Hst1, Hwf; done | by apply Hst2]. }
  intros [|[|err] ops] ln c isOutbound t w; [done | |].
  - change (run_ops (OpStart :: ops) ?r) with (run_ops ops (fst (Start r))).
    rewrite run_ops_started by apply StartOnce_Start. done.
  - change (run_ops (OpStop err :: ops) ?r) with (run_ops ops (Stop err r)).
    destruct (Stop_keeps err (fresh ln c isOutbound t w)) as (Hs & _ & _ & H).
    rewrite run_ops_stopped by (by apply H). by rewrite Hs.
Qed.


(** ** Sending *)

Lemma chan_try_send_full {A : Type} (c : Chan A) (x : A) :
  chan_full c -> chan_try_send c x = None.
Proof.
  unfold chan_full, chan_try_send. intros H.
  destruct (Z.ltb_spec (Z.of_nat (length (chan_buf c))) (chan_cap c));
    [lia|done].
Qed.

Lemma chan_try_send_room {A : Type} (c : Chan A) (x : A) :
  ~ chan_full c ->
  chan_try_send c x = Some (mkChan (chan_cap c) (chan_buf c ++ [x])).
Proof.
  unfold chan_full, chan_try_send. intros H.
  destruct (Z.ltb_spec (Z.of_nat (length (chan_buf c))) (chan_cap c));
    [done|lia].
Qed.

(** C5. When the outbound queue is at capacity, [SendMessage] fails at
    once with an error and leaves the node, its queue included, exactly as
    it was (no time passes: the caller is not blocked); so do
    [SendMessageAsync] and [SendMessageSync]. *)
Theorem SendMessage_fails_when_queue_full (msg : protobuf_Message)
    (rn : RemoteNode) :
  chan_full (txMsgChan rn) ->
  (forall hasReply,
      SendMessage msg hasReply rn
      = (rn, Err "Tx msg chan full, discarding msg"))
  /\ SendMessageAsync msg rn = (rn, Some "Tx msg chan full, discarding msg")
  /\ (forall arrival,
        SendMessageSync msg arrival rn
        = (rn, Err "Tx msg chan full, discarding msg")).
Proof.
  intros Hfull.
  assert (H : forall hasReply,
             SendMessage msg hasReply rn
             = (rn, Err "Tx msg chan full, discarding msg")).
  { intros hasReply. unfold SendMessage.
    by rewrite chan_try_send_full. }
  split; [exact H|]. split.
  - unfold SendMessageAsync. by rewrite H.
  - intros arrival. unfold SendMessageSync. by rewrite H.
Qed.

(** One turn of [tx] for every queued message, all writes succeeding:
    the queue is drained and each message that marshals is written. *)
Lemma tx_drain (q : list protobuf_Message) :
  forall rn,
    chan_buf (txMsgChan rn) = q ->
    isStopped rn = false ->
    is_Some (conn rn) ->
    exists r,
      tx (replicate (length q) (TxMsg None None)) rn = Returns r
      /\ isStopped r = false
      /\ chan_buf (txMsgChan r) = []
      /\ written r = written rn ++ concat (wire <$> q).
Proof.
  induction q as [|m q IH]; intros rn Hq Hrun Hconn.
  - exists rn. simpl. unfold IsStopped. rewrite Hrun.
    by rewrite app_nil_r.
  - cbn [length replicate tx]. unfold IsStopped. rewrite Hrun.
    unfold tx_iter, chan_recv. rewrite Hq.
    destruct Hconn as [cn Hconn].
    set (rn1 := set_txMsgChan (mkChan (chan_cap (txMsgChan rn)) q) rn).
    cbn [fmap list_fmap concat]. unfold wire at 1.
    destruct (proto_Marshal m) as [buf|e].
    + change (conn rn1) with (conn rn). rewrite Hconn.
      cbn [conn_Write].
      match goal with
      | |- context [tx _ ?r1] =>
          destruct (IH r1) as (r & Hr & Hs & Hb & Hw); [done|done|by eexists|]
      end.
      exists r. rewrite Hr. split; [done|]. split; [done|]. split; [done|].
      rewrite Hw. unfold written, emit; simpl.
      rewrite !omap_app. simpl. by rewrite <- !app_assoc.
    + destruct (IH (log LError e rn1)) as (r & Hr & Hs & Hb & Hw);
        [done|done|by eexists|].
      exists r. rewrite Hr. split; [done|]. split; [done|]. split; [done|].
      rewrite Hw. unfold written, log, emit; simpl.
      rewrite omap_app. simpl. by rewrite app_nil_r.
Qed.

(** C9. [SendMessage] with [hasReply] queues the envelope before it asks
    for the reply slot: when the queue has room and the allocation fails,
    the call returns the allocation's error and the envelope is the newest
    element of the outbound queue all the same.  It is then transmitted:
    when the node is running and the envelope marshals, the transmit loop,
    taking one message per turn with writes that succeed, writes its
    length prefix and its body after those of the messages queued before. *)
Theorem SendMessage_keeps_envelope_when_alloc_fails (msg : protobuf_Message)
    (rn : RemoteNode) (ln : LocalNode_t) (e : string) :
  ~ chan_full (txMsgChan rn) ->
  AllocReplyChan (MessageId msg) (now rn) (LocalNode rn) = (ln, Err e) ->
  exists rn',
    SendMessage msg true rn = (rn', Err e)
    /\ chan_buf (txMsgChan rn') = chan_buf (txMsgChan rn) ++ [msg]
    /\ (forall buf,
          proto_Marshal msg = Ok buf ->
          isStopped rn = false ->
          is_Some (conn rn) ->
          exists r,
            tx (replicate (S (length (chan_buf (txMsgChan rn))))
                  (TxMsg None None)) rn'
            = Returns r
            /\ chan_buf (txMsgChan r) = []
            /\ written r
               = written rn ++ concat (wire <$> chan_buf (txMsgChan rn))
                 ++ [BigEndian_PutUint32 (uint32_of_int (len buf)); buf]).
Proof.
  intros Hroom Halloc. unfold SendMessage.
  rewrite chan_try_send_room by done.
  cbn [now LocalNode set_txMsgChan]. rewrite Halloc.
  eexists. split; [reflexivity|]. split; [reflexivity|].
  intros buf Hbuf Hrun Hconn.
  match goal with
  | |- context [tx _ ?r1] =>
      destruct (tx_drain (chan_buf (txMsgChan rn) ++ [msg]) r1)
        as (r & Hr & _ & Hb & Hw); [done|done|done|]
  end.
  rewrite length_app, Nat.add_1_r in Hr.
  exists r. split; [exact Hr|]. split; [exact Hb|].
  rewrite Hw, fmap_app, concat_app. cbn [fmap list_fmap concat].
  unfold wire at 2. rewrite Hbuf. by rewrite app_nil_r.
Qed.

(** ** Waiting for a reply *)

Lemma AllocReplyChan_free (msgID : string) (t : Z) (ln : LocalNode_t) :
  slot_free msgID t ln ->
  AllocReplyChan msgID t ln
  = (mkLocalNode (middleware ln) (<[msgID := t + replyTimeout]> (replyChan ln)),
     Ok msgID).
Proof.
  unfold slot_free, AllocReplyChan. intros H.
  destruct (replyChan ln !! msgID) as [expiry|]; [|done].
  destruct (Z.ltb_spec t expiry); [lia|done].
Qed.

Lemma AllocReplyChan_outstanding (msgID : string) (t expiry : Z)
    (ln : LocalNode_t) :
  replyChan ln !! msgID = Some expiry -> t < expiry ->
  AllocReplyChan msgID t ln = (ln, Err "Reply chan already exists").
Proof.
  unfold AllocReplyChan. intros -> H.
  destruct (Z.ltb_spec t expiry); [done|lia].
Qed.

(** C4. A synchronous send whose reply does not come fails with a
    timeout error once [replyTimeout] has elapsed, and from then on the
    reply slot of its message identifier is free: a later request with the
    same identifier gets its slot, and gets its reply when one comes in
    time.  While the wait lasts the slot is taken.  (The registry is the
    local node's, modelled from the spec: [SendMessageSync] itself does
    nothing to the slot when the timer fires, the entry is still there and
    its time has passed.) *)
Theorem SendMessageSync_timeout_frees_slot (msg : protobuf_Message)
    (arrival : option (Z * RemoteMessage)) (rn : RemoteNode) :
  ~ chan_full (txMsgChan rn) ->
  slot_free (MessageId msg) (now rn) (LocalNode rn) ->
  never_in_time arrival ->
  exists rn1,
    SendMessageSync msg arrival rn = (rn1, Err "Wait for reply timeout")
    /\ now rn1 = now rn + replyTimeout
    /\ replyChan (LocalNode rn1) !! MessageId msg = Some (now rn1)
    /\ slot_free (MessageId msg) (now rn1) (LocalNode rn1)
    /\ (forall msg2 rn2,
          MessageId msg2 = MessageId msg ->
          replyChan (LocalNode rn2) = replyChan (LocalNode rn1) ->
          ~ chan_full (txMsgChan rn2) ->
          (now rn1 <= now rn2 ->
           (exists rn3,
               SendMessage msg2 true rn2 = (rn3, Ok (Some (MessageId msg2))))
           /\ (forall d reply,
                 d < replyTimeout ->
                 snd (SendMessageSync msg2 (Some (d, reply)) rn2) = Ok reply))
          /\ (now rn2 < now rn1 ->
              snd (SendMessage msg2 true rn2)
              = Err "Reply chan already exists")).
Proof.
  intros Hroom Hfree Hnever. unfold SendMessageSync, SendMessage.
  rewrite chan_try_send_room by done.
  cbn [now LocalNode set_txMsgChan].
  rewrite AllocReplyChan_free by done.
  eexists. split.
  { destruct arrival as [[d m]|]; [|reflexivity].
    simpl in Hnever. destruct (Z.ltb_spec d replyTimeout); [lia|reflexivity]. }
  cbn [now LocalNode set_now set_LocalNode set_txMsgChan].
  split; [reflexivity|]. split.
  { cbn [replyChan]. apply lookup_insert_eq. }
  split.
  { unfold slot_free; cbn [replyChan]. rewrite lookup_insert_eq. lia. }
  intros msg2 rn2 Hid Hreg Hroom2. cbn [replyChan] in Hreg.
  assert (Hlook : replyChan (LocalNode rn2) !! MessageId msg2
                  = Some (now rn + replyTimeout))
    by (rewrite Hreg, Hid; apply lookup_insert_eq).
  split.
  - intros Hlater.
    assert (Hfree2 : slot_free (MessageId msg2) (now rn2) (LocalNode rn2))
      by (unfold slot_free; rewrite Hlook; lia).
    rewrite chan_try_send_room by done.
    cbn [now LocalNode set_txMsgChan].
    rewrite AllocReplyChan_free by done.
    split; [by eexists|].
    intros d reply Hd.
    destruct (Z.ltb_spec d replyTimeout); [reflexivity|lia].
  - intros Hsooner.
    rewrite chan_try_send_room by done.
    cbn [now LocalNode set_txMsgChan].
    by rewrite (AllocReplyChan_outstanding _ _ _ _ Hlook Hsooner).
Qed.

(** ** The frame codec *)

Lemma slice_Some {A : Type} (s r : list A) (lo hi : Z) :
  slice s lo hi = Some r ->
  0 <= lo /\ lo <= hi /\ hi <= len s
  /\ r = take (Z.to_nat (hi - lo)) (drop (Z.to_nat lo) s).
Proof.
  unfold slice. intros H.
  destruct (Z.leb_spec 0 lo), (Z.leb_spec lo hi), (Z.leb_spec hi (len s));
    simpl in H; try discriminate.
  injection H as <-. done.
Qed.

Lemma slice_rest_length {A : Type} (s r : list A) (lo : Z) :
  slice s lo (len s) = Some r -> 0 <= lo /\ len r = len s - lo.
Proof.
  intros H. apply slice_Some in H as (H0 & H1 & _ & ->).
  rewrite length_take, length_drop. lia.
Qed.

Lemma handleMsgBuf_frame (buf : list byte) (rn : RemoteNode) :
  exists tr q,
    handleMsgBuf buf rn = set_rxMsgChan q (set_trace tr rn)
    /\ closes tr = closes (trace rn)
    /\ lifeCycleStops tr = lifeCycleStops (trace rn).
Proof.
  unfold handleMsgBuf.
  destruct (proto_Unmarshal buf) as [msg|e].
  - cbn [rxMsgChan emit set_trace].
    destruct (chan_try_send (rxMsgChan rn) msg) as [q|].
    + exists (trace rn ++ [EvHandleMsgBuf buf]), q.
      split; [by destruct rn|].
      by rewrite closes_app, lifeCycleStops_app, !Nat.add_0_r.
    + exists ((trace rn ++ [EvHandleMsgBuf buf])
              ++ [EvLog LWarn "Rx msg chan full, discarding msg"]),
             (rxMsgChan rn).
      split; [by destruct rn|].
      by rewrite !closes_app, !lifeCycleStops_app, !Nat.add_0_r.
  - exists ((trace rn ++ [EvHandleMsgBuf buf])
            ++ [EvLog LError ("unmarshal msg error: " +:+ e)]),
           (rxMsgChan rn).
    split; [by destruct rn|].
    by rewrite !closes_app, !lifeCycleStops_app, !Nat.add_0_r.
Qed.

(** From a state with no frame in progress, a budget above the length of
    the buffer is enough. *)
Lemma readBuf_rec_clean (fuel : nat) :
  forall buf rn,
    rxBuf_buf rn = [] -> rxBuf_len rn = 0 -> (length buf < fuel)%nat ->
    readBuf_rec fuel buf rn <> OutOfFuel.
Proof.
  induction fuel as [|f IH]; intros buf rn Hb Hl Hf; [lia|].
  cbn [readBuf_rec].
  destruct (len buf =? 0) eqn:E0; [done|].
  rewrite Hl, Hb. cbn [Z.eqb length app]. unfold msgLenBytes.
  change (4 - Z.of_nat 0) with 4.
  destruct (4 >? len buf) eqn:E4; [done|].
  destruct (slice buf 0 4) as [head|] eqn:Hh; [|done].
  destruct (slice buf 4 (len buf)) as [rest|] eqn:Hr; [|done].
  cbn [rxBuf_buf set_rxBuf_buf].
  destruct (BigEndian_Uint32 head) as [u|]; [|done].
  cbn [rxBuf_len set_rxBuf_len].
  destruct (int_of_uint32 arch u <? 0) eqn:En; [done|].
  destruct (len rest =? int_of_uint32 arch u); [done|].
  destruct (len rest <? int_of_uint32 arch u); [done|].
  destruct (slice rest 0 (int_of_uint32 arch u)) as [front|]; [|done].
  destruct (slice rest (int_of_uint32 arch u) (len rest)) as [rest'|] eqn:Hr';
    [|done].
  apply IH; [done | done |].
  apply slice_rest_length in Hr as [_ Hr], Hr' as [_ Hr'].
  apply Z.ltb_ge in En. lia.
Qed.

Lemma untouched_refl (rn : RemoteNode) : untouched_by_codec rn rn.
Proof. by repeat split. Qed.

Lemma untouched_trans (a b c : RemoteNode) :
  untouched_by_codec a b -> untouched_by_codec b c -> untouched_by_codec a c.
Proof.
  unfold untouched_by_codec.
  intros (?&?&?&?&?&?&?&?) (?&?&?&?&?&?&?&?).
  repeat split; congruence.
Qed.

Lemma untouched_set_rxBuf_buf (b : list byte) (rn : RemoteNode) :
  untouched_by_codec rn (set_rxBuf_buf b rn).
Proof. by repeat split. Qed.

Lemma untouched_set_rxBuf_len (l : Z) (rn : RemoteNode) :
  untouched_by_codec rn (set_rxBuf_len l rn).
Proof. by repeat split. Qed.

Lemma untouched_handleMsgBuf (buf : list byte) (rn : RemoteNode) :
  untouched_by_codec rn (handleMsgBuf buf rn).
Proof.
  destruct (handleMsgBuf_frame buf rn) as (tr & q & -> & Hc & Hl).
  by repeat split.
Qed.

Ltac untouched :=
  repeat first
    [ apply untouched_refl
    | match goal with
      | |- untouched_by_codec ?a (set_rxBuf_len ?l ?x) =>
          apply (untouched_trans a x); [|apply untouched_set_rxBuf_len]
      | |- untouched_by_codec ?a (set_rxBuf_buf ?b ?x) =>
          apply (untouched_trans a x); [|apply untouched_set_rxBuf_buf]
      | |- untouched_by_codec ?a (handleMsgBuf ?b ?x) =>
          apply (untouched_trans a x); [|apply untouched_handleMsgBuf]
      end ].

(** The codec never stops the node, closes the connection or touches the
    guards, whatever the bytes. *)
Lemma readBuf_rec_untouched (fuel : nat) :
  forall buf rn r e,
    readBuf_rec fuel buf rn = Returns (r, e) -> untouched_by_codec rn r.
Proof.
  induction fuel as [|f IH]; intros buf rn r e H; [discriminate|].
  cbn [readBuf_rec] in H.
  repeat match type of H with
         | context [if ?b then _ else _] => destruct b
         | context [match ?o with Some _ => _ | None => _ end] => destruct o
         end;
    try discriminate;
    try (injection H as <- <-; untouched);
    try (apply IH in H; eapply untouched_trans; [|exact H]; untouched).
Qed.

(** The budget [readBuf] gives its recursion is never used up. *)
Lemma readBuf_returns_or_panics (buf : list byte) (rn : RemoteNode) :
  readBuf buf rn <> OutOfFuel.
Proof.
  unfold readBuf.
  assert (Hf : (length buf < S (length buf))%nat) by lia.
  revert Hf. generalize (S (length buf)) as f. intros f Hf.
  cbn [readBuf_rec].
  repeat match goal with
         | |- context [if ?b then _ else _] => destruct b eqn:?
         | |- context [match ?o with Some _ => _ | None => _ end] =>
             destruct o eqn:?
         end;
    try discriminate;
    (apply readBuf_rec_clean; [done | done |]);
    repeat match goal with
           | H : slice _ _ (len _) = Some _ |- _ =>
               apply slice_rest_length in H as [? ?]
           | H : slice _ _ _ = Some _ |- _ =>
               apply slice_Some in H as (? & ? & ? & _)
           end; lia.
Qed.

(** Reading bytes never stops the node: an error of [readBuf] is logged
    by [rx] and nothing else happens. *)
Lemma rx_iter_ReadBytes_untouched (bs : list byte) (rn r : RemoteNode) :
  rx_iter (ReadBytes bs) rn = Returns r -> untouched_by_codec rn r.
Proof.
  unfold rx_iter, readBuf. destruct (conn rn); [|discriminate].
  destruct (readBuf_rec _ bs rn) as [[r' [e|]]| |] eqn:H; try discriminate;
    intros [= <-]; apply readBuf_rec_untouched in H; [|exact H].
  eapply untouched_trans; [exact H|]. unfold log, emit.
  repeat split; cbn [trace set_trace].
  - by rewrite closes_app, Nat.add_0_r.
  - by rewrite lifeCycleStops_app, Nat.add_0_r.
Qed.

(** The model of [rx] never runs out of budget either. *)
Lemma rx_returns_or_panics (reads : list ReadResult) :
  forall rn, rx reads rn <> OutOfFuel.
Proof.
  induction reads as [|rd reads IH]; intros rn; cbn [rx];
    destruct (IsStopped rn); try done.
  destruct (rx_iter rd rn) as [r| |] eqn:H; [apply IH | done |].
  unfold rx_iter in H. destruct (conn rn); [|discriminate].
  destruct rd; try discriminate.
  pose proof (readBuf_returns_or_panics bs rn) as Hb.
  destruct (readBuf bs rn) as [[r' [e|]]| |]; done.
Qed.

(** ** Length prefixes *)

Lemma byte_val_of_Z (z : Z) : byte_val (byte_of_Z z) = z mod 256.
Proof.
  unfold byte_val, byte_of_Z.
  assert (Hz : 0 <= z mod 256 < 256) by (apply Z.mod_pos_bound; lia).
  destruct (Byte.of_N (Z.to_N (z mod 256))) as [b|] eqn:E.
  - apply Byte.to_of_N in E. rewrite E. lia.
  - apply Byte.of_N_None_iff in E. lia.
Qed.

Lemma testbit_byte (x n : Z) :
  0 <= n -> Z.testbit (x mod 256) n = (n <? 8) && Z.testbit x n.
Proof.
  intros Hn. change 256 with (2 ^ 8).
  destruct (Z.ltb_spec n 8).
  - by rewrite Z.mod_pow2_bits_low by lia.
  - by rewrite Z.mod_pow2_bits_high by lia.
Qed.

Lemma testbit_uint32_high (v n : Z) :
  0 <= v < 2 ^ 32 -> 32 <= n -> Z.testbit v n = false.
Proof.
  intros Hv Hn. rewrite <- (Z.mod_small v (2 ^ 32)) by lia.
  apply Z.mod_pow2_bits_high. lia.
Qed.

(** What [PutUint32] writes, [Uint32] reads back. *)
Lemma Uint32_PutUint32 (v : Z) (rest : list byte) :
  0 <= v < 2 ^ 32 ->
  BigEndian_Uint32 (BigEndian_PutUint32 v ++ rest) = Some v.
Proof.
  intros Hv. unfold BigEndian_Uint32, BigEndian_PutUint32.
  cbn [app]. f_equal. rewrite !byte_val_of_Z.
  apply Z.bits_inj'. intros n Hn.
  rewrite !Z.lor_spec, !Z.shiftl_spec by lia.
  destruct (Z.ltb_spec n 8); [|destruct (Z.ltb_spec n 16);
    [|destruct (Z.ltb_spec n 24); [|destruct (Z.ltb_spec n 32)]]].
  - rewrite (Z.testbit_neg_r _ (n - 24)), (Z.testbit_neg_r _ (n - 16)),
      (Z.testbit_neg_r _ (n - 8)) by lia.
    rewrite testbit_byte by lia.
    destruct (Z.ltb_spec n 8); [done|lia].
  - rewrite (Z.testbit_neg_r _ (n - 24)), (Z.testbit_neg_r _ (n - 16)) by lia.
    rewrite !testbit_byte by lia. rewrite Z.shiftr_spec by lia.
    destruct (Z.ltb_spec (n - 8) 8), (Z.ltb_spec n 8); try lia.
    simpl. rewrite orb_false_r. f_equal. lia.
  - rewrite (Z.testbit_neg_r _ (n - 24)) by lia.
    rewrite !testbit_byte by lia. rewrite !Z.shiftr_spec by lia.
    destruct (Z.ltb_spec (n - 16) 8), (Z.ltb_spec (n - 8) 8),
      (Z.ltb_spec n 8); try lia.
    simpl. rewrite !orb_false_r. f_equal. lia.
  - rewrite !testbit_byte by lia. rewrite !Z.shiftr_spec by lia.
    destruct (Z.ltb_spec (n - 24) 8), (Z.ltb_spec (n - 16) 8),
      (Z.ltb_spec (n - 8) 8), (Z.ltb_spec n 8); try lia.
    simpl. rewrite !orb_false_r. f_equal. lia.
  - rewrite !testbit_byte by lia.
    destruct (Z.ltb_spec (n - 24) 8), (Z.ltb_spec (n - 16) 8),
      (Z.ltb_spec (n - 8) 8), (Z.ltb_spec n 8); try lia.
    simpl. symmetry. by apply testbit_uint32_high.
Qed.

Lemma int_of_uint32_small (v : Z) :
  0 <= v < 2 ^ 31 -> int_of_uint32 arch v = v.
Proof.
  intros Hv. unfold int_of_uint32.
  assert (H : 2 ^ 31 <= 2 ^ (intSize arch - 1)
              /\ 2 ^ (intSize arch - 1) < 2 ^ intSize arch)
    by (destruct arch; simpl; lia).
  rewrite Z.mod_small by lia.
  destruct (Z.ltb_spec v (2 ^ (intSize arch - 1))); [done|lia].
Qed.

(** ** One step of the codec, case by case *)

Lemma slice_app_l {A : Type} (a b : list A) :
  slice (a ++ b) 0 (len a) = Some a.
Proof.
  unfold slice. rewrite length_app.
  destruct (Z.leb_spec 0 0), (Z.leb_spec 0 (len a)),
    (Z.leb_spec (len a) (Z.of_nat (length a + length b))); try lia.
  simpl. f_equal. rewrite Z.sub_0_r, Nat2Z.id. apply take_app_length.
Qed.

Lemma slice_app_r {A : Type} (a b : list A) :
  slice (a ++ b) (len a) (len (a ++ b)) = Some b.
Proof.
  unfold slice. rewrite length_app.
  destruct (Z.leb_spec 0 (len a)),
    (Z.leb_spec (len a) (Z.of_nat (length a + length b))),
    (Z.leb_spec (Z.of_nat (length a + length b))
       (Z.of_nat (length a + length b))); try lia.
  simpl. f_equal. rewrite Nat2Z.id, drop_app_length.
  apply take_ge. lia.
Qed.

Lemma handled_handleMsgBuf (buf : list byte) (rn : RemoteNode) :
  handled (handleMsgBuf buf rn) = handled rn ++ [buf].
Proof.
  unfold handleMsgBuf, handled.
  destruct (proto_Unmarshal buf) as [msg|e];
    [destruct (chan_try_send _ msg)|];
    cbn [trace log emit set_trace set_rxMsgChan];
    rewrite !omap_app; simpl; by rewrite ?app_nil_r.
Qed.

Lemma PutUint32_length (v : Z) : length (BigEndian_PutUint32 v) = 4%nat.
Proof. reflexivity. Qed.

(** A read that starts with a whole length prefix, on a node with no
    frame in progress. *)
Lemma readBuf_rec_prefix (f : nat) (L : Z) (rest : list byte)
    (rn : RemoteNode) :
  rxBuf_buf rn = [] -> rxBuf_len rn = 0 -> 0 <= L < 2 ^ 31 ->
  let rn1 := set_rxBuf_len L (set_rxBuf_buf (BigEndian_PutUint32 L) rn) in
  readBuf_rec (S f) (BigEndian_PutUint32 L ++ rest) rn
  = if len rest =? L then Returns (delivered rest rn1, None)
    else if len rest <? L then
      Returns (set_rxBuf_len (L - len rest)
                 (set_rxBuf_buf (BigEndian_PutUint32 L ++ rest) rn1), None)
    else
      match slice rest 0 L, slice rest L (len rest) with
      | Some front, Some rest' => readBuf_rec f rest' (delivered front rn1)
      | _, _ => Panics "slice bounds out of range"
      end.
Proof.
  intros Hb Hl HL rn1. cbn [readBuf_rec].
  rewrite length_app, PutUint32_length.
  destruct (Z.eqb_spec (Z.of_nat (4 + length rest)) 0); [lia|].
  rewrite Hl, Hb. cbn [Z.eqb length]. unfold msgLenBytes.
  change (4 - Z.of_nat 0) with 4.
  destruct (Z.gtb_spec 4 (Z.of_nat (4 + length rest))); [lia|].
  change 4 with (len (BigEndian_PutUint32 L)) at 1 2.
  rewrite slice_app_l.
  replace (Z.of_nat (4 + length rest))
    with (len (BigEndian_PutUint32 L ++ rest))
    by (rewrite length_app, PutUint32_length; lia).
  rewrite slice_app_r.
  cbn [rxBuf_buf set_rxBuf_buf app].
  rewrite <- (app_nil_r (BigEndian_PutUint32 L)) at 1.
  rewrite Uint32_PutUint32 by lia.
  cbn [rxBuf_len set_rxBuf_len].
  rewrite int_of_uint32_small by lia.
  destruct (Z.ltb_spec L 0); [lia|].
  fold rn1. reflexivity.
Qed.

(** A read on a node that has the length prefix and is waiting for a
    body of [rxBuf_len rn] bytes. *)
Lemma readBuf_rec_body (f : nat) (buf : list byte) (rn : RemoteNode) :
  buf <> [] -> rxBuf_len rn <> 0 ->
  readBuf_rec (S f) buf rn
  = if len buf =? rxBuf_len rn then Returns (delivered buf rn, None)
    else if len buf <? rxBuf_len rn then
      Returns (set_rxBuf_len (rxBuf_len rn - len buf)
                 (set_rxBuf_buf (rxBuf_buf rn ++ buf) rn), None)
    else
      match slice buf 0 (rxBuf_len rn),
            slice buf (rxBuf_len rn) (len buf) with
      | Some front, Some rest' => readBuf_rec f rest' (delivered front rn)
      | _, _ => Panics "slice bounds out of range"
      end.
Proof.
  intros Hbuf Hl. cbn [readBuf_rec].
  destruct (Z.eqb_spec (len buf) 0) as [E|_];
    [destruct buf; [done | simpl in E; lia]|].
  destruct (Z.eqb_spec (rxBuf_len rn) 0); [done|]. reflexivity.
Qed.

(** ** Frames that arrive whole, and bodies that arrive in pieces *)

Lemma frame_length (body : list byte) :
  length (frame body) = (4 + length body)%nat.
Proof. unfold frame. by rewrite length_app, PutUint32_length. Qed.

Lemma frames_nil (bodies : list (list byte)) :
  concat (frame <$> bodies) = [] -> bodies = [].
Proof.
  destruct bodies as [|b bodies]; [done|]. intros H.
  apply (f_equal length) in H. cbn [fmap list_fmap concat] in H.
  rewrite length_app, frame_length in H. simpl in H. lia.
Qed.

Lemma readBuf_rec_whole_frames (bodies : list (list byte)) :
  forall (f : nat) (rn : RemoteNode),
    rxBuf_buf rn = [] -> rxBuf_len rn = 0 ->
    Forall (fun b => len b < 2 ^ 31) bodies ->
    (length (concat (frame <$> bodies)) < f)%nat ->
    exists r,
      readBuf_rec f (concat (frame <$> bodies)) rn = Returns (r, None)
      /\ handled r = handled rn ++ bodies
      /\ rxBuf_buf r = [] /\ rxBuf_len r = 0.
Proof.
  induction bodies as [|b bodies IH]; intros f rn Hb Hl Hbound Hf;
    (destruct f as [|f]; [lia|]).
  - exists rn. by rewrite app_nil_r.
  - apply Forall_cons in Hbound as [Hlen Hbound].
    cbn [fmap list_fmap concat] in *.
    unfold frame at 1 in Hf. unfold frame at 1.
    unfold uint32_of_int in *.
    rewrite (Z.mod_small (len b)) in * by lia.
    rewrite <- app_assoc in *.
    rewrite readBuf_rec_prefix by (done || lia).
    set (rn1 := set_rxBuf_len (len b)
                  (set_rxBuf_buf (BigEndian_PutUint32 (len b)) rn)).
    set (tl := concat (frame <$> bodies)) in *.
    rewrite length_app in *.
    destruct (Z.eqb_spec (Z.of_nat (length b + length tl)) (len b)) as [E|E].
    + assert (Htl : tl = []) by (destruct tl; [done | simpl in E; lia]).
      rewrite Htl, app_nil_r. apply frames_nil in Htl as ->.
      eexists. split; [reflexivity|].
      unfold delivered. split; [|done].
      change (handled (set_rxBuf_len 0 (set_rxBuf_buf [] ?x)))
        with (handled x).
      by rewrite handled_handleMsgBuf.
    + destruct (Z.ltb_spec (Z.of_nat (length b + length tl)) (len b)); [lia|].
      rewrite slice_app_l.
      replace (Z.of_nat (length b + length tl)) with (len (b ++ tl))
        by (rewrite length_app; lia).
      rewrite slice_app_r.
      destruct (IH f (delivered b rn1)) as (r & Hr & Hh & Hclean);
        [done | done | done
        | rewrite length_app, PutUint32_length in Hf; lia |].
      exists r. split; [exact Hr|]. split; [|exact Hclean].
      rewrite Hh. unfold delivered.
      change (handled (set_rxBuf_len 0 (set_rxBuf_buf [] ?x)))
        with (handled x).
      rewrite handled_handleMsgBuf. by rewrite <- app_assoc.
Qed.

(** One read that holds whole frames. *)
Lemma rx_iter_whole_frames (bodies : list (list byte)) (rn : RemoteNode) :
  is_Some (conn rn) -> rxBuf_buf rn = [] -> rxBuf_len rn = 0 ->
  Forall (fun b => len b < 2 ^ 31) bodies ->
  exists r,
    rx_iter (ReadBytes (concat (frame <$> bodies))) rn = Returns r
    /\ handled r = handled rn ++ bodies
    /\ untouched_by_codec rn r
    /\ rxBuf_buf r = [] /\ rxBuf_len r = 0.
Proof.
  intros [cn Hconn] Hb Hl Hbodies. unfold rx_iter, readBuf. rewrite Hconn.
  destruct (readBuf_rec_whole_frames bodies
              (S (S (length (concat (frame <$> bodies)))))
              rn Hb Hl Hbodies)
    as (r & Hr & Hh & Hclean); [lia|].
  rewrite Hr. exists r. split; [done|]. split; [exact Hh|].
  split; [|exact Hclean]. by eapply readBuf_rec_untouched.
Qed.

(** A frame whose body arrives in two reads: the first read holds the
    length prefix and the front of the body, the second the rest of it.
    Only the second chunk reaches [handleMsgBuf]. *)
Lemma rx_split_body (front back : list byte) (rn : RemoteNode) :
  isStopped rn = false -> is_Some (conn rn) ->
  rxBuf_buf rn = [] -> rxBuf_len rn = 0 ->
  front <> [] -> back <> [] -> len (front ++ back) < 2 ^ 31 ->
  exists r,
    rx [ReadBytes (BigEndian_PutUint32 (len (front ++ back)) ++ front);
        ReadBytes back] rn
    = Returns r
    /\ handled r = handled rn ++ [back]
    /\ isStopped r = false
    /\ rxBuf_buf r = [] /\ rxBuf_len r = 0.
Proof.
  intros Hrun [cn Hconn] Hb Hl Hfront Hback Hlen.
  assert (Hlf : 0 < len front) by (destruct front; [done | simpl; lia]).
  assert (Hlb : 0 < len back) by (destruct back; [done | simpl; lia]).
  rewrite length_app in Hlen.
  cbn [rx]. unfold IsStopped. rewrite Hrun.
  unfold rx_iter at 1. rewrite Hconn. unfold readBuf at 1.
  rewrite readBuf_rec_prefix by (done || rewrite length_app; lia).
  rewrite length_app.
  destruct (Z.eqb_spec (len front) (Z.of_nat (length front + length back)));
    [lia|].
  destruct (Z.ltb_spec (len front) (Z.of_nat (length front + length back)));
    [|lia].
  cbn [isStopped set_rxBuf_len set_rxBuf_buf]. rewrite Hrun.
  unfold rx_iter. cbn [conn set_rxBuf_len set_rxBuf_buf]. rewrite Hconn.
  unfold readBuf.
  rewrite readBuf_rec_body
    by (done || cbn [rxBuf_len set_rxBuf_len set_rxBuf_buf]; lia).
  cbn [rxBuf_len set_rxBuf_len set_rxBuf_buf].
  destruct (Z.eqb_spec (len back)
              (Z.of_nat (length front + length back) - len front)); [|lia].
  unfold delivered.
  match goal with
  | |- context [handleMsgBuf back ?x] =>
      destruct (untouched_handleMsgBuf back x) as (Hs & _);
      pose proof (handled_handleMsgBuf back x) as Hh;
      set (r := handleMsgBuf back x) in *
  end.
  cbn [isStopped set_rxBuf_len set_rxBuf_buf] in *. rewrite Hs, Hrun.
  eexists. split; [reflexivity|].
  cbn [isStopped rxBuf_buf rxBuf_len set_rxBuf_len set_rxBuf_buf].
  split; [exact Hh|]. by rewrite Hs.
Qed.

(** ** Further properties of the loops *)

(** X1. Reads that each hold whole frames (one or several, bodies
    shorter than 2^31 bytes), on a running node with no frame in progress:
    [handleMsgBuf] is given every body, complete and in order. *)
Theorem whole_frames_are_handed_over_in_order
    (reads : list (list (list byte))) :
  forall rn : RemoteNode,
    isStopped rn = false -> is_Some (conn rn) ->
    rxBuf_buf rn = [] -> rxBuf_len rn = 0 ->
    Forall (Forall (fun b => len b < 2 ^ 31)) reads ->
    exists r,
      rx ((fun bodies => ReadBytes (concat (frame <$> bodies))) <$> reads) rn
      = Returns r
      /\ handled r = handled rn ++ concat reads
      /\ isStopped r = false
      /\ rxBuf_buf r = [] /\ rxBuf_len r = 0.
Proof.
  induction reads as [|bodies reads IH];
    intros rn Hrun Hconn Hb Hl Hbound; cbn [fmap list_fmap rx];
    unfold IsStopped; rewrite Hrun.
  - exists rn. by rewrite app_nil_r.
  - apply Forall_cons in Hbound as [Hbodies Hbound].
    destruct (rx_iter_whole_frames bodies rn Hconn Hb Hl Hbodies)
      as (r1 & -> & Hh1 & (Hs & _ & _ & Hc & _) & Hb1 & Hl1).
    destruct (IH r1) as (r & Hr & Hh & Hclean);
      [congruence | by rewrite Hc | done | done | done |].
    exists r. split; [exact Hr|]. split; [|exact Hclean].
    rewrite Hh, Hh1. by rewrite <- app_assoc.
Qed.

(** X2. [readBuf] always ends: the recursion on the rest of the buffer
    returns or panics, for every buffer and every state of the node, and so
    does the model of [rx] on every sequence of reads. *)
Theorem codec_always_ends :
  (forall buf rn, readBuf buf rn <> OutOfFuel)
  /\ (forall reads rn, rx reads rn <> OutOfFuel).
Proof.
  split; [apply readBuf_returns_or_panics|].
  intros reads rn. apply rx_returns_or_panics.
Qed.

Lemma wire_frames (msgs : list protobuf_Message) (bodies : list (list byte)) :
  Forall2 (fun m b => proto_Marshal m = Ok b) msgs bodies ->
  concat (concat (wire <$> msgs)) = concat (frame <$> bodies).
Proof.
  induction 1 as [|m b msgs bodies Hm _ IH]; [done|].
  cbn [fmap list_fmap concat]. rewrite concat_app, IH.
  unfold wire. rewrite Hm. unfold frame. cbn [concat].
  by rewrite app_nil_r.
Qed.

(** X3. The transmit loop, taking one queued message per turn with
    writes that succeed, empties the queue; when every queued message
    marshals, the bytes it writes are, in the order of the queue, the
    frames of the marshalled bodies: four-byte big-endian length, then
    body. *)
Theorem tx_writes_frames_in_queue_order (bodies : list (list byte))
    (rn : RemoteNode) :
  Forall2 (fun m b => proto_Marshal m = Ok b)
    (chan_buf (txMsgChan rn)) bodies ->
  isStopped rn = false -> is_Some (conn rn) ->
  exists r,
    tx (replicate (length (chan_buf (txMsgChan rn))) (TxMsg None None)) rn
    = Returns r
    /\ isStopped r = false
    /\ chan_buf (txMsgChan r) = []
    /\ concat (written r) = concat (written rn) ++ concat (frame <$> bodies).
Proof.
  intros Hm Hrun Hconn.
  destruct (tx_drain _ rn eq_refl Hrun Hconn) as (r & Hr & Hs & Hq & Hw).
  exists r. split; [exact Hr|]. split; [exact Hs|]. split; [exact Hq|].
  rewrite Hw, concat_app. f_equal. by apply wire_frames.
Qed.

(** X4. Loop-back: what the transmit loop of one node writes for its
    queued messages, read by another node in a single read, hands the
    marshalled bodies to [handleMsgBuf] in the order the messages were
    queued. *)
Theorem loopback_hands_over_marshalled_bodies
    (msgs : list protobuf_Message) (bodies : list (list byte))
    (sender receiver : RemoteNode) :
  Forall2 (fun m b => proto_Marshal m = Ok b) msgs bodies ->
  Forall (fun b => len b < 2 ^ 31) bodies ->
  chan_buf (txMsgChan sender) = msgs -> trace sender = [] ->
  isStopped sender = false -> is_Some (conn sender) ->
  isStopped receiver = false -> is_Some (conn receiver) ->
  rxBuf_buf receiver = [] -> rxBuf_len receiver = 0 ->
  exists s r,
    tx (replicate (length msgs) (TxMsg None None)) sender = Returns s
    /\ rx [ReadBytes (concat (written s))] receiver = Returns r
    /\ handled r = handled receiver ++ bodies.
Proof.
  intros Hm Hlen Hq Htr Hs Hcs Hr Hcr Hb Hl.
  destruct (tx_drain msgs sender Hq Hs Hcs) as (s & Htx & _ & _ & Hw).
  destruct (rx_iter_whole_frames bodies receiver Hcr Hb Hl Hlen)
    as (r & Hrx & Hh & _).
  exists s, r. split; [exact Htx|]. split; [|exact Hh].
  rewrite Hw. unfold written at 1. rewrite Htr. cbn [omap list_omap app].
  rewrite (wire_frames msgs bodies Hm).
  cbn [rx]. unfold IsStopped. rewrite Hr, Hrx. by destruct (isStopped r).
Qed.

(** X5. [SendMessageAsync] returns an error exactly when the outbound
    queue is at capacity; otherwise the message becomes the newest element
    of the queue and nothing else changes. *)
Theorem SendMessageAsync_fails_only_when_full (msg : protobuf_Message)
    (rn : RemoteNode) :
  (snd (SendMessageAsync msg rn) <> None <-> chan_full (txMsgChan rn))
  /\ (~ chan_full (txMsgChan rn) ->
      SendMessageAsync msg rn
      = (set_txMsgChan (mkChan (chan_cap (txMsgChan rn))
                          (chan_buf (txMsgChan rn) ++ [msg])) rn, None)).
Proof.
  assert (Hroom : ~ chan_full (txMsgChan rn) ->
                  SendMessageAsync msg rn
                  = (set_txMsgChan (mkChan (chan_cap (txMsgChan rn))
                                      (chan_buf (txMsgChan rn) ++ [msg])) rn,
                     None)).
  { intros H. unfold SendMessageAsync, SendMessage.
    by rewrite chan_try_send_room. }
  split; [|exact Hroom]. split.
  - intros Herr.
    destruct (decide (chan_cap (txMsgChan rn)
                      <= len (chan_buf (txMsgChan rn)))) as [H|H];
      [exact H|].
    rewrite (Hroom H) in Herr. done.
  - intros H. unfold SendMessageAsync, SendMessage.
    by rewrite chan_try_send_full.
Qed.

(** X6. When a read ends with end-of-stream or an error, [rx] stops the
    node with that cause and returns; reads that would follow are never
    made.  On a node whose stop guard was not done this marks it stopped
    and closes the connection once. *)
Theorem rx_stops_on_read_failure (rd : ReadResult) (more : list ReadResult)
    (rn : RemoteNode) :
  isStopped rn = false -> StopOnce rn = false -> is_Some (conn rn) ->
  (forall bs, rd <> ReadBytes bs) ->
  exists cause,
    rx (rd :: more) rn = Returns (Stop (Some cause) rn)
    /\ isStopped (Stop (Some cause) rn) = true
    /\ closes (trace (Stop (Some cause) rn)) = S (closes (trace rn)).
Proof.
  intros Hrun Hguard [cn Hconn] Hrd.
  assert (Hstop : forall cause,
             isStopped (Stop (Some cause) rn) = true
             /\ closes (trace (Stop (Some cause) rn)) = S (closes (trace rn))).
  { intros cause.
    destruct (Stop_first_trace (Some cause) rn Hguard) as (w & vs & -> & _).
    cbn [isStopped trace set_StopOnce set_trace set_world set_isStopped].
    split; [done|]. rewrite Hconn, !closes_app.
    rewrite (closes_middleware CatDisconnected 0).
    unfold closes at 2 3; simpl. lia. }
  cbn [rx]. unfold IsStopped. rewrite Hrun. unfold rx_iter. rewrite Hconn.
  destruct rd as [bs| |e]; [by destruct (Hrd bs) | |].
  - exists "Rx get io.EOF". destruct (Hstop "Rx get io.EOF") as [H1 H2].
    split; [|done]. destruct more; cbn [rx]; unfold IsStopped; by rewrite H1.
  - exists ("Read connection error: " +:+ e).
    destruct (Hstop ("Read connection error: " +:+ e)) as [H1 H2].
    split; [|done]. destruct more; cbn [rx]; unfold IsStopped; by rewrite H1.
Qed.

(** ** Reads that cut no body in two *)

(** A read that brings the end of a length prefix, on a node that has
    gathered the bytes [h] of it. *)
Lemma readBuf_rec_header (f : nat) (h h2 rest : list byte) (L : Z)
    (rn : RemoteNode) :
  rxBuf_len rn = 0 -> rxBuf_buf rn = h -> (length h < 4)%nat ->
  h ++ h2 = BigEndian_PutUint32 L -> 0 <= L < 2 ^ 31 ->
  let rn1 := set_rxBuf_len L (set_rxBuf_buf (BigEndian_PutUint32 L) rn) in
  readBuf_rec (S f) (h2 ++ rest) rn
  = if len rest =? L then Returns (delivered rest rn1, None)
    else if len rest <? L then
      Returns (set_rxBuf_len (L - len rest)
                 (set_rxBuf_buf (BigEndian_PutUint32 L ++ rest) rn1), None)
    else
      match slice rest 0 L, slice rest L (len rest) with
      | Some front, Some rest' => readBuf_rec f rest' (delivered front rn1)
      | _, _ => Panics "slice bounds out of range"
      end.
Proof.
  intros Hl Hb Hh Hhdr HL rn1.
  assert (Hh2 : len h2 = 4 - len h).
  { apply (f_equal length) in Hhdr.
    rewrite length_app, PutUint32_length in Hhdr. lia. }
  cbn [readBuf_rec]. rewrite length_app.
  destruct (Z.eqb_spec (Z.of_nat (length h2 + length rest)) 0); [lia|].
  rewrite Hl, Hb. cbn [Z.eqb]. unfold msgLenBytes.
  destruct (Z.gtb_spec (4 - len h) (Z.of_nat (length h2 + length rest)));
    [lia|].
  rewrite <- Hh2. rewrite slice_app_l.
  replace (Z.of_nat (length h2 + length rest)) with (len (h2 ++ rest))
    by (rewrite length_app; lia).
  rewrite slice_app_r.
  cbn [rxBuf_buf set_rxBuf_buf]. rewrite Hhdr.
  rewrite <- (app_nil_r (BigEndian_PutUint32 L)) at 1.
  rewrite Uint32_PutUint32 by lia.
  cbn [rxBuf_len set_rxBuf_len].
  rewrite int_of_uint32_small by lia.
  destruct (Z.ltb_spec L 0); [lia|].
  fold rn1. reflexivity.
Qed.

Lemma handled_delivered (buf : list byte) (rn : RemoteNode) :
  handled (delivered buf rn) = handled rn ++ [buf].
Proof. unfold delivered. apply handled_handleMsgBuf. Qed.

Lemma read_whole_sound (s s' : CodecState) (bs : list byte)
    (ds : list (list byte)) :
  read_whole s bs ds s' ->
  forall (f : nat) (rn : RemoteNode),
    codec_at s rn -> (length bs < f)%nat ->
    exists r,
      readBuf_rec f bs rn = Returns (r, None)
      /\ handled r = handled rn ++ ds
      /\ codec_at s' r.
Proof.
  induction 1 as [s | h bs Hlen | h bs L Hhdr HL
                 | h h2 b rest ds s' Hhdr HL _ IH
                 | b rest ds s' Hb HL _ IH];
    intros f rn Hat Hf; (destruct f as [|f]; [lia|]).
  - exists rn. by rewrite app_nil_r.
  - destruct Hat as (Hl & Hbuf & Hh). rewrite length_app in Hlen.
    cbn [readBuf_rec]. rewrite Hl, Hbuf. cbn [Z.eqb]. unfold msgLenBytes.
    destruct (Z.eqb_spec (len bs) 0) as [E|E].
    + assert (bs = []) as -> by (destruct bs; [done | simpl in E; lia]).
      exists rn. rewrite !app_nil_r. by repeat split.
    + destruct (Z.gtb_spec (4 - len h) (len bs)); [|lia].
      eexists. split; [reflexivity|].
      split; [exact (eq_sym (app_nil_r _))|].
      cbn [codec_at rxBuf_len rxBuf_buf set_rxBuf_buf]. rewrite length_app.
      by repeat split.
  - destruct Hat as (Hl & Hbuf & Hh).
    rewrite <- (app_nil_r bs).
    rewrite (readBuf_rec_header f h bs [] L rn) by (done || lia).
    cbn [length]. destruct (Z.eqb_spec (Z.of_nat 0) L); [lia|].
    destruct (Z.ltb_spec (Z.of_nat 0) L); [|lia].
    eexists. split; [reflexivity|].
    split; [exact (eq_sym (app_nil_r _))|].
    cbn [codec_at rxBuf_len set_rxBuf_len]. lia.
  - destruct Hat as (Hl & Hbuf & Hh).
    rewrite (readBuf_rec_header f h h2 (b ++ rest) (len b) rn)
      by (done || lia).
    set (rn1 := set_rxBuf_len (len b)
                  (set_rxBuf_buf (BigEndian_PutUint32 (len b)) rn)).
    assert (Hclean : codec_at (InHeader []) (delivered b rn1))
      by (cbn; repeat split; lia).
    rewrite length_app.
    destruct (Z.eqb_spec (Z.of_nat (length b + length rest)) (len b)) as [E|E].
    + assert (rest = []) as -> by (destruct rest; [done | simpl in E; lia]).
      destruct (IH 1%nat (delivered b rn1) Hclean) as (r & Hr & Hh' & Hat');
        [simpl; lia|].
      injection Hr as <-. rewrite app_nil_r. eexists.
      split; [reflexivity|]. split; [|exact Hat'].
      rewrite Hh', handled_delivered. by rewrite <- app_assoc.
    + destruct (Z.ltb_spec (Z.of_nat (length b + length rest)) (len b));
        [lia|].
      rewrite slice_app_l.
      replace (Z.of_nat (length b + length rest)) with (len (b ++ rest))
        by (rewrite length_app; lia).
      rewrite slice_app_r.
      destruct (IH f (delivered b rn1) Hclean) as (r & Hr & Hh' & Hat').
      { apply (f_equal length) in Hhdr.
        rewrite length_app, PutUint32_length in Hhdr.
        rewrite !length_app in Hf. lia. }
      exists r. split; [exact Hr|]. split; [|exact Hat'].
      rewrite Hh', handled_delivered. by rewrite <- app_assoc.
  - destruct Hat as (Hl & HLpos).
    assert (Hne : b ++ rest <> []) by (by destruct b).
    rewrite readBuf_rec_body by (done || lia). rewrite Hl.
    assert (Hclean : codec_at (InHeader []) (delivered b rn))
      by (cbn; repeat split; lia).
    rewrite length_app.
    destruct (Z.eqb_spec (Z.of_nat (length b + length rest)) (len b)) as [E|E].
    + assert (rest = []) as -> by (destruct rest; [done | simpl in E; lia]).
      destruct (IH 1%nat (delivered b rn) Hclean) as (r & Hr & Hh' & Hat');
        [simpl; lia|].
      injection Hr as <-. rewrite app_nil_r. eexists.
      split; [reflexivity|]. split; [|exact Hat'].
      rewrite Hh', handled_delivered. by rewrite <- app_assoc.
    + destruct (Z.ltb_spec (Z.of_nat (length b + length rest)) (len b));
        [lia|].
      rewrite slice_app_l.
      replace (Z.of_nat (length b + length rest)) with (len (b ++ rest))
        by (rewrite length_app; lia).
      rewrite slice_app_r.
      destruct (IH f (delivered b rn) Hclean) as (r & Hr & Hh' & Hat').
      { rewrite length_app in Hf. lia. }
      exists r. split; [exact Hr|]. split; [|exact Hat'].
      rewrite Hh', handled_delivered. by rewrite <- app_assoc.
Qed.

(** What the codec has taken in and what a read brings make up the frames
    of the bodies in the read and what the codec has taken in after it. *)
Lemma read_whole_stream (s s' : CodecState) (bs : list byte)
    (ds : list (list byte)) :
  read_whole s bs ds s' ->
  pending s ++ bs = concat (frame <$> ds) ++ pending s'.
Proof.
  assert (Hframe : forall b : list byte,
             len b < 2 ^ 31 -> frame b = BigEndian_PutUint32 (len b) ++ b).
  { intros b Hb. unfold frame, uint32_of_int.
    by rewrite Z.mod_small by lia. }
  induction 1 as [s | h bs Hlen | h bs L Hhdr HL
                 | h h2 b rest ds s' Hhdr HL _ IH
                 | b rest ds s' Hb HL _ IH]; cbn [pending fmap list_fmap concat].
  - by rewrite app_nil_r.
  - done.
  - done.
  - rewrite Hframe by done. cbn [pending app] in IH.
    rewrite <- !app_assoc, <- IH, (app_assoc h), Hhdr.
    by rewrite <- ?app_assoc.
  - rewrite Hframe by done. cbn [pending app] in IH.
    rewrite <- !app_assoc. by rewrite <- IH.
Qed.

(** X7. Reads that cut no body in two, on a running node: the length
    prefix of a frame may arrive in pieces, cut anywhere, and a read may
    hold several frames, as long as every body arrives whole within one
    read.  Then [handleMsgBuf] is given every body, complete and in order,
    and the bytes read spell exactly the frames of those bodies, up to the
    prefix in progress at either end. *)
Theorem bodies_kept_whole_are_handed_over (s s' : CodecState)
    (reads ds : list (list byte)) :
  reads_whole s reads ds s' ->
  forall rn : RemoteNode,
    isStopped rn = false -> is_Some (conn rn) -> codec_at s rn ->
    (exists r,
        rx (ReadBytes <$> reads) rn = Returns r
        /\ handled r = handled rn ++ ds
        /\ isStopped r = false
        /\ codec_at s' r)
    /\ pending s ++ concat reads = concat (frame <$> ds) ++ pending s'.
Proof.
  induction 1 as [s | s s1 s' bs reads ds ds' Hread _ IH];
    intros rn Hrun Hconn Hat.
  - split; [|by rewrite app_nil_r].
    exists rn. cbn [fmap list_fmap rx]. unfold IsStopped. rewrite Hrun.
    by rewrite app_nil_r.
  - destruct (read_whole_sound _ _ _ _ Hread (S (S (length bs))) rn Hat)
      as (r1 & Hr1 & Hh1 & Hat1); [lia|].
    pose proof (readBuf_rec_untouched _ _ _ _ _ Hr1)
      as (Hs & _ & _ & Hc & _).
    destruct (IH r1) as ((r & Hr & Hh & Hrun' & Hat') & Hstream);
      [congruence | by rewrite Hc | exact Hat1 |].
    split.
    + exists r. cbn [fmap list_fmap rx]. unfold IsStopped. rewrite Hrun.
      unfold rx_iter, readBuf. destruct Hconn as [cn ->]. rewrite Hr1.
      split; [exact Hr|]. split; [|done].
      rewrite Hh, Hh1. by rewrite <- app_assoc.
    + cbn [concat]. rewrite app_assoc, (read_whole_stream _ _ _ _ Hread).
      rewrite <- app_assoc, Hstream, fmap_app, concat_app.
      by rewrite <- app_assoc.
Qed.

(** ** The value of a length prefix *)

Lemma byte_val_range (b : byte) : 0 <= byte_val b < 256.
Proof.
  unfold byte_val. pose proof (Byte.to_N_bounded b). lia.
Qed.

Lemma byte_of_Z_val (b : byte) : byte_of_Z (byte_val b) = b.
Proof.
  unfold byte_of_Z. rewrite Z.mod_small by apply byte_val_range.
  unfold byte_val. by rewrite N2Z.id, Byte.of_to_N.
Qed.

Lemma byte_of_Z_mod (z : Z) : byte_of_Z (z mod 256) = byte_of_Z z.
Proof. unfold byte_of_Z. by rewrite Z.mod_mod. Qed.

(** [Uint32] of four bytes is their big-endian value. *)
Lemma Uint32_value (b0 b1 b2 b3 : byte) (rest : list byte) :
  BigEndian_Uint32 (b0 :: b1 :: b2 :: b3 :: rest)
  = Some (byte_val b0 * 2 ^ 24 + byte_val b1 * 2 ^ 16
          + byte_val b2 * 2 ^ 8 + byte_val b3).
Proof.
  pose proof (byte_val_range b0). pose proof (byte_val_range b1).
  pose proof (byte_val_range b2). pose proof (byte_val_range b3).
  set (v := byte_val b0 * 2 ^ 24 + byte_val b1 * 2 ^ 16
            + byte_val b2 * 2 ^ 8 + byte_val b3).
  assert (Hv : 0 <= v < 2 ^ 32) by (unfold v; lia).
  rewrite <- (Uint32_PutUint32 v rest Hv). f_equal.
  unfold BigEndian_PutUint32. cbn [app].
  assert (H24 : Z.shiftr v 24 = byte_val b0).
  { rewrite Z.shiftr_div_pow2 by lia. symmetry.
    apply (Z.div_unique v (2 ^ 24) (byte_val b0)
             (byte_val b1 * 2 ^ 16 + byte_val b2 * 2 ^ 8 + byte_val b3));
      unfold v; lia. }
  assert (H16 : Z.shiftr v 16 mod 256 = byte_val b1).
  { rewrite Z.shiftr_div_pow2 by lia.
    rewrite <- (Z.div_unique v (2 ^ 16) (byte_val b0 * 256 + byte_val b1)
                  (byte_val b2 * 2 ^ 8 + byte_val b3))
      by (unfold v; lia).
    symmetry. apply (Z.mod_unique _ 256 (byte_val b0)); lia. }
  assert (H8 : Z.shiftr v 8 mod 256 = byte_val b2).
  { rewrite Z.shiftr_div_pow2 by lia.
    rewrite <- (Z.div_unique v (2 ^ 8)
                  (byte_val b0 * 2 ^ 16 + byte_val b1 * 256 + byte_val b2)
                  (byte_val b3))
      by (unfold v; lia).
    symmetry.
    apply (Z.mod_unique _ 256 (byte_val b0 * 256 + byte_val b1)); lia. }
  assert (Hlow : v mod 256 = byte_val b3).
  { symmetry.
    apply (Z.mod_unique _ 256
             (byte_val b0 * 2 ^ 16 + byte_val b1 * 256 + byte_val b2));
      unfold v; lia. }
  rewrite H24, byte_of_Z_val.
  rewrite <- (byte_of_Z_mod (Z.shiftr v 16)), H16, byte_of_Z_val.
  rewrite <- (byte_of_Z_mod (Z.shiftr v 8)), H8, byte_of_Z_val.
  rewrite <- (byte_of_Z_mod v), Hlow, byte_of_Z_val. reflexivity.
Qed.

Lemma Uint32_range (l : list byte) :
  (4 <= length l)%nat ->
  exists u, BigEndian_Uint32 l = Some u /\ 0 <= u < 2 ^ 32.
Proof.
  destruct l as [|b0 [|b1 [|b2 [|b3 rest]]]]; simpl; try lia. intros _.
  pose proof (byte_val_range b0). pose proof (byte_val_range b1).
  pose proof (byte_val_range b2). pose proof (byte_val_range b3).
  eexists. split; [apply (Uint32_value b0 b1 b2 b3 rest)|]. lia.
Qed.

Lemma slice_None {A : Type} (s : list A) (lo hi : Z) :
  slice s lo hi = None -> ~ (0 <= lo /\ lo <= hi /\ hi <= len s).
Proof.
  unfold slice.
  destruct (Z.leb_spec 0 lo), (Z.leb_spec lo hi), (Z.leb_spec hi (len s));
    simpl; (discriminate || lia).
Qed.

(** ** No panic where [int] has 64 bits *)

Lemma codec_inv_delivered (buf : list byte) (rn : RemoteNode) :
  codec_inv (delivered buf rn).
Proof. left. cbn. split; [done | lia]. Qed.

Lemma readBuf_rec_went_well (fuel : nat) :
  arch = Arch64 ->
  forall buf rn, codec_inv rn -> went_well (readBuf_rec fuel buf rn).
Proof.
  intros Harch. induction fuel as [|f IH]; intros buf rn Hinv; [done|].
  cbn [readBuf_rec].
  destruct (Z.eqb_spec (len buf) 0); [done|].
  assert (Hbody : forall (b : list byte) (r : RemoteNode),
             0 <= rxBuf_len r ->
             went_well
               (if len b =? rxBuf_len r then Returns (delivered b r, None)
                else if len b <? rxBuf_len r then
                  Returns (set_rxBuf_len (rxBuf_len r - len b)
                             (set_rxBuf_buf (rxBuf_buf r ++ b) r), None)
                else
                  match slice b 0 (rxBuf_len r),
                        slice b (rxBuf_len r) (len b) with
                  | Some front, Some rest' =>
                      readBuf_rec f rest' (delivered front r)
                  | _, _ => Panics "slice bounds out of range"
                  end)).
  { intros b r Hr.
    destruct (Z.eqb_spec (len b) (rxBuf_len r));
      [split; [done | apply codec_inv_delivered]|].
    destruct (Z.ltb_spec (len b) (rxBuf_len r)).
    { split; [done|]. right. cbn. lia. }
    destruct (slice b 0 (rxBuf_len r)) eqn:H1;
      [|apply slice_None in H1; lia].
    destruct (slice b (rxBuf_len r) (len b)) eqn:H2;
      [|apply slice_None in H2; lia].
    apply IH, codec_inv_delivered. }
  destruct (Z.eqb_spec (rxBuf_len rn) 0) as [Hl|Hl].
  - destruct Hinv as [[_ Hh] | ?]; [|lia]. unfold msgLenBytes.
    destruct (Z.gtb_spec (4 - len (rxBuf_buf rn)) (len buf)).
    { split; [done|]. left. cbn. rewrite length_app. lia. }
    destruct (slice buf 0 (4 - len (rxBuf_buf rn))) as [head|] eqn:H1;
      [|apply slice_None in H1; lia].
    destruct (slice buf (4 - len (rxBuf_buf rn)) (len buf)) as [rest|] eqn:H2;
      [|apply slice_None in H2; lia].
    cbn [rxBuf_buf set_rxBuf_buf].
    apply slice_Some in H1 as (_ & _ & _ & ->).
    destruct (Uint32_range
                (rxBuf_buf rn
                 ++ take (Z.to_nat (4 - len (rxBuf_buf rn) - 0))
                      (drop (Z.to_nat 0) buf)))
      as (u & -> & Hu).
    { rewrite length_app, length_take, length_drop. lia. }
    cbn [rxBuf_len set_rxBuf_len]. rewrite Harch.
    assert (Hint : int_of_uint32 Arch64 u = u).
    { unfold int_of_uint32. cbn [intSize]. rewrite Z.mod_small by lia.
      destruct (Z.ltb_spec u (2 ^ (64 - 1))); [done|lia]. }
    rewrite Hint. destruct (Z.ltb_spec u 0); [lia|].
    match goal with
    | |- went_well
           (if len ?b =? _ then Returns (set_rxBuf_len 0 _, _) else _) =>
        pose proof (Hbody b
                      (set_rxBuf_len u
                         (set_rxBuf_buf
                            (rxBuf_buf rn
                             ++ take (Z.to_nat (4 - len (rxBuf_buf rn) - 0))
                                  (drop (Z.to_nat 0) buf)) rn))) as Hb
    end.
    apply Hb. cbn. lia.
  - apply Hbody. destruct Hinv as [[? _] | ?]; lia.
Qed.

Lemma Stop_keeps_codec (err : option string) (rn : RemoteNode) :
  rxBuf_buf (Stop err rn) = rxBuf_buf rn
  /\ rxBuf_len (Stop err rn) = rxBuf_len rn
  /\ conn (Stop err rn) = conn rn
  /\ rxMsgChan (Stop err rn) = rxMsgChan rn
  /\ txMsgChan (Stop err rn) = txMsgChan rn
  /\ now (Stop err rn) = now rn.
Proof.
  destruct (StopOnce rn) eqn:Hrn.
  - by rewrite Stop_done.
  - by destruct (Stop_first_trace err rn Hrn) as (w & vs & -> & _).
Qed.

(** X8. Where [int] has 64 bits, the receive loop never panics and
    [readBuf] never returns an error: whatever the reads bring (any bytes
    in any chunks, end of stream, errors), from a node whose reassembly
    state is in order (as that of a new node is), [readBuf] returns
    without error on any bytes, and [rx] returns and leaves the
    reassembly state in order. *)
Theorem rx_never_panics_where_int_has_64_bits (reads : list ReadResult) :
  arch = Arch64 ->
  forall rn : RemoteNode,
    is_Some (conn rn) -> codec_inv rn ->
    (forall bs, exists r', readBuf bs rn = Returns (r', None) /\ codec_inv r')
    /\ exists r, rx reads rn = Returns r /\ codec_inv r /\ is_Some (conn r).
Proof.
  intros Harch.
  assert (Hread : forall rn bs, codec_inv rn ->
             exists r', readBuf bs rn = Returns (r', None) /\ codec_inv r').
  { intros rn bs Hinv.
    pose proof (readBuf_returns_or_panics bs rn) as Hfuel.
    pose proof (readBuf_rec_went_well (S (S (length bs))) Harch bs rn Hinv)
      as Hwell.
    unfold readBuf in *.
    destruct (readBuf_rec (S (S (length bs))) bs rn) as [[r e]| |];
      [| done | done].
    destruct Hwell as [-> Hinv']. by exists r. }
  induction reads as [|rd reads IH]; intros rn Hconn Hinv;
    (split; [intros bs; by apply Hread|]);
    cbn [rx]; destruct (IsStopped rn); try (by exists rn).
  assert (Hstop : forall cause,
             exists r, rx reads (Stop (Some cause) rn) = Returns r
                       /\ codec_inv r /\ is_Some (conn r)).
  { intros cause.
    destruct (Stop_keeps_codec (Some cause) rn) as (Hb & Hl & Hc & _).
    apply IH; [by rewrite Hc|]. unfold codec_inv. by rewrite Hb, Hl. }
  unfold rx_iter. destruct Hconn as [cn Hconn]. rewrite Hconn.
  destruct rd as [bs| |e]; [| apply Hstop | apply Hstop].
  destruct (Hread rn bs Hinv) as (r' & Hr & Hinv'). rewrite Hr.
  unfold readBuf in Hr.
  apply readBuf_rec_untouched in Hr as (_ & _ & _ & Hc & _).
  apply IH; [rewrite Hc, Hconn; by eexists | exact Hinv'].
Qed.

(** ** A length that overflows where [int] has 32 bits *)

Lemma readBuf_rec_negative (f : nat) (buf : list byte) (rn : RemoteNode) :
  buf <> [] -> rxBuf_len rn < 0 ->
  readBuf_rec (S f) buf rn = Panics "slice bounds out of range".
Proof.
  intros Hbuf Hl. rewrite readBuf_rec_body by (done || lia).
  assert (0 < len buf) by (destruct buf; [done | simpl; lia]).
  destruct (Z.eqb_spec (len buf) (rxBuf_len rn)); [lia|].
  destruct (Z.ltb_spec (len buf) (rxBuf_len rn)); [lia|].
  unfold slice at 1.
  destruct (Z.leb_spec 0 (rxBuf_len rn)); [lia|]. reflexivity.
Qed.

(** X9. Where [int] has 32 bits, a length prefix whose first byte has
    its high bit set makes [readBuf] return its overflow error, whatever
    follows the prefix in the read.  [rx] logs the error and goes on with
    the node running and the negative length kept; nothing of the read is
    handed over.  The next read that brings any byte then panics on a
    slice bound. *)
Theorem overflowing_length_then_panic_where_int_has_32_bits
    (b0 b1 b2 b3 : byte) (rest next : list byte) (rn : RemoteNode) :
  arch = Arch32 -> 128 <= byte_val b0 ->
  isStopped rn = false -> is_Some (conn rn) ->
  rxBuf_buf rn = [] -> rxBuf_len rn = 0 -> next <> [] ->
  (exists r,
      rx [ReadBytes (b0 :: b1 :: b2 :: b3 :: rest)] rn = Returns r
      /\ isStopped r = false
      /\ rxBuf_len r < 0
      /\ handled r = handled rn
      /\ closes (trace r) = closes (trace rn))
  /\ rx [ReadBytes (b0 :: b1 :: b2 :: b3 :: rest); ReadBytes next] rn
     = Panics "slice bounds out of range".
Proof.
  intros Harch Hb0 Hrun [cn Hconn] Hb Hl Hnext.
  pose proof (byte_val_range b0). pose proof (byte_val_range b1).
  pose proof (byte_val_range b2). pose proof (byte_val_range b3).
  set (u := byte_val b0 * 2 ^ 24 + byte_val b1 * 2 ^ 16
            + byte_val b2 * 2 ^ 8 + byte_val b3).
  assert (Hint : int_of_uint32 arch u = u - 2 ^ 32).
  { rewrite Harch. unfold int_of_uint32. cbn [intSize].
    rewrite Z.mod_small by (unfold u; lia).
    destruct (Z.ltb_spec u (2 ^ (32 - 1))); [unfold u in *; lia | done]. }
  assert (Hread : exists e,
             readBuf (b0 :: b1 :: b2 :: b3 :: rest) rn
             = Returns (set_rxBuf_len (u - 2 ^ 32)
                          (set_rxBuf_buf [b0; b1; b2; b3] rn), Some e)).
  { unfold readBuf.
    generalize (S (length (b0 :: b1 :: b2 :: b3 :: rest))) as f. intros f.
    change (b0 :: b1 :: b2 :: b3 :: rest) with ([b0; b1; b2; b3] ++ rest).
    assert (Hlen : len ([b0; b1; b2; b3] ++ rest) = 4 + len rest)
      by (rewrite length_app, Nat2Z.inj_add; reflexivity).
    pose proof (slice_app_l [b0; b1; b2; b3] rest) as Hsl.
    pose proof (slice_app_r [b0; b1; b2; b3] rest) as Hsr.
    change (len [b0; b1; b2; b3]) with 4 in Hsl, Hsr.
    remember ([b0; b1; b2; b3] ++ rest) as buf eqn:Hbuf.
    cbn [readBuf_rec]. rewrite Hl, Hb.
    destruct (Z.eqb_spec (len buf) 0); [pose proof (Nat2Z.is_nonneg (length rest)); lia|].
    change (0 =? 0) with true. cbn iota.
    replace (msgLenBytes - len (@nil byte)) with 4 by reflexivity.
    destruct (Z.gtb_spec 4 (len buf)); [lia|].
    rewrite Hsl, Hsr. cbn [rxBuf_buf set_rxBuf_buf app].
    rewrite (Uint32_value b0 b1 b2 b3 []). fold u.
    cbn [rxBuf_len set_rxBuf_len]. rewrite Hint.
    destruct (Z.ltb_spec (u - 2 ^ 32) 0); [|unfold u in *; lia].
    by eexists. }
  destruct Hread as [e Hread].
  assert (Hrx : rx_iter (ReadBytes (b0 :: b1 :: b2 :: b3 :: rest)) rn
                = Returns (log LWarn ("Read buffer error: " +:+ e)
                             (set_rxBuf_len (u - 2 ^ 32)
                                (set_rxBuf_buf [b0; b1; b2; b3] rn))))
    by (unfold rx_iter; by rewrite Hconn, Hread).
  split.
  - eexists. cbn [rx]. unfold IsStopped. rewrite Hrun, Hrx.
    unfold log, emit, handled. simpl. rewrite Hrun.
    split; [reflexivity|]. simpl. split; [done|].
    split; [unfold u in *; lia|].
    rewrite omap_app, closes_app. simpl.
    by rewrite app_nil_r, Nat.add_0_r.
  - cbn [rx]. unfold IsStopped. rewrite Hrun, Hrx.
    unfold log, emit. simpl. rewrite Hrun. unfold rx_iter. simpl.
    rewrite Hconn. unfold readBuf.
    rewrite readBuf_rec_negative;
      [done | done | simpl; unfold u in *; lia].
Qed.

(** ** What a first [Stop] changes *)

Lemma Stop_first_view (err : option string) (rn : RemoteNode) :
  StopOnce rn = false ->
  isStopped (Stop err rn) = true
  /\ StopOnce (Stop err rn) = true
  /\ written (Stop err rn) = written rn
  /\ handled (Stop err rn) = handled rn
  /\ calls CatReady (trace (Stop err rn)) = calls CatReady (trace rn)
  /\ closes (trace (Stop err rn))
     = (closes (trace rn) + if conn rn is Some _ then 1 else 0)%nat
  /\ lifeCycleStops (trace (Stop err rn)) = S (lifeCycleStops (trace rn))
  /\ EvLog (if err is Some _ then LWarn else LInfo)
       (match err with
        | Some e => "Remote node stops because of error: " +:+ e
        | None => "Remote node stops"
        end) ∈ trace (Stop err rn)
  /\ Node_Node (Stop err rn) = Node_Node rn
  /\ LocalNode (Stop err rn) = LocalNode rn.
Proof.
  intros Hguard.
  destruct (Stop_first_trace err rn Hguard) as (w & vs & -> & _).
  unfold written, handled.
  cbn [isStopped StopOnce trace Node_Node LocalNode
       set_StopOnce set_trace set_world set_isStopped].
  assert (Hmw : forall {B} (f : Event -> option B),
             (forall c j v, f (EvMiddleware c j v) = None) ->
             omap f (imap (fun j v => EvMiddleware CatDisconnected j v) vs)
             = []).
  { intros B f Hf. apply omap_none. intros x Hx.
    apply elem_of_lookup_imap in Hx as (j & v & -> & _). apply Hf. }
  repeat split.
  - rewrite !omap_app, Hmw by done.
    destruct (conn rn); simpl; by rewrite !app_nil_r.
  - rewrite !omap_app, Hmw by done.
    destruct (conn rn); simpl; by rewrite !app_nil_r.
  - rewrite !calls_app, (calls_other CatDisconnected CatReady 0) by done.
    destruct (conn rn); simpl; by rewrite !app_nil_r.
  - rewrite !closes_app, (closes_middleware CatDisconnected 0).
    destruct (conn rn); unfold closes at 2 3; simpl; lia.
  - rewrite !lifeCycleStops_app,
      (lifeCycleStops_middleware CatDisconnected 0).
    destruct (conn rn); unfold lifeCycleStops at 2 3; simpl; lia.
  - rewrite !elem_of_app. right. left. by left.
Qed.

(** ** The transmit loop when a write fails, and on keep-alive turns *)

(** X10. When the write of the length prefix fails, [tx] stops the node
    with that error as the cause, and still attempts the write of the
    body; whatever the second write returns, the shutdown runs once
    (one close of the connection, one life-cycle stop).  The loop then
    ends: the messages behind the failed one stay in the outbound queue,
    unsent. *)
Theorem tx_stops_on_first_write_failure (e : string) (werr2 : option string)
    (sels : list TxSelect) (msg : protobuf_Message)
    (q : list protobuf_Message) (buf : list byte) (rn : RemoteNode) :
  isStopped rn = false -> StopOnce rn = false -> is_Some (conn rn) ->
  chan_buf (txMsgChan rn) = msg :: q -> proto_Marshal msg = Ok buf ->
  exists r,
    tx (TxMsg (Some e) werr2 :: sels) rn = Returns r
    /\ isStopped r = true
    /\ chan_buf (txMsgChan r) = q
    /\ EvLog LWarn ("Remote node stops because of error: "
                    +:+ ("Write to conn error: " +:+ e)) ∈ trace r
    /\ closes (trace r) = S (closes (trace rn))
    /\ lifeCycleStops (trace r) = S (lifeCycleStops (trace rn))
    /\ written r
       = written rn ++ (if werr2 is Some _ then [] else [buf]).
Proof.
  intros Hrun Hguard [cn Hconn] Hq Hbuf.
  set (rn0 := set_txMsgChan (mkChan (chan_cap (txMsgChan rn)) q) rn).
  set (rn1 := Stop (Some ("Write to conn error: " +:+ e)) rn0).
  assert (Hg0 : StopOnce rn0 = false) by exact Hguard.
  destruct (Stop_first_view (Some ("Write to conn error: " +:+ e)) rn0 Hg0)
    as (Hs & Hg1 & Hw & _ & _ & Hc & Hl & Hlog & _).
  destruct (Stop_keeps_codec (Some ("Write to conn error: " +:+ e)) rn0)
    as (_ & _ & _ & _ & Htx & _).
  fold rn1 in Hs, Hg1, Hw, Hc, Hl, Hlog, Htx.
  assert (Hiter : tx_iter (TxMsg (Some e) werr2) rn
                  = Returns (conn_Write buf werr2 rn1)).
  { unfold tx_iter, chan_recv. rewrite Hq, Hbuf.
    cbn [conn set_txMsgChan]. by rewrite Hconn. }
  exists (conn_Write buf werr2 rn1).
  assert (Hstopped : isStopped (conn_Write buf werr2 rn1) = true).
  { destruct werr2 as [e2|]; cbn [conn_Write].
    - by rewrite Stop_done.
    - exact Hs. }
  split.
  { cbn [tx]. unfold IsStopped. rewrite Hrun, Hiter.
    destruct sels; cbn [tx]; unfold IsStopped; by rewrite Hstopped. }
  split; [exact Hstopped|].
  assert (Hconn0 : conn rn0 = Some cn) by exact Hconn.
  rewrite Hconn0 in Hc.
  destruct werr2 as [e2|]; cbn [conn_Write].
  - rewrite Stop_done by done. rewrite Htx, Hw, Hc, Hl, app_nil_r.
    repeat split; try done. unfold closes, rn0. simpl. lia.
  - unfold emit, written in *. cbn [txMsgChan trace set_trace].
    rewrite Htx, omap_app, closes_app, lifeCycleStops_app, Hw, Hc, Hl.
    split; [done|]. split; [rewrite elem_of_app; by left|].
    split; [unfold closes, rn0; simpl; lia|].
    split; [unfold lifeCycleStops, rn0; simpl; lia | done].
Qed.

(** ** Queues under repeated non-blocking sends *)

Lemma chan_offer_app {A : Type} (c : Chan A) (xs ys : list A) :
  chan_offer c (xs ++ ys) = chan_offer (chan_offer c xs) ys.
Proof. unfold chan_offer. by rewrite fold_left_app. Qed.

Lemma chan_offer_cap {A : Type} (xs : list A) :
  forall c : Chan A, chan_cap (chan_offer c xs) = chan_cap c.
Proof.
  induction xs as [|x xs IH]; intros c; [done|].
  cbn [chan_offer fold_left]. fold (chan_offer (A:=A)).
  change (fold_left _ xs ?c') with (chan_offer c' xs). rewrite IH.
  unfold chan_try_send. by destruct (_ <? _).
Qed.

(** A queue within its capacity keeps, of what it is offered, what fits. *)
Lemma chan_offer_take {A : Type} (xs : list A) :
  forall c : Chan A,
    chan_within c ->
    chan_offer c xs
    = mkChan (chan_cap c)
        (take (Z.to_nat (chan_cap c)) (chan_buf c ++ xs)).
Proof.
  induction xs as [|x xs IH]; intros [cap buf] Hin;
    unfold chan_within in Hin; cbn [chan_cap chan_buf] in *.
  - cbn. by rewrite app_nil_r, take_ge by lia.
  - cbn [chan_offer fold_left].
    change (fold_left _ xs ?c') with (chan_offer c' xs).
    unfold chan_try_send. cbn [chan_cap chan_buf].
    destruct (Z.ltb_spec (len buf) cap); cbn [from_option id].
    + rewrite IH by (unfold chan_within; cbn [chan_cap chan_buf];
                     rewrite length_app; simpl; lia).
      cbn [chan_cap chan_buf]. by rewrite <- app_assoc.
    + rewrite IH by done. cbn [chan_cap chan_buf].
      by rewrite !take_app_le by lia.
Qed.

Lemma oks_app {A : Type} (a b : list (result A)) :
  oks (a ++ b) = oks a ++ oks b.
Proof. unfold oks. by rewrite omap_app. Qed.

(** ** Keep-alive turns of the transmit loop *)

Lemma set_txMsgChan_same (rn : RemoteNode) : set_txMsgChan (txMsgChan rn) rn = rn.
Proof. by destruct rn. Qed.

Lemma keepAlive_offer (p : result protobuf_Message) (rn : RemoteNode) :
  fst (keepAlive p rn)
  = set_txMsgChan (chan_offer (txMsgChan rn) (oks [p])) rn.
Proof.
  destruct p as [m|e]; unfold oks, chan_offer; cbn [keepAlive omap fold_left].
  - unfold SendMessageAsync, SendMessage. cbn.
    destruct (chan_try_send (txMsgChan rn) m); cbn; [done|].
    by rewrite set_txMsgChan_same.
  - cbn. by rewrite set_txMsgChan_same.
Qed.

(** X11. Keep-alive turns of [tx] only queue pings.  However many times
    the keep-alive timer fires in a row, the loop returns with the node
    running and nothing written or logged: each ping that was built is
    put behind the messages waiting in the outbound queue while the queue
    has room, and dropped without a trace once it is full; a ping that
    could not be built is skipped. *)
Theorem keepAlive_turns_only_queue_pings
    (pings : list (result protobuf_Message)) (rn : RemoteNode) :
  isStopped rn = false -> chan_within (txMsgChan rn) ->
  tx (TxKeepAlive <$> pings) rn
  = Returns (set_txMsgChan
               (mkChan (chan_cap (txMsgChan rn))
                  (take (Z.to_nat (chan_cap (txMsgChan rn)))
                     (chan_buf (txMsgChan rn) ++ oks pings))) rn).
Proof.
  intros Hrun Hin. rewrite <- chan_offer_take by done. clear Hin.
  revert rn Hrun. induction pings as [|p pings IH]; intros rn Hrun.
  - cbn [fmap list_fmap tx]. unfold IsStopped. rewrite Hrun.
    cbn. by rewrite set_txMsgChan_same.
  - cbn [fmap list_fmap tx]. unfold IsStopped. rewrite Hrun.
    cbn [tx_iter]. rewrite keepAlive_offer.
    change (list_fmap _ _ TxKeepAlive pings) with (TxKeepAlive <$> pings).
    rewrite IH by (by destruct rn).
    change (p :: pings) with ([p] ++ pings).
    rewrite oks_app, chan_offer_app. by destruct rn.
Qed.

(** ** The loop of [handleMsg] *)

Lemma handleMsg_loop_nil (st : Dispatch) : handleMsg_loop [] st = st.
Proof. cbn. by destruct (IsStopped _). Qed.

Lemma handleMsg_loop_stopped (sels : list HmSelect) (st : Dispatch) :
  isStopped (d_node st) = true -> handleMsg_loop sels st = st.
Proof. intros H. destruct sels; cbn; unfold IsStopped; by rewrite H. Qed.

Lemma handleMsg_loop_app (a b : list HmSelect) :
  forall st : Dispatch,
    handleMsg_loop (a ++ b) st = handleMsg_loop b (handleMsg_loop a st).
Proof.
  induction a as [|s a IH]; intros st.
  - by rewrite handleMsg_loop_nil.
  - cbn [app handleMsg_loop]. destruct (IsStopped (d_node st)) eqn:Hs.
    + by rewrite handleMsg_loop_stopped.
    + apply IH.
Qed.

(** One message taken from [rxMsgChan] and dispatched. *)
Lemma handleMsg_iter_deliver (w : Z) (st : Dispatch) (m : protobuf_Message)
    (ms : list protobuf_Message) :
  chan_buf (rxMsgChan (d_node st)) = m :: ms ->
  chan_buf (rxMsgChan (d_node (handleMsg_iter (HmMsg w None) st))) = ms
  /\ isStopped (d_node (handleMsg_iter (HmMsg w None) st))
     = isStopped (d_node st)
  /\ forall rt,
       d_chans (handleMsg_iter (HmMsg w None) st) !! rt
       = (fun c => chan_offer c
                     (mkRemoteMessage
                        <$> filter (fun m => RoutingType m = rt) [m]))
           <$> d_chans st !! rt.
Proof.
  intros Hq. unfold handleMsg_iter, chan_recv, GetRxMsgChan. rewrite Hq.
  assert (Hother : forall rt (o : option (Chan RemoteMessage)),
             RoutingType m <> rt ->
             o = (fun c => chan_offer c
                             (mkRemoteMessage
                                <$> filter (fun m => RoutingType m = rt) [m]))
                   <$> o).
  { intros rt o Hne. rewrite filter_cons, decide_False by done.
    by destruct o. }
  destruct (d_chans st !! RoutingType m) as [c|] eqn:Hc.
  - destruct (chan_try_send c (mkRemoteMessage m)) as [c'|] eqn:Hsend;
      cbn [d_node d_chans];
      (split; [by destruct (d_node st)|]);
      (split; [by destruct (d_node st)|]);
      intros rt; destruct (decide (RoutingType m = rt)) as [<-|Hne].
    + rewrite lookup_insert_eq, Hc, filter_cons, decide_True by done.
      cbn. unfold chan_offer. cbn. by rewrite Hsend.
    + rewrite lookup_insert_ne by done. by apply Hother.
    + rewrite Hc, filter_cons, decide_True by done.
      cbn. unfold chan_offer. cbn. by rewrite Hsend.
    + by apply Hother.
  - cbn [d_node d_chans].
    (split; [by destruct (d_node st)|]);
    (split; [by destruct (d_node st)|]).
    intros rt; destruct (decide (RoutingType m = rt)) as [<-|Hne].
    + by rewrite Hc.
    + by apply Hother.
Qed.

Lemma handleMsg_loop_deliver (waits : list Z) :
  forall (st : Dispatch) (ms : list protobuf_Message),
    chan_buf (rxMsgChan (d_node st)) = ms ->
    length waits = length ms ->
    isStopped (d_node st) = false ->
    let st' := handleMsg_loop ((fun w => HmMsg w None) <$> waits) st in
    chan_buf (rxMsgChan (d_node st')) = []
    /\ isStopped (d_node st') = false
    /\ forall rt,
         d_chans st' !! rt
         = (fun c => chan_offer c
                       (mkRemoteMessage
                          <$> filter (fun m => RoutingType m = rt) ms))
             <$> d_chans st !! rt.
Proof.
  induction waits as [|w waits IH]; intros st ms Hq Hlen Hrun.
  - destruct ms; [|done]. cbn [fmap list_fmap].
    rewrite handleMsg_loop_nil. cbn zeta. repeat split; try done.
    intros rt. by destruct (d_chans st !! rt).
  - destruct ms as [|m ms]; [done|]. cbn [fmap list_fmap handleMsg_loop].
    unfold IsStopped. rewrite Hrun.
    destruct (handleMsg_iter_deliver w st m ms Hq) as (Hq' & Hrun' & Hch).
    rewrite Hrun in Hrun'. injection Hlen as Hlen.
    destruct (IH _ ms Hq' Hlen Hrun') as (H1 & H2 & H3).
    cbn zeta. split; [exact H1|]. split; [exact H2|].
    intros rt. rewrite H3, Hch.
    change (m :: ms) with ([m] ++ ms).
    rewrite filter_app, fmap_app.
    destruct (d_chans st !! rt) as [c|]; [|done].
    cbn [fmap option_fmap option_map]. by rewrite chan_offer_app.
Qed.

(** X12. [handleMsg] sorts the received messages into the delivery queues
    by routing type, first in first out.  After as many turns of the loop
    as [rxMsgChan] holds messages, none of them with an error from
    [NewRemoteMessage], the node is still running, [rxMsgChan] is empty,
    and the queue of each routing type holds, behind what it held, the
    messages of that type in the order received, as far as its capacity
    allows: the ones that do not fit are dropped.  Messages of a routing
    type without a queue are dropped, and no queue is created. *)
Theorem handleMsg_delivers_by_routing_type (waits : list Z)
    (rn : RemoteNode) (chans : gmap Z (Chan RemoteMessage)) :
  isStopped rn = false ->
  length waits = length (chan_buf (rxMsgChan rn)) ->
  let st := handleMsg ((fun w => HmMsg w None) <$> waits) rn chans in
  chan_buf (rxMsgChan (d_node st)) = []
  /\ isStopped (d_node st) = false
  /\ forall rt,
       match chans !! rt with
       | None => d_chans st !! rt = None
       | Some c =>
           chan_within c ->
           d_chans st !! rt
           = Some (mkChan (chan_cap c)
                     (take (Z.to_nat (chan_cap c))
                        (chan_buf c
                         ++ (mkRemoteMessage
                               <$> filter (fun m => RoutingType m = rt)
                                     (chan_buf (rxMsgChan rn))))))
       end.
Proof.
  intros Hrun Hlen. unfold handleMsg.
  destruct (handleMsg_loop_deliver waits
              (mkDispatch rn chans (now rn + keepAliveTimeout))
              (chan_buf (rxMsgChan rn)) eq_refl Hlen Hrun) as (H1 & H2 & H3).
  cbn zeta. split; [exact H1|]. split; [exact H2|].
  intros rt. rewrite H3. cbn [d_chans].
  destruct (chans !! rt) as [c|]; [|done].
  intros Hin. cbn [fmap option_fmap option_map].
  by rewrite chan_offer_take.
Qed.

(** One message taken from [rxMsgChan] that cannot be dispatched. *)
Lemma handleMsg_iter_undeliverable (w : Z) (e : option string)
    (st : Dispatch) (m : protobuf_Message) (ms : list protobuf_Message) :
  chan_buf (rxMsgChan (d_node st)) = m :: ms ->
  is_Some e \/ d_chans st !! RoutingType m = None ->
  let st' := handleMsg_iter (HmMsg w e) st in
  chan_buf (rxMsgChan (d_node st')) = ms
  /\ isStopped (d_node st') = isStopped (d_node st)
  /\ StopOnce (d_node st') = StopOnce (d_node st)
  /\ conn (d_node st') = conn (d_node st)
  /\ closes (trace (d_node st')) = closes (trace (d_node st))
  /\ now (d_node st') = now (d_node st) + Z.max 0 w
  /\ d_chans st' = d_chans st
  /\ d_timer st' = d_timer st.
Proof.
  intros Hq Hbad. unfold handleMsg_iter, chan_recv, GetRxMsgChan.
  rewrite Hq. cbn zeta.
  assert (Hlog : forall msg rn,
             closes (trace (log LError msg rn)) = closes (trace rn)).
  { intros msg rn. unfold log, emit. cbn [trace set_trace].
    rewrite closes_app. unfold closes at 2. simpl. lia. }
  destruct e as [e|].
  - cbn [d_node d_chans d_timer]. rewrite Hlog.
    by destruct (d_node st).
  - destruct Hbad as [[? [=]]|Hnone]. rewrite Hnone.
    cbn [d_node d_chans d_timer]. rewrite Hlog.
    by destruct (d_node st).
Qed.

Lemma handleMsg_loop_undeliverable (chans : gmap Z (Chan RemoteMessage))
    (sels : list HmSelect) (ms : list protobuf_Message) :
  Forall2 (fun s m =>
             exists w e,
               s = HmMsg w e
               /\ (is_Some e \/ chans !! RoutingType m = None)) sels ms ->
  forall st : Dispatch,
    d_chans st = chans -> chan_buf (rxMsgChan (d_node st)) = ms ->
    isStopped (d_node st) = false ->
    let st' := handleMsg_loop sels st in
    isStopped (d_node st') = false
    /\ StopOnce (d_node st') = StopOnce (d_node st)
    /\ conn (d_node st') = conn (d_node st)
    /\ closes (trace (d_node st')) = closes (trace (d_node st))
    /\ chan_buf (rxMsgChan (d_node st')) = []
    /\ d_chans st' = chans
    /\ d_timer st' = d_timer st.
Proof.
  induction 1 as [|s m sels ms (w & e & -> & Hbad) _ IH];
    intros st Hch Hq Hrun; cbn zeta.
  - by rewrite handleMsg_loop_nil.
  - cbn [handleMsg_loop]. unfold IsStopped. rewrite Hrun.
    rewrite <- Hch in Hbad.
    destruct (handleMsg_iter_undeliverable w e st m ms Hq Hbad)
      as (Hq' & Hs & Hg & Hc & Hcl & _ & Hch' & Ht).
    rewrite <- Hg, <- Hc, <- Hcl, <- Ht.
    apply IH; congruence.
Qed.

(** X13. Messages that cannot be dispatched do not postpone the
    keep-alive timeout.  While every message [handleMsg] takes from
    [rxMsgChan] fails in [NewRemoteMessage] or has a routing type without
    a delivery queue, the loop goes on without resetting its timer: the
    delivery queues stay as they were and the timer still fires at the
    time set when the loop started.  When it fires, the node is stopped
    with the cause "keepalive timeout", its connection closed once, and
    the loop ends. *)
Theorem undeliverable_messages_do_not_postpone_timeout
    (sels more : list HmSelect) (rn : RemoteNode)
    (chans : gmap Z (Chan RemoteMessage)) :
  isStopped rn = false -> StopOnce rn = false -> is_Some (conn rn) ->
  Forall2 (fun s m =>
             exists w e,
               s = HmMsg w e
               /\ (is_Some e \/ chans !! RoutingType m = None))
    sels (chan_buf (rxMsgChan rn)) ->
  let st := handleMsg sels rn chans in
  let st2 := handleMsg (sels ++ HmTimer :: more) rn chans in
  (isStopped (d_node st) = false
   /\ chan_buf (rxMsgChan (d_node st)) = []
   /\ d_chans st = chans
   /\ d_timer st = now rn + keepAliveTimeout)
  /\ (isStopped (d_node st2) = true
      /\ now (d_node st2)
         = Z.max (now (d_node st)) (now rn + keepAliveTimeout)
      /\ d_chans st2 = chans
      /\ closes (trace (d_node st2)) = S (closes (trace rn))
      /\ EvLog LWarn "Remote node stops because of error: keepalive timeout"
         ∈ trace (d_node st2)).
Proof.
  intros Hrun Hguard [cn Hconn] Hall. unfold handleMsg.
  rewrite handleMsg_loop_app.
  set (st0 := mkDispatch rn chans (now rn + keepAliveTimeout)).
  destruct (handleMsg_loop_undeliverable chans sels _ Hall st0
              eq_refl eq_refl Hrun) as (Hs & Hg & Hc & Hcl & Hq & Hch & Ht).
  cbn [d_node d_timer st0] in Hg, Hc, Hcl, Ht.
  rewrite Hguard in Hg. rewrite Hconn in Hc.
  cbn zeta. split; [done|].
  set (st1 := handleMsg_loop sels st0) in *.
  cbn [handleMsg_loop]. unfold IsStopped. rewrite Hs.
  set (rn1 := set_now (Z.max (now (d_node st1)) (d_timer st1)) (d_node st1)).
  assert (Hg1 : StopOnce rn1 = false) by exact Hg.
  destruct (Stop_first_view (Some "keepalive timeout") rn1 Hg1)
    as (Hs2 & _ & _ & _ & _ & Hcl2 & _ & Hlog & _).
  destruct (Stop_keeps_codec (Some "keepalive timeout") rn1)
    as (_ & _ & _ & _ & _ & Hnow).
  assert (Hiter : handleMsg_iter HmTimer st1
                  = mkDispatch (Stop (Some "keepalive timeout") rn1)
                      (d_chans st1)
                      (now (Stop (Some "keepalive timeout") rn1)
                       + keepAliveTimeout)) by reflexivity.
  rewrite Hiter, handleMsg_loop_stopped by exact Hs2.
  cbn [d_node d_chans]. split; [exact Hs2|].
  split; [rewrite Hnow; unfold rn1; cbn [now set_now]; by rewrite Ht|].
  split; [exact Hch|]. split; [|exact Hlog].
  rewrite Hcl2.
  replace (conn rn1) with (conn (d_node st1))
    by (unfold rn1; by destruct (d_node st1)).
  replace (trace rn1) with (trace (d_node st1))
    by (unfold rn1; by destruct (d_node st1)).
  rewrite Hc, Hcl. lia.
Qed.

(** ** A synchronous send and its reply *)

Lemma SendMessageSync_sent (msg : protobuf_Message)
    (arrival : option (Z * RemoteMessage)) (rn : RemoteNode) :
  ~ chan_full (txMsgChan rn) ->
  slot_free (MessageId msg) (now rn) (LocalNode rn) ->
  sent_only rn (fst (SendMessageSync msg arrival rn))
  /\ chan_buf (txMsgChan (fst (SendMessageSync msg arrival rn)))
     = chan_buf (txMsgChan rn) ++ [msg]
  /\ match arrival with
     | Some (d, reply) =>
         if d <? replyTimeout then
           snd (SendMessageSync msg arrival rn) = Ok reply
           /\ now (fst (SendMessageSync msg arrival rn)) = now rn + Z.max 0 d
           /\ replyChan (LocalNode (fst (SendMessageSync msg arrival rn)))
              !! MessageId msg = None
         else
           snd (SendMessageSync msg arrival rn) = Err "Wait for reply timeout"
           /\ now (fst (SendMessageSync msg arrival rn))
              = now rn + replyTimeout
     | None =>
         snd (SendMessageSync msg arrival rn) = Err "Wait for reply timeout"
         /\ now (fst (SendMessageSync msg arrival rn)) = now rn + replyTimeout
     end.
Proof.
  intros Hroom Hfree. unfold SendMessageSync, SendMessage.
  rewrite chan_try_send_room by done.
  cbn [now LocalNode set_txMsgChan].
  rewrite AllocReplyChan_free by done.
  destruct arrival as [[d reply]|]; [destruct (d <? replyTimeout)|];
    cbn [fst snd]; unfold sent_only, fulfilReplyChan;
    cbn [Node_Node StartOnce StopOnce isStopped LocalNode IsOutbound conn
         rxBuf_buf rxBuf_len rxMsgChan txMsgChan now world trace middleware
         replyChan chan_buf set_now set_LocalNode set_txMsgChan];
    repeat split; try done.
  apply lookup_delete_eq.
Qed.


(** ** The goroutine that completes the node record *)

(** X15. A peer that does not answer the node request in time is
    disconnected.  On a node whose stop guard was not done and whose
    outbound queue has room, with no reply slot outstanding for the
    request: when no reply comes within [replyTimeout], the goroutine
    launched by [Start] stops the node with the timeout as the cause,
    [replyTimeout] after it began, and closes the connection; the node
    record stays unset and no ready middleware runs. *)
Theorem Start_ready_stops_node_when_peer_is_silent (msg : protobuf_Message)
    (arrival : option (Z * RemoteMessage)) (rn : RemoteNode) :
  StopOnce rn = false -> is_Some (conn rn) ->
  ~ chan_full (txMsgChan rn) ->
  slot_free (MessageId msg) (now rn) (LocalNode rn) ->
  never_in_time arrival ->
  exists r,
    Start_ready (Ok msg) arrival rn = Returns r
    /\ isStopped r = true
    /\ Node_Node r = Node_Node rn
    /\ calls CatReady (trace r) = calls CatReady (trace rn)
    /\ now r = now rn + replyTimeout
    /\ closes (trace r) = S (closes (trace rn))
    /\ EvLog LWarn ("Remote node stops because of error: "
                    +:+ "Get node error: Wait for reply timeout") ∈ trace r.
Proof.
  intros Hguard [cn Hconn] Hroom Hfree Hlate.
  destruct (SendMessageSync_sent msg arrival rn Hroom Hfree)
    as (Hsent & Hq & Hcase).
  unfold Start_ready, GetNode.
  destruct (SendMessageSync msg arrival rn) as [rn1 res] eqn:Hs.
  cbn [fst snd] in *.
  assert (Hres : res = Err "Wait for reply timeout"
                 /\ now rn1 = now rn + replyTimeout).
  { destruct arrival as [[d reply]|]; [|exact Hcase].
    cbn in Hlate. destruct (Z.ltb_spec d replyTimeout); [lia | exact Hcase]. }
  destruct Hres as [-> Hnow].
  destruct Hsent as (HN & _ & HG & _ & _ & _ & HC & _ & _ & _ & _ & HT).
  assert (Hg1 : StopOnce rn1 = false) by congruence.
  set (cause := "Get node error: " +:+ "Wait for reply timeout").
  destruct (Stop_first_view (Some cause) rn1 Hg1)
    as (Hs2 & _ & _ & _ & Hcalls & Hcl & _ & Hlog & HN2 & _).
  destruct (Stop_keeps_codec (Some cause) rn1)
    as (_ & _ & _ & _ & _ & Hnow2).
  exists (Stop (Some cause) rn1). split; [reflexivity|].
  rewrite Hs2, HN2, HN, Hcalls, Hnow2, Hnow, Hcl, HT, HC, Hconn.
  repeat split; try done. lia.
Qed.

(** X16. When the peer answers the node request in time with a record
    whose address has a port, the goroutine launched by [Start] sets the
    node record and then runs the ready middleware on the node with that
    record set.  An address without a host is completed first: the host
    is taken from the remote address of the connection and joined with
    the port the peer announced, the identifier kept.  The node is not
    stopped by this, and the reply slot of the request is gone. *)
Theorem Start_ready_completes_the_address (msg : protobuf_Message)
    (d : Z) (reply : RemoteMessage) (n : protobuf_Node)
    (host port chost cport : string) (c : Conn) (rn : RemoteNode) :
  ~ chan_full (txMsgChan rn) ->
  slot_free (MessageId msg) (now rn) (LocalNode rn) ->
  d < replyTimeout ->
  proto_Unmarshal_GetNodeReply (Message (Msg reply)) = Ok (Some n) ->
  net_SplitHostPort (Addr n) = Ok (host, port) -> port <> "" ->
  conn rn = Some c ->
  (host = "" -> net_SplitHostPort (conn_RemoteAddr c) = Ok (chost, cport)) ->
  let n' := if String.eqb host ""
            then mkProtoNode (Id n) (net_JoinHostPort chost port)
            else n in
  exists rn2,
    Start_ready (Ok msg) (Some (d, reply)) rn
    = Returns (rangeMiddleware CatReady 0
                 (remoteNodeReady (middleware (LocalNode rn))) rn2)
    /\ info rn2 = mkInfo (Some n') (IsOutbound rn) (isStopped rn)
    /\ world rn2 = world rn
    /\ trace rn2 = trace rn
    /\ replyChan (LocalNode rn2) !! MessageId msg = None
    /\ Node_Node (rangeMiddleware CatReady 0
                    (remoteNodeReady (middleware (LocalNode rn))) rn2)
       = Some n'
    /\ isStopped (rangeMiddleware CatReady 0
                    (remoteNodeReady (middleware (LocalNode rn))) rn2)
       = isStopped rn.
Proof.
  intros Hroom Hfree Hd Hreply Hsplit Hport Hconn Hhost n'.
  destruct (SendMessageSync_sent msg (Some (d, reply)) rn Hroom Hfree)
    as (Hsent & Hq & Hcase).
  destruct (Z.ltb_spec d replyTimeout); [|lia].
  destruct Hcase as (Hres & _ & Hslot).
  unfold Start_ready, GetNode.
  destruct (SendMessageSync msg (Some (d, reply)) rn) as [rn1 res] eqn:Hs.
  cbn [fst snd] in *. subst res. rewrite Hreply, Hsplit.
  destruct (String.eqb_spec port ""); [done|].
  destruct Hsent as (HN & _ & _ & HS & HM & HO & HC & _ & _ & _ & HW & HT).
  exists (set_Node_Node (Some n') rn1).
  split.
  { unfold n'. destruct (String.eqb_spec host "") as [Hh|Hh].
    - rewrite HC, Hconn, (Hhost Hh).
      cbn [LocalNode set_Node_Node]. by rewrite HM.
    - cbn [LocalNode set_Node_Node]. by rewrite HM. }
  rewrite rangeMiddleware_frame.
  unfold info.
  cbn [Node_Node IsOutbound isStopped world trace LocalNode
       set_Node_Node set_trace set_world].
  by rewrite HO, HS, HW, HT.
Qed.

(** ** What [Start] reports *)

(** C10. [Start] returns nil, whatever the node.  The failures of the
    address resolution that come as an error ([GetNode] fails, the
    address does not parse, the port is empty) end in [Stop] with a cause.
    A reply without a node record is missed: [GetNode] returns it with a
    nil error, and the goroutine panics on [n.Addr]; [Stop] is not called
    and no cause is reported. *)
Theorem Start_returns_nil_but_reply_without_node_panics
    (msg : protobuf_Message) (d : Z) (reply : RemoteMessage)
    (rn : RemoteNode) :
  ~ chan_full (txMsgChan rn) ->
  slot_free (MessageId msg) (now rn) (LocalNode rn) ->
  d < replyTimeout ->
  proto_Unmarshal_GetNodeReply (Message (Msg reply)) = Ok None ->
  snd (Start rn) = None
  /\ Start_ready (Ok msg) (Some (d, reply)) rn
     = Panics "nil pointer dereference"
  /\ (forall e,
        Start_ready (Err e) (Some (d, reply)) rn
        = Returns (Stop (Some ("Get node error: " +:+ e)) rn))
  /\ (forall newMsg arrival r,
        Start_ready newMsg arrival rn = Returns r ->
        let rn1 := fst (GetNode newMsg arrival rn) in
        (exists cause, r = Stop (Some cause) rn1)
        \/ (exists n,
              r = rangeMiddleware CatReady 0
                    (remoteNodeReady (middleware (LocalNode rn1)))
                    (set_Node_Node (Some n) rn1))).
Proof.
  intros Hroom Hfree Hd Hreply.
  split; [reflexivity|]. split; [|split].
  - destruct (SendMessageSync_sent msg (Some (d, reply)) rn Hroom Hfree)
      as (_ & _ & Hcase).
    destruct (Z.ltb_spec d replyTimeout); [|lia].
    destruct Hcase as (Hres & _).
    unfold Start_ready, GetNode.
    destruct (SendMessageSync msg (Some (d, reply)) rn) as [rn1 res].
    cbn [snd] in Hres. subst res. by rewrite Hreply.
  - intros e. reflexivity.
  - intros newMsg arrival r. apply Start_ready_cases.
Qed.

(** ** What received bytes cannot do *)

(** X18. Received bytes never stop the node.  Whatever bytes the reads
    bring, well-formed or not, when [rx] returns it has changed nothing
    but the reassembly buffer, the inbound queue and the log: the node is
    not stopped, the connection not closed, the life-cycle guards, the
    outbound queue and the local node are as they were. *)
Theorem received_bytes_never_stop_the_node (reads : list (list byte)) :
  forall rn r : RemoteNode,
    rx (ReadBytes <$> reads) rn = Returns r -> untouched_by_codec rn r.
Proof.
  induction reads as [|bs reads IH]; intros rn r; cbn [fmap list_fmap rx].
  - destruct (IsStopped rn); intros [= <-]; apply untouched_refl.
  - destruct (IsStopped rn); [intros [= <-]; apply untouched_refl|].
    destruct (rx_iter (ReadBytes bs) rn) as [r1| |] eqn:Hit; [|done|done].
    intros Hr. apply rx_iter_ReadBytes_untouched in Hit.
    eapply untouched_trans; [exact Hit|]. by apply IH.
Qed.

(** ** A body that arrives in pieces *)

(** X19. Of a body that arrives in several reads, only the last piece is
    handed over.  On a running node that waits for a body of as many bytes
    as the pieces have together, each piece being its own read:
    [handleMsgBuf] is called once, with the last piece alone; the pieces
    before it are gathered in the reassembly buffer and dropped when the
    body is complete.  The codec is then ready for the next frame. *)
Theorem body_in_pieces_hands_over_last_piece_only
    (pieces : list (list byte)) (last : list byte) :
  forall rn : RemoteNode,
    isStopped rn = false -> is_Some (conn rn) ->
    Forall (fun p => p <> []) pieces -> last <> [] ->
    rxBuf_len rn = len (concat pieces ++ last) ->
    exists r,
      rx (ReadBytes <$> (pieces ++ [last])) rn = Returns r
      /\ handled r = handled rn ++ [last]
      /\ isStopped r = false
      /\ rxBuf_buf r = [] /\ rxBuf_len r = 0.
Proof.
  induction pieces as [|p pieces IH];
    intros rn Hrun [cn Hconn] Hne Hlast Hlen.
  - cbn [concat app] in Hlen. cbn [app fmap list_fmap rx].
    assert (0 < len last) by (destruct last; [done | simpl; lia]).
    unfold IsStopped. rewrite Hrun. unfold rx_iter. rewrite Hconn.
    unfold readBuf. rewrite readBuf_rec_body by (done || lia).
    rewrite Hlen, Z.eqb_refl.
    destruct (untouched_handleMsgBuf last rn) as (Hs & _).
    pose proof (handled_delivered last rn) as Hh.
    unfold delivered in *.
    set (r := handleMsgBuf last rn) in *.
    cbn [isStopped set_rxBuf_len set_rxBuf_buf]. rewrite Hs, Hrun.
    eexists. split; [reflexivity|].
    cbn [isStopped rxBuf_buf rxBuf_len set_rxBuf_len set_rxBuf_buf].
    split; [exact Hh|]. by rewrite Hs.
  - apply Forall_cons in Hne as [Hp Hne].
    assert (0 < len p) by (destruct p; [done | simpl; lia]).
    assert (0 < len last) by (destruct last; [done | simpl; lia]).
    cbn [concat] in Hlen. rewrite <- app_assoc, length_app in Hlen.
    pose proof (Nat2Z.is_nonneg (length (concat pieces ++ last))).
    assert (0 < len (concat pieces ++ last))
      by (rewrite length_app; lia).
    cbn [app fmap list_fmap rx].
    unfold IsStopped. rewrite Hrun. unfold rx_iter at 1. rewrite Hconn.
    unfold readBuf. rewrite readBuf_rec_body by (done || lia).
    destruct (Z.eqb_spec (len p) (rxBuf_len rn)); [lia|].
    destruct (Z.ltb_spec (len p) (rxBuf_len rn)); [|lia].
    set (rn1 := set_rxBuf_len (rxBuf_len rn - len p)
                  (set_rxBuf_buf (rxBuf_buf rn ++ p) rn)).
    destruct (IH rn1) as (r & Hr & Hh & Hs & Hb & Hl);
      [exact Hrun | by exists cn | exact Hne | exact Hlast
      | unfold rn1; cbn [rxBuf_len set_rxBuf_len]; lia |].
    exists r. split; [exact Hr|]. split; [exact Hh|]. done.
Qed.

(** ** Messages that do not marshal *)

Lemma wire_oks (msgs : list protobuf_Message) :
  concat (concat (wire <$> msgs))
  = concat (frame <$> oks (proto_Marshal <$> msgs)).
Proof.
  induction msgs as [|m msgs IH]; [done|].
  cbn [fmap list_fmap concat]. rewrite concat_app, IH.
  unfold wire, oks. cbn [omap]. destruct (proto_Marshal m) as [buf|e].
  - unfold frame. cbn [concat fmap list_fmap].
    by rewrite app_nil_r, <- app_assoc.
  - done.
Qed.

(** X20. A message that does not marshal is skipped by [tx], and the
    loop goes on.  Taking one queued message per turn with writes that
    succeed, [tx] empties the outbound queue, leaves the node running, and
    writes the frames of exactly those messages that marshal, in the order
    of the queue. *)
Theorem tx_skips_messages_that_do_not_marshal (rn : RemoteNode) :
  isStopped rn = false -> is_Some (conn rn) ->
  exists r,
    tx (replicate (length (chan_buf (txMsgChan rn))) (TxMsg None None)) rn
    = Returns r
    /\ isStopped r = false
    /\ chan_buf (txMsgChan r) = []
    /\ concat (written r)
       = concat (written rn)
         ++ concat (frame <$> oks (proto_Marshal
                                     <$> chan_buf (txMsgChan rn))).
Proof.
  intros Hrun Hconn.
  destruct (tx_drain _ rn eq_refl Hrun Hconn) as (r & Hr & Hs & Hq & Hw).
  exists r. split; [exact Hr|]. split; [exact Hs|]. split; [exact Hq|].
  rewrite Hw, concat_app. f_equal. apply wire_oks.
Qed.

(** ** The inbound queue *)

Lemma queued_refl (rn : RemoteNode) : queued_as_handled rn rn.
Proof. exists []. by rewrite app_nil_r. Qed.

Lemma queued_trans (a b c : RemoteNode) :
  queued_as_handled a b -> queued_as_handled b c -> queued_as_handled a c.
Proof.
  intros (d1 & Hh1 & Hq1) (d2 & Hh2 & Hq2). exists (d1 ++ d2).
  rewrite Hh2, Hh1, Hq2, Hq1.
  by rewrite <- app_assoc, fmap_app, oks_app, chan_offer_app.
Qed.

Lemma queued_same (a b : RemoteNode) :
  handled b = handled a -> rxMsgChan b = rxMsgChan a ->
  queued_as_handled a b.
Proof. intros Hh Hq. exists []. by rewrite app_nil_r. Qed.

Lemma queued_handleMsgBuf (buf : list byte) (rn : RemoteNode) :
  queued_as_handled rn (handleMsgBuf buf rn).
Proof.
  exists [buf]. split; [apply handled_handleMsgBuf|].
  unfold handleMsgBuf, oks, chan_offer. cbn [fmap list_fmap omap].
  destruct (proto_Unmarshal buf) as [msg|e]; cbn [fold_left].
  - unfold emit.
    change (rxMsgChan (set_trace (trace rn ++ [EvHandleMsgBuf buf]) rn))
      with (rxMsgChan rn).
    destruct (chan_try_send (rxMsgChan rn) msg) as [q|] eqn:Hs;
      cbn; rewrite Hs; reflexivity.
  - reflexivity.
Qed.

Ltac queued :=
  repeat first
    [ apply queued_refl
    | match goal with
      | |- queued_as_handled ?a (set_rxBuf_len ?l ?x) =>
          apply (queued_trans a x); [|by apply queued_same]
      | |- queued_as_handled ?a (set_rxBuf_buf ?b ?x) =>
          apply (queued_trans a x); [|by apply queued_same]
      | |- queued_as_handled ?a (handleMsgBuf ?b ?x) =>
          apply (queued_trans a x); [|apply queued_handleMsgBuf]
      end ].

Lemma readBuf_rec_queued (fuel : nat) :
  forall buf rn r e,
    readBuf_rec fuel buf rn = Returns (r, e) -> queued_as_handled rn r.
Proof.
  induction fuel as [|f IH]; intros buf rn r e H; [discriminate|].
  cbn [readBuf_rec] in H.
  repeat match type of H with
         | context [if ?b then _ else _] => destruct b
         | context [match ?o with Some _ => _ | None => _ end] => destruct o
         end;
    try discriminate;
    try (injection H as <- <-; queued);
    try (apply IH in H; eapply queued_trans; [|exact H]; queued).
Qed.

Lemma Stop_queued (err : option string) (rn : RemoteNode) :
  queued_as_handled rn (Stop err rn).
Proof.
  destruct (Stop_keeps_codec err rn) as (_ & _ & _ & Hq & _).
  apply queued_same; [|exact Hq].
  destruct (StopOnce rn) eqn:Hg.
  - by rewrite Stop_done.
  - by destruct (Stop_first_view err rn Hg) as (_ & _ & _ & Hh & _).
Qed.

Lemma rx_iter_queued (rd : ReadResult) (rn r : RemoteNode) :
  rx_iter rd rn = Returns r -> queued_as_handled rn r.
Proof.
  unfold rx_iter, readBuf. destruct (conn rn); [|discriminate].
  destruct rd as [bs| |e].
  - destruct (readBuf_rec _ bs rn) as [[r' [e|]]| |] eqn:H; try discriminate;
      intros [= <-]; apply readBuf_rec_queued in H; [|exact H].
    eapply queued_trans; [exact H|]. apply queued_same; [|done].
    unfold handled, log, emit. cbn [trace set_trace].
    rewrite omap_app. cbn. by rewrite app_nil_r.
  - intros [= <-]. apply Stop_queued.
  - intros [= <-]. apply Stop_queued.
Qed.

(** X21. The inbound queue follows the calls of [handleMsgBuf].  For
    every sequence of reads after which [rx] returns, on a node whose
    inbound queue is within its capacity: the queue holds, behind what it
    held, the messages unmarshalled from the buffers that were handed to
    [handleMsgBuf] meanwhile, in the order of the calls, as far as the
    capacity allows.  Buffers that do not unmarshal and messages that do
    not fit are dropped; nothing else enters the queue, and [rx] takes
    nothing out of it. *)
Theorem inbound_queue_follows_handed_over_buffers
    (reads : list ReadResult) :
  forall rn r : RemoteNode,
    chan_within (rxMsgChan rn) ->
    rx reads rn = Returns r ->
    exists ds,
      handled r = handled rn ++ ds
      /\ rxMsgChan r
         = mkChan (chan_cap (rxMsgChan rn))
             (take (Z.to_nat (chan_cap (rxMsgChan rn)))
                (chan_buf (rxMsgChan rn) ++ oks (proto_Unmarshal <$> ds))).
Proof.
  intros rn r Hin Hrx.
  assert (Hq : queued_as_handled rn r).
  { clear Hin. revert rn Hrx.
    induction reads as [|rd reads IH]; intros rn; cbn [rx].
    - destruct (IsStopped rn); intros [= <-]; apply queued_refl.
    - destruct (IsStopped rn); [intros [= <-]; apply queued_refl|].
      destruct (rx_iter rd rn) as [r1| |] eqn:Hit; [|done|done].
      intros Hr. apply rx_iter_queued in Hit.
      eapply queued_trans; [exact Hit|]. by apply IH. }
  destruct Hq as (ds & Hh & Hq). exists ds. split; [exact Hh|].
  by rewrite Hq, chan_offer_take.
Qed.

End RemoteNode.

(** ** Registration of middleware *)

(** C8. [ApplyMiddleware] returns an error exactly when the value is a nil
    callback or is not of one of the five recognised shapes, and then the
    store is unchanged; otherwise the callback becomes the last element of
    the list of its shape and the four other lists are unchanged. *)
Theorem ApplyMiddleware_error_iff_nil_or_unknown (W : Type) (f : iface W)
    (store : middlewareStore W) :
  (snd (ApplyMiddleware f store) <> None
   <-> is_nil_callback f = true \/ shape_of f = None)
  /\ (snd (ApplyMiddleware f store) <> None ->
      fst (ApplyMiddleware f store) = store)
  /\ (snd (ApplyMiddleware f store) = None ->
      exists k,
        shape_of f = Some k
        /\ registered k (fst (ApplyMiddleware f store))
           = registered k store ++ [f]
        /\ forall k', k' <> k ->
             registered k' (fst (ApplyMiddleware f store))
             = registered k' store).
Proof.
  split; [|split].
  - destruct f as [|[g|]|[g|]|[g|]|[g|]|[g|]|name]; simpl;
      split; intros H; try done; try (by left); try (by right);
      destruct H; discriminate.
  - destruct f as [|[g|]|[g|]|[g|]|[g|]|[g|]|name]; simpl; done.
  - destruct f as [|[g|]|[g|]|[g|]|[g|]|[g|]|name]; simpl; try done;
      intros _; eexists; (split; [reflexivity|]);
      (split; [cbn [registered fst localNodeWillStart localNodeStarted
                    remoteNodeConnected remoteNodeReady
                    remoteNodeDisconnected]; by rewrite fmap_app
              | by intros []]).
Qed.

(** X17. Registration keeps the order of the calls.  After
    [ApplyMiddleware] was called with each of a sequence of values in
    turn, the list of every shape holds what it held before, followed by
    the values of that shape that are not nil, in the order of the calls;
    the values that were refused leave no trace.  From the store that
    [newMiddlewareStore] makes, the lists are exactly those values. *)
Theorem registration_keeps_the_order_of_calls (W : Type)
    (fs : list (iface W)) (k : Shape) :
  (forall store : middlewareStore W,
      registered k (ApplyAll fs store)
      = registered k store ++ List.filter (accepts k) fs)
  /\ registered k (ApplyAll fs newMiddlewareStore)
     = List.filter (accepts k) fs.
Proof.
  assert (Hall : forall store : middlewareStore W,
             registered k (ApplyAll fs store)
             = registered k store ++ List.filter (accepts k) fs).
  { induction fs as [|f fs IH]; intros store.
    - cbn. by rewrite app_nil_r.
    - change (ApplyAll (f :: fs) store)
        with (ApplyAll fs (fst (ApplyMiddleware f store))).
      rewrite IH. clear IH.
      destruct k, f as [|[g|]|[g|]|[g|]|[g|]|[g|]|name];
        cbn [ApplyMiddleware fst registered accepts List.filter
             localNodeWillStart localNodeStarted remoteNodeConnected
             remoteNodeReady remoteNodeDisconnected];
        rewrite ?fmap_app, <- ?app_assoc; reflexivity. }
  split; [exact Hall|]. rewrite Hall. by destruct k.
Qed.

(** ** The frame codec on concrete reads *)

(** C1. The frame [00 00 00 02 61 62] read whole hands its body [61 62]
    to [handleMsgBuf].  The same bytes with the body split over two reads,
    or read one byte at a time, hand over only the last chunk, [62]: the
    bytes of the body kept from earlier reads never reach [handleMsgBuf].
    A frame with a ten-byte body read as nine bytes, one byte and the four
    remaining bytes makes one call of [handleMsgBuf], with those last four
    bytes only. *)
Theorem readBuf_split_body_hands_over_last_chunk_only (W : Type)
    (arch : Arch) (proto_Unmarshal : list byte -> result protobuf_Message)
    (ln : LocalNode_t) (c : Conn) (isOutbound : bool) (t : Z) (w : W) :
  let rn := fresh ln c isOutbound t w in
  let b := byte_of_Z in
  (exists r,
      rx arch proto_Unmarshal
        [ReadBytes [b 0; b 0; b 0; b 2; b 97; b 98]] rn = Returns r
      /\ handled r = [[b 97; b 98]])
  /\ (exists r,
        rx arch proto_Unmarshal
          [ReadBytes [b 0; b 0; b 0; b 2; b 97]; ReadBytes [b 98]] rn
        = Returns r
        /\ handled r = [[b 98]])
  /\ (exists r,
        rx arch proto_Unmarshal
          [ReadBytes [b 0]; ReadBytes [b 0]; ReadBytes [b 0]; ReadBytes [b 2];
           ReadBytes [b 97]; ReadBytes [b 98]] rn
        = Returns r
        /\ handled r = [[b 98]])
  /\ (exists r,
        rx arch proto_Unmarshal
          [ReadBytes [b 0; b 0; b 0; b 10; b 1; b 2; b 3; b 4; b 5];
           ReadBytes [b 6];
           ReadBytes [b 7; b 8; b 9; b 10]] rn
        = Returns r
        /\ handled r = [[b 7; b 8; b 9; b 10]]).
Proof.
  intros rn b.
  repeat split; destruct arch;
    repeat (vm_compute;
            match goal with
            | |- context [proto_Unmarshal ?x] => destruct (proto_Unmarshal x)
            end);
    vm_compute; eexists; split; reflexivity.
Qed.

(** C2. The length prefix [80 00 00 00].  Where [int] has 32 bits,
    [readBuf] returns its overflow error, [rx] logs it and goes on: the
    node is not stopped, and the negative length stays in the reassembly
    state, so that the next read panics on a slice bound.  Where [int] has
    64 bits the length is not negative at all: no error, and the node waits
    for a body of 2147483648 bytes. *)
Theorem negative_length_prefix_does_not_stop_the_node (W : Type)
    (proto_Unmarshal : list byte -> result protobuf_Message)
    (ln : LocalNode_t) (c : Conn) (isOutbound : bool) (t : Z) (w : W) :
  let rn := fresh ln c isOutbound t w in
  let b := byte_of_Z in
  (exists r,
      rx Arch32 proto_Unmarshal [ReadBytes [b 128; b 0; b 0; b 0]] rn
      = Returns r
      /\ isStopped r = false
      /\ rxBuf_len r = -2147483648
      /\ trace r
         = [EvLog LWarn
              "Read buffer error: Message length -2147483648 overflow"])
  /\ rx Arch32 proto_Unmarshal
       [ReadBytes [b 128; b 0; b 0; b 0]; ReadBytes [b 1]] rn
     = Panics "slice bounds out of range"
  /\ (exists r,
        rx Arch64 proto_Unmarshal [ReadBytes [b 128; b 0; b 0; b 0]] rn
        = Returns r
        /\ isStopped r = false
        /\ rxBuf_len r = 2147483648
        /\ trace r = []).
Proof.
  intros rn b. split; [|split].
  - eexists. split; [vm_compute; reflexivity|]. by vm_compute.
  - vm_compute. reflexivity.
  - eexists. split; [vm_compute; reflexivity|]. by vm_compute.
Qed.

(** ** A concrete node

    The middleware's world is a counter of calls.  The local node has the
    same three middleware registered for both categories: the second one
    vetoes. *)

Definition h_pass : Callback (W:=nat) RemoteNodeInfo :=
  fun _ w => (true, S w).

Definition h_veto : Callback (W:=nat) RemoteNodeInfo :=
  fun _ w => (false, S w).

Definition ex_store : middlewareStore nat :=
  mkStore [] [] [] [h_pass; h_veto; h_pass] [h_pass; h_veto; h_pass].

Definition ex_local : LocalNode_t := mkLocalNode ex_store ∅.

Definition ex_node : RemoteNode :=
  fresh ex_local (mkConn "10.0.0.7:30001") true 0 0%nat.

Definition ex_msg : protobuf_Message := mkMessage 0 "m1" [Byte.x61].

(** The same node with an outbound queue of capacity two holding two
    messages. *)
Definition ex_node_full : RemoteNode :=
  set_txMsgChan (mkChan 2 [ex_msg; ex_msg]) ex_node.

(** The same node with a reply slot outstanding for ["m1"]. *)
Definition ex_node_waiting : RemoteNode :=
  set_LocalNode (mkLocalNode ex_store {["m1" := replyTimeout]}) ex_node.

Definition ex_Marshal (m : protobuf_Message) : result (list byte) :=
  Ok (Message m).

Definition ex_Unmarshal (b : list byte) : result protobuf_Message :=
  Ok (mkMessage 0 "" b).

Definition ex_Unmarshal_GetNodeReply (b : list byte)
  : result (option protobuf_Node) :=
  Ok (Some (mkProtoNode b ":30001")).

Definition ex_SplitHostPort (s : string) : result (string * string) :=
  Ok ("", "30001").

Definition ex_JoinHostPort (h p : string) : string := h +:+ ":" +:+ p.

(** Two concurrent callers of [Stop]: the second arrives while the first
    is inside the body and waits for it. *)
Definition ex_schedule : list nat :=
  [0; 1; 0; 1; 0; 0; 1; 0; 0; 0; 1]%nat.

(** ** The theorems at the concrete node *)

Lemma Stop_runs_shutdown_body_once_witness :
  closes (trace (Stop (Some "bye") ex_node)) = 1%nat
  /\ calls CatDisconnected (trace (Stop (Some "bye") ex_node))
     = [(0%nat, true); (1%nat, false)]
  /\ exists e,
      e ∈ [Some "bye"; None]
      /\ c_node (concurrent_Stop [Some "bye"; None] ex_schedule ex_node)
         = Stop e ex_node.
Proof.
  destruct (Stop_runs_shutdown_body_once ex_node (Some "bye"))
    as (_ & Hfirst & Hconc).
  destruct (Hfirst eq_refl) as (_ & _ & Hclose & _).
  split; [exact Hclose|]. split; [reflexivity|].
  apply (Hconc eq_refl [None] ex_schedule).
  vm_compute. repeat constructor.
Defined.

Lemma SendMessageSync_timeout_frees_slot_witness :
  exists rn1,
    SendMessageSync ex_msg None ex_node = (rn1, Err "Wait for reply timeout")
    /\ now rn1 = replyTimeout
    /\ slot_free "m1" (now rn1) (LocalNode rn1).
Proof.
  destruct (SendMessageSync_timeout_frees_slot ex_msg None ex_node)
    as (rn1 & H1 & H2 & _ & H3 & _).
  - unfold chan_full; vm_compute. intros H. apply H. reflexivity.
  - exact I.
  - exact I.
  - exists rn1. split; [exact H1|]. split; [exact H2 | exact H3].
Defined.

Lemma SendMessage_fails_when_queue_full_witness :
  SendMessageAsync ex_msg ex_node_full
  = (ex_node_full, Some "Tx msg chan full, discarding msg").
Proof.
  apply (SendMessage_fails_when_queue_full ex_msg ex_node_full).
  unfold chan_full; vm_compute. discriminate.
Defined.

Lemma dispatch_in_order_until_first_veto_witness :
  trace (rangeMiddleware CatReady 0 [h_pass; h_veto; h_pass] ex_node)
  = [EvMiddleware CatReady 0 true; EvMiddleware CatReady 1 false].
Proof.
  destruct (dispatch_in_order_until_first_veto ex_Unmarshal_GetNodeReply
              ex_SplitHostPort ex_JoinHostPort CatReady
              [h_pass; h_veto; h_pass] ex_node)
    as (_ & Hcut & _).
  apply (Hcut [h_pass] h_veto [h_pass]); reflexivity.
Defined.

Lemma Start_launches_once_and_not_after_Stop_witness :
  spawned (fst (Start ex_node)) = [TaskRx; TaskTx; TaskHandleMsg; TaskReady]
  /\ spawned (fst (Start (Stop None ex_node))) = [].
Proof.
  destruct (Start_launches_once_and_not_after_Stop ex_node)
    as (Hfirst & _ & Hstop & _).
  split.
  - apply Hfirst; reflexivity.
  - apply (Hstop None). discriminate.
Defined.

Lemma ApplyMiddleware_error_iff_nil_or_unknown_witness :
  snd (ApplyMiddleware (IRemoteNodeReady None) ex_store) <> None
  /\ exists k,
      shape_of (IRemoteNodeReady (Some h_pass)) = Some k
      /\ registered k
           (fst (ApplyMiddleware (IRemoteNodeReady (Some h_pass)) ex_store))
         = registered k ex_store ++ [IRemoteNodeReady (Some h_pass)].
Proof.
  split.
  - apply (ApplyMiddleware_error_iff_nil_or_unknown nat
             (IRemoteNodeReady None) ex_store).
    left. reflexivity.
  - destruct (ApplyMiddleware_error_iff_nil_or_unknown nat
                (IRemoteNodeReady (Some h_pass)) ex_store)
      as (_ & _ & Happ).
    destruct (Happ eq_refl) as (k & Hk & Hreg & _).
    exists k. split; [exact Hk | exact Hreg].
Defined.

Lemma SendMessage_keeps_envelope_when_alloc_fails_witness :
  exists rn',
    SendMessage ex_msg true ex_node_waiting
    = (rn', Err "Reply chan already exists")
    /\ chan_buf (txMsgChan rn') = [ex_msg]
    /\ exists r,
        tx ex_Marshal [TxMsg None None] rn' = Returns r
        /\ written r = [BigEndian_PutUint32 1; [Byte.x61]].
Proof.
  destruct (SendMessage_keeps_envelope_when_alloc_fails ex_Marshal ex_msg
              ex_node_waiting (LocalNode ex_node_waiting)
              "Reply chan already exists")
    as (rn' & Hsend & Hq & Htx).
  - unfold chan_full; vm_compute. intros H. apply H. reflexivity.
  - reflexivity.
  - exists rn'. split; [exact Hsend|]. split; [exact Hq|].
    destruct (Htx [Byte.x61] eq_refl eq_refl (mk_is_Some _ _ eq_refl))
      as (r & Hr & _ & Hw).
    exists r. split; [exact Hr | exact Hw].
Defined.


Lemma whole_frames_are_handed_over_in_order_witness :
  exists r,
    rx Arch32 ex_Unmarshal
      [ReadBytes (frame [Byte.x61; Byte.x62] ++ frame []);
       ReadBytes (frame [Byte.x63])] ex_node
    = Returns r
    /\ handled r = [[Byte.x61; Byte.x62]; []; [Byte.x63]].
Proof.
  destruct (whole_frames_are_handed_over_in_order Arch32 ex_Unmarshal
              [[[Byte.x61; Byte.x62]; []]; [[Byte.x63]]] ex_node)
    as (r & Hr & Hh & _).
  - reflexivity.
  - by eexists.
  - reflexivity.
  - reflexivity.
  - repeat constructor.
  - exists r. split; [exact Hr | exact Hh].
Defined.

Lemma tx_writes_frames_in_queue_order_witness :
  exists r,
    tx ex_Marshal [TxMsg None None; TxMsg None None] ex_node_full = Returns r
    /\ chan_buf (txMsgChan r) = []
    /\ concat (written r) = frame [Byte.x61] ++ frame [Byte.x61].
Proof.
  destruct (tx_writes_frames_in_queue_order ex_Marshal
              [[Byte.x61]; [Byte.x61]] ex_node_full)
    as (r & Hr & _ & Hq & Hw).
  - repeat constructor.
  - reflexivity.
  - by eexists.
  - exists r. split; [exact Hr|]. split; [exact Hq | exact Hw].
Defined.

Lemma loopback_hands_over_marshalled_bodies_witness :
  exists s r,
    tx ex_Marshal [TxMsg None None; TxMsg None None] ex_node_full = Returns s
    /\ rx Arch64 ex_Unmarshal [ReadBytes (concat (written s))] ex_node
       = Returns r
    /\ handled r = [[Byte.x61]; [Byte.x61]].
Proof.
  apply (loopback_hands_over_marshalled_bodies Arch64 ex_Marshal ex_Unmarshal
           [ex_msg; ex_msg] [[Byte.x61]; [Byte.x61]] ex_node_full ex_node);
    try reflexivity; try (by eexists); repeat constructor.
Defined.

Lemma SendMessageAsync_fails_only_when_full_witness :
  SendMessageAsync ex_msg ex_node
  = (set_txMsgChan (mkChan remoteTxMsgChanLen [ex_msg]) ex_node, None).
Proof.
  apply (SendMessageAsync_fails_only_when_full ex_msg ex_node).
  unfold chan_full; vm_compute. intros H. apply H. reflexivity.
Defined.

Lemma rx_stops_on_read_failure_witness :
  exists cause,
    rx Arch64 ex_Unmarshal [ReadEOF; ReadBytes [Byte.x01]] ex_node
    = Returns (Stop (Some cause) ex_node)
    /\ isStopped (Stop (Some cause) ex_node) = true
    /\ closes (trace (Stop (Some cause) ex_node)) = 1%nat.
Proof.
  apply (rx_stops_on_read_failure Arch64 ex_Unmarshal ReadEOF
           [ReadBytes [Byte.x01]] ex_node);
    try reflexivity; try (by eexists); discriminate.
Defined.

Lemma bodies_kept_whole_are_handed_over_witness :
  exists r,
    rx Arch32 ex_Unmarshal
      (ReadBytes <$> [[Byte.x00]; [Byte.x00; Byte.x00];
                      [Byte.x02; Byte.x61; Byte.x62; Byte.x00; Byte.x00];
                      [Byte.x00; Byte.x01]; [Byte.x63]]) ex_node
    = Returns r
    /\ handled r = [[Byte.x61; Byte.x62]; [Byte.x63]].
Proof.
  destruct (bodies_kept_whole_are_handed_over (W:=nat) Arch32 ex_Unmarshal
              (InHeader []) (InHeader [])
              [[Byte.x00]; [Byte.x00; Byte.x00];
               [Byte.x02; Byte.x61; Byte.x62; Byte.x00; Byte.x00];
               [Byte.x00; Byte.x01]; [Byte.x63]]
              [[Byte.x61; Byte.x62]; [Byte.x63]]) with (rn := ex_node)
    as ((r & Hr & Hh & _) & _).
  - apply (rws_cons (InHeader []) (InHeader [Byte.x00]) (InHeader [])
             [Byte.x00] _ [] [[Byte.x61; Byte.x62]; [Byte.x63]]).
    { apply (rw_header_part [] [Byte.x00]). simpl. lia. }
    apply (rws_cons (InHeader [Byte.x00])
             (InHeader [Byte.x00; Byte.x00; Byte.x00]) (InHeader [])
             [Byte.x00; Byte.x00] _ [] [[Byte.x61; Byte.x62]; [Byte.x63]]).
    { apply (rw_header_part [Byte.x00] [Byte.x00; Byte.x00]). simpl. lia. }
    apply (rws_cons (InHeader [Byte.x00; Byte.x00; Byte.x00])
             (InHeader [Byte.x00; Byte.x00]) (InHeader [])
             _ _ [[Byte.x61; Byte.x62]] [[Byte.x63]]).
    { apply (rw_header_body [Byte.x00; Byte.x00; Byte.x00] [Byte.x02]
               [Byte.x61; Byte.x62] [Byte.x00; Byte.x00] []
               (InHeader [Byte.x00; Byte.x00])).
      - reflexivity.
      - simpl. lia.
      - apply (rw_header_part [] [Byte.x00; Byte.x00]). simpl. lia. }
    apply (rws_cons (InHeader [Byte.x00; Byte.x00]) (InBody 1) (InHeader [])
             [Byte.x00; Byte.x01] _ [] [[Byte.x63]]).
    { apply (rw_header_end [Byte.x00; Byte.x00] [Byte.x00; Byte.x01] 1).
      - reflexivity.
      - lia. }
    apply (rws_cons (InBody 1) (InHeader []) (InHeader [])
             [Byte.x63] [] [[Byte.x63]] []).
    { apply (rw_body [Byte.x63] [] [] (InHeader [])).
      - discriminate.
      - simpl. lia.
      - apply rw_nothing. }
    apply rws_nil.
  - reflexivity.
  - by eexists.
  - repeat split. simpl. lia.
  - exists r. split; [exact Hr | exact Hh].
Defined.

Lemma rx_never_panics_where_int_has_64_bits_witness :
  exists r,
    rx Arch64 ex_Unmarshal
      [ReadBytes [Byte.xff; Byte.xff; Byte.xff; Byte.xff];
       ReadBytes [Byte.x00]; ReadEOF] ex_node
    = Returns r.
Proof.
  destruct (rx_never_panics_where_int_has_64_bits Arch64 ex_Unmarshal
              [ReadBytes [Byte.xff; Byte.xff; Byte.xff; Byte.xff];
               ReadBytes [Byte.x00]; ReadEOF] eq_refl ex_node)
    as (_ & r & Hr & _).
  - by eexists.
  - left. split; [reflexivity | simpl; lia].
  - by exists r.
Defined.

Lemma overflowing_length_then_panic_where_int_has_32_bits_witness :
  rx Arch32 ex_Unmarshal
    [ReadBytes [Byte.xff; Byte.xff; Byte.xff; Byte.xff];
     ReadBytes [Byte.x00]] ex_node
  = Panics "slice bounds out of range".
Proof.
  apply (overflowing_length_then_panic_where_int_has_32_bits Arch32
           ex_Unmarshal Byte.xff Byte.xff Byte.xff Byte.xff []
           [Byte.x00] ex_node).
  - reflexivity.
  - vm_compute. discriminate.
  - reflexivity.
  - by eexists.
  - reflexivity.
  - reflexivity.
  - discriminate.
Defined.

(** A node whose inbound queue holds two messages of routing type 0, and
    delivery queues for the routing types 0 and 1. *)
Definition ex_node_rx : RemoteNode :=
  set_rxMsgChan (mkChan 8 [ex_msg; ex_msg]) ex_node.

Definition ex_chans : gmap Z (Chan RemoteMessage) :=
  {[0 := mkChan 1 []; 1 := mkChan 4 []]}.

(** The same node waiting for a body of three bytes. *)
Definition ex_node_body : RemoteNode := set_rxBuf_len 3 ex_node.

Lemma tx_stops_on_first_write_failure_witness :
  exists r,
    tx ex_Marshal [TxMsg (Some "broken pipe") None; TxMsg None None]
      ex_node_full
    = Returns r
    /\ isStopped r = true
    /\ chan_buf (txMsgChan r) = [ex_msg].
Proof.
  destruct (tx_stops_on_first_write_failure ex_Marshal "broken pipe" None
              [TxMsg None None] ex_msg [ex_msg] [Byte.x61] ex_node_full)
    as (r & Hr & Hs & Hq & _).
  - reflexivity.
  - reflexivity.
  - by eexists.
  - reflexivity.
  - reflexivity.
  - exists r. split; [exact Hr|]. split; [exact Hs | exact Hq].
Defined.

Lemma keepAlive_turns_only_queue_pings_witness :
  tx ex_Marshal (TxKeepAlive <$> [Ok ex_msg; Err "no ping"]) ex_node_full
  = Returns (set_txMsgChan
               (mkChan 2 (take 2 ([ex_msg; ex_msg] ++ [ex_msg])))
               ex_node_full).
Proof.
  apply (keepAlive_turns_only_queue_pings ex_Marshal
           [Ok ex_msg; Err "no ping"] ex_node_full).
  - reflexivity.
  - unfold chan_within. vm_compute. discriminate.
Defined.

Lemma handleMsg_delivers_by_routing_type_witness :
  chan_buf (rxMsgChan (d_node (handleMsg ((fun w => HmMsg w None) <$> [0; 5])
                                 ex_node_rx ex_chans)))
  = [].
Proof.
  destruct (handleMsg_delivers_by_routing_type [0; 5] ex_node_rx ex_chans)
    as (H & _).
  - reflexivity.
  - reflexivity.
  - exact H.
Defined.

Lemma undeliverable_messages_do_not_postpone_timeout_witness :
  isStopped (d_node (handleMsg ([HmMsg 0 (Some "bad"); HmMsg 0 (Some "bad")]
                                ++ [HmTimer])
                       ex_node_rx ex_chans))
  = true.
Proof.
  destruct (undeliverable_messages_do_not_postpone_timeout
              [HmMsg 0 (Some "bad"); HmMsg 0 (Some "bad")] []
              ex_node_rx ex_chans)
    as (_ & H & _).
  - reflexivity.
  - reflexivity.
  - by eexists.
  - repeat constructor; exists 0, (Some "bad");
      (split; [reflexivity | left; by eexists]).
  - exact H.
Defined.


Lemma Start_ready_stops_node_when_peer_is_silent_witness :
  exists r,
    Start_ready ex_Unmarshal_GetNodeReply ex_SplitHostPort ex_JoinHostPort
      (Ok ex_msg) None ex_node
    = Returns r
    /\ isStopped r = true
    /\ now r = replyTimeout.
Proof.
  destruct (Start_ready_stops_node_when_peer_is_silent
              ex_Unmarshal_GetNodeReply ex_SplitHostPort ex_JoinHostPort
              ex_msg None ex_node)
    as (r & Hr & Hs & _ & _ & Hn & _).
  - reflexivity.
  - by eexists.
  - unfold chan_full; vm_compute. intros H. apply H. reflexivity.
  - exact I.
  - exact I.
  - exists r. split; [exact Hr|]. split; [exact Hs | exact Hn].
Defined.

Lemma Start_ready_completes_the_address_witness :
  exists r,
    Start_ready ex_Unmarshal_GetNodeReply ex_SplitHostPort ex_JoinHostPort
      (Ok ex_msg) (Some (1, mkRemoteMessage ex_msg)) ex_node
    = Returns r
    /\ Node_Node r = Some (mkProtoNode [Byte.x61] ":30001").
Proof.
  destruct (Start_ready_completes_the_address
              ex_Unmarshal_GetNodeReply ex_SplitHostPort ex_JoinHostPort
              ex_msg 1 (mkRemoteMessage ex_msg)
              (mkProtoNode [Byte.x61] ":30001") "" "30001" "" "30001"
              (mkConn "10.0.0.7:30001") ex_node)
    as (rn2 & Hr & _ & _ & _ & _ & Hn & _).
  - unfold chan_full; vm_compute. intros H. apply H. reflexivity.
  - exact I.
  - reflexivity.
  - reflexivity.
  - reflexivity.
  - discriminate.
  - reflexivity.
  - reflexivity.
  - eexists. split; [exact Hr | exact Hn].
Defined.

Lemma received_bytes_never_stop_the_node_witness :
  exists r,
    rx Arch32 ex_Unmarshal
      (ReadBytes <$> [[Byte.xff; Byte.xff; Byte.xff; Byte.xff]]) ex_node
    = Returns r
    /\ untouched_by_codec ex_node r.
Proof.
  eexists. split; [reflexivity|].
  apply (received_bytes_never_stop_the_node Arch32 ex_Unmarshal
           [[Byte.xff; Byte.xff; Byte.xff; Byte.xff]]).
  reflexivity.
Defined.

Lemma body_in_pieces_hands_over_last_piece_only_witness :
  exists r,
    rx Arch32 ex_Unmarshal
      (ReadBytes <$> ([[Byte.x61]; [Byte.x62]] ++ [[Byte.x63]])) ex_node_body
    = Returns r
    /\ handled r = [[Byte.x63]].
Proof.
  destruct (body_in_pieces_hands_over_last_piece_only Arch32 ex_Unmarshal
              [[Byte.x61]; [Byte.x62]] [Byte.x63] ex_node_body)
    as (r & Hr & Hh & _).
  - reflexivity.
  - by eexists.
  - repeat constructor; discriminate.
  - discriminate.
  - reflexivity.
  - exists r. split; [exact Hr | exact Hh].
Defined.

Lemma tx_skips_messages_that_do_not_marshal_witness :
  exists r,
    tx ex_Marshal [TxMsg None None; TxMsg None None] ex_node_full = Returns r
    /\ chan_buf (txMsgChan r) = [].
Proof.
  destruct (tx_skips_messages_that_do_not_marshal ex_Marshal ex_node_full)
    as (r & Hr & _ & Hq & _).
  - reflexivity.
  - by eexists.
  - exists r. split; [exact Hr | exact Hq].
Defined.

(** The same node with an inbound queue of capacity one. *)
Definition ex_node_rx1 : RemoteNode := set_rxMsgChan (mkChan 1 []) ex_node.

Lemma inbound_queue_follows_handed_over_buffers_witness :
  exists r,
    rx Arch32 ex_Unmarshal
      [ReadBytes (frame [Byte.x61] ++ frame [Byte.x62]); ReadEOF] ex_node_rx1
    = Returns r
    /\ handled r = [[Byte.x61]; [Byte.x62]]
    /\ chan_buf (rxMsgChan r) = [mkMessage 0 "" [Byte.x61]].
Proof.
  pose (r := match rx Arch32 ex_Unmarshal
                     [ReadBytes (frame [Byte.x61] ++ frame [Byte.x62]);
                      ReadEOF] ex_node_rx1 with
             | Returns r => r
             | _ => ex_node_rx1
             end).
  destruct (inbound_queue_follows_handed_over_buffers Arch32 ex_Unmarshal
              [ReadBytes (frame [Byte.x61] ++ frame [Byte.x62]); ReadEOF]
              ex_node_rx1 r)
    as (ds & Hh & Hq).
  - unfold chan_within. vm_compute. discriminate.
  - vm_compute. reflexivity.
  - assert (Hds : ds = [[Byte.x61]; [Byte.x62]]).
    { vm_compute in Hh. symmetry. exact Hh. }
    subst ds. exists r. split; [vm_compute; reflexivity|].
    split; [exact Hh|]. rewrite Hq. vm_compute. reflexivity.
Defined.

(** A [GetNodeReply] decoder under which the empty body, the encoding of
    a reply with no field set, has no node record. *)
Definition ex_Unmarshal_GetNodeReply_opt (b : list byte)
  : result (option protobuf_Node) :=
  match b with
  | [] => Ok None
  | _ => Ok (Some (mkProtoNode b ":30001"))
  end.

Lemma Start_returns_nil_but_reply_without_node_panics_witness :
  snd (Start ex_node) = None
  /\ Start_ready ex_Unmarshal_GetNodeReply_opt ex_SplitHostPort
       ex_JoinHostPort (Ok ex_msg)
       (Some (1, mkRemoteMessage (mkMessage 0 "m1" []))) ex_node
     = Panics "nil pointer dereference".
Proof.
  destruct (Start_returns_nil_but_reply_without_node_panics
              ex_Unmarshal_GetNodeReply_opt ex_SplitHostPort ex_JoinHostPort
              ex_msg 1 (mkRemoteMessage (mkMessage 0 "m1" [])) ex_node)
    as (Hnil & Hpanic & _).
  - unfold chan_full; vm_compute. intros H. apply H. reflexivity.
  - exact I.
  - reflexivity.
  - reflexivity.
  - split; [exact Hnil | exact Hpanic].
Defined.
